(** * Creevey: browser session and screenshot engine (the selenium browser module)

    A shallow embedding of the capture engine, the story switcher and the
    session manager of creevey's selenium back end, with the properties the
    specification states about them.

    Conventions of the embedding.
    - A JavaScript [number] is an exact rational ([Q]).  All quantities of the
      source are pixel counts and pixel offsets; on integers of that size,
      and on the binary fractions of [isPixelExact], the double arithmetic
      of the source is exact.  On other numbers a double sum or product is
      rounded and a comparison may come out differently: statements about
      the tile grid of arbitrary rects are made for rects of numbers that
      satisfy [isPixelExact].  A division by zero, which in JavaScript
      yields an infinity or NaN, is outside the model: statements that
      divide assume a divisor that is not zero.
    - A screenshot (a base64 text holding a PNG file) is represented by the
      raster it encodes.
    - Every call to the remote browser is a step of a state monad over an
      abstract browser; each step may reject, and each is recorded in a
      trace. *)

From Stdlib Require Import ZArith QArith Qround Qminmax Lia Lqa.
From Stdlib Require Import List String Ascii Bool.
Import ListNotations.

Set Implicit Arguments.

(** ** JavaScript numbers *)

Module Js.

Definition number := Q.

Definition Math_floor (x : number) : Z := Qfloor x.
Definition Math_ceil (x : number) : Z := Qceiling x.
(** [Math.round] rounds to the nearest integer, a half going up. *)
Definition Math_round (x : number) : Z := Qfloor (x + (1 # 2)).
Definition Math_max (x y : number) : number := Qmax x y.
Definition Math_min (x y : number) : number := Qmin x y.

(** [a % b]: the remainder of the division truncated towards zero. *)
Definition Qtrunc (x : number) : Z := Z.quot (Qnum x) (Zpos (Qden x)).
Definition rem (a b : number) : number := a - b * inject_Z (Qtrunc (a / b)).

(** [a >= b] and [a <= b] on numbers. *)
Definition geb (a b : number) : bool := Qle_bool b a.
Definition leb (a b : number) : bool := Qle_bool a b.

(** An array index is usable when the number is a non-negative integer. *)
Definition asIndex (j : number) : option nat :=
  if Qeq_bool j (inject_Z (Qfloor j)) && (0 <=? Qfloor j)%Z
  then Some (Z.to_nat (Qfloor j)) else None.

End Js.
Import Js.

(** ** Geometry records *)

Record ElementRect := mkRect { top : number; left : number; width : number; height : number }.

Record NormalizedRect :=
  mkNorm { norm_left : number; norm_right : number; norm_top : number; norm_bottom : number }.

(** A decoded PNG: [data] holds four channels per pixel, row by row. *)
Record PNG := mkPNG { png_width : Z; png_height : Z; data : list Z }.

(** ** The tile grid of [takeCompositeScreenshot]

    The constants the function computes before its loops, in the order of the
    source. *)

Section CompositeGrid.

Variable scrollBarWidth : number.
Variables windowRect elementRect : ElementRect.

Definition normalizedElementRect : NormalizedRect :=
  {| norm_left := left elementRect - left windowRect;
     norm_right := left elementRect + width elementRect - left windowRect;
     norm_top := top elementRect - top windowRect;
     norm_bottom := top elementRect + height elementRect - top windowRect |}.

Definition isFitHorizontally : bool :=
  geb (width windowRect) (width elementRect + norm_left normalizedElementRect).
Definition isFitVertically : bool :=
  geb (height windowRect) (height elementRect + norm_top normalizedElementRect).

Definition viewportWidth : number :=
  width windowRect - (if isFitVertically then 0 else scrollBarWidth).
Definition viewportHeight : number :=
  height windowRect - (if isFitHorizontally then 0 else scrollBarWidth).

Definition cols : Z := Math_ceil (width elementRect / viewportWidth).
Definition rows : Z := Math_ceil (height elementRect / viewportHeight).

Definition xOffset : Z :=
  Math_round
    (if isFitHorizontally then norm_left normalizedElementRect
     else Math_max 0 (inject_Z cols * viewportWidth - width elementRect)).
Definition yOffset : Z :=
  Math_round
    (if isFitVertically then norm_top normalizedElementRect
     else Math_max 0 (inject_Z rows * viewportHeight - height elementRect)).

(** The scroll target of the tile in column [col] / row [row]. *)
Definition dx (col : Z) : number :=
  Math_min (viewportWidth * inject_Z col + norm_left normalizedElementRect)
           (Math_max 0 (norm_right normalizedElementRect - viewportWidth)).
Definition dy (row : Z) : number :=
  Math_min (viewportHeight * inject_Z row + norm_top normalizedElementRect)
           (Math_max 0 (norm_bottom normalizedElementRect - viewportHeight)).

(** The nested capture loops visit the tiles in row-major order. *)
Definition upto (n : Z) : list Z := map Z.of_nat (seq 0 (Z.to_nat n)).

Definition tileOrder : list (Z * Z) :=
  flat_map (fun row => map (fun col => (row, col)) (upto cols)) (upto rows).

Definition scrollTargets : list (number * number) :=
  map (fun rc => (dx (snd rc), dy (fst rc))) tileOrder.

(** [new PNG({ width: Math.round(elementRect.width), height: ... })] *)
Definition compositeWidth : Z := Math_round (width elementRect).
Definition compositeHeight : Z := Math_round (height elementRect).

(** *** The reconstruction loop

    For the destination pixel [(x, y)]: the tile it is read from and the
    index [j] of its first channel in that tile's data. *)

Variable isScreenshotWithoutScrollBar : bool.

Definition scrollOffset : number :=
  if isFitVertically || isScreenshotWithoutScrollBar then 0 else scrollBarWidth.

Definition pixelCol (x : Z) : Z := Math_floor (inject_Z x / viewportWidth).
Definition pixelRow (y : Z) : Z := Math_floor (inject_Z y / viewportHeight).
Definition isLastCol (x : Z) : bool := (cols - pixelCol x =? 1)%Z.
Definition isLastRow (y : Z) : bool := (rows - pixelRow y =? 1)%Z.

Definition destIndex (x y : Z) : Z := (y * compositeWidth + x) * 4.

Definition sourceIndex (x y : Z) : number :=
  (rem (inject_Z y) viewportHeight * (viewportWidth + scrollOffset)
   + rem (inject_Z x) viewportWidth) * 4
  + (if isLastRow y then inject_Z yOffset * (viewportWidth + scrollOffset) * 4 else 0)
  + (if isLastCol x then inject_Z xOffset * 4 else 0).

Definition tileIndex (x y : Z) : Z := pixelRow y * cols + pixelCol x.

End CompositeGrid.

(** *** Assembling the composite raster *)

Definition pixelOrder (w h : Z) : list (Z * Z) :=
  flat_map (fun y => map (fun x => (x, y)) (upto w)) (upto h).

(** [image.data[j]] stored into the composite buffer: a read past the end of
    the data, or at an index that is no integer, is [undefined] and is stored
    as 0. *)
Definition readChannel (image : PNG) (j : number) : Z :=
  match asIndex j with
  | Some n => nth n (data image) 0%Z
  | None => 0%Z
  end.

(** [images[k]]: [None] stands for [undefined]. *)
Definition imageAt (images : list PNG) (k : Z) : option PNG :=
  if (0 <=? k)%Z then nth_error images (Z.to_nat k) else None.

Fixpoint collect {A B : Type} (f : A -> option (list B)) (l : list A) : option (list B) :=
  match l with
  | [] => Some []
  | a :: l' =>
      match f a with
      | None => None
      | Some b =>
          match collect f l' with
          | None => None
          | Some bs => Some (b ++ bs)
          end
      end
  end.

Section Reconstruct.

Variable scrollBarWidth : number.
Variables windowRect elementRect : ElementRect.
Variable isScreenshotWithoutScrollBar : bool.
Variable images : list PNG.

Definition copyPixel (xy : Z * Z) : option (list Z) :=
  let (x, y) := xy in
  let j := sourceIndex scrollBarWidth windowRect elementRect isScreenshotWithoutScrollBar x y in
  match imageAt images (tileIndex scrollBarWidth windowRect elementRect x y) with
  | None => None
  | Some image =>
      Some [readChannel image (j + 0); readChannel image (j + 1);
            readChannel image (j + 2); readChannel image (j + 3)]
  end.

(** The composite image; [None] when some [images[...]] is undefined, where
    the source raises a TypeError. *)
Definition compositeImage : option PNG :=
  let w := compositeWidth elementRect in
  let h := compositeHeight elementRect in
  match collect copyPixel (pixelOrder w h) with
  | None => None
  | Some d => Some (mkPNG w h d)
  end.

End Reconstruct.

(** ** Errors and outcomes *)

Record JsError := mkError { err_name : string; err_message : string; err_stack : string }.

(** What a [throw] carries: an instance of [Error], or any other value. *)
Inductive Thrown :=
| ThrownError (e : JsError)
| ThrownValue (v : string).

(** [new Error(msg)]; the stack is reduced to its first line. *)
Definition newError (msg : string) : JsError :=
  {| err_name := "Error"; err_message := msg; err_stack := "Error: " ++ msg |}.

(** The settlement of one awaited call. *)
Inductive Reply (A : Type) :=
| Resolved (a : A)
| Rejected (t : Thrown).
Arguments Resolved {A} a.
Arguments Rejected {A} t.

(** The result of running a function of the source: it returns, it throws,
    or it stays in a polling loop as long as it was observed. *)
Inductive Outcome (A : Type) :=
| Ok (a : A)
| Throw (t : Thrown)
| Pending.
Arguments Ok {A} a.
Arguments Throw {A} t.
Arguments Pending {A}.

(** ** The remote browser *)

Record Capabilities := mkCaps {
  caps_browserName : string;
  caps_browserVersion : option string;
  caps_version : option string   (* capabilities.get('version') *)
}.

(** A reference to an element of the page held by the driver. *)
Definition WebElement := string.

(** A session of the remote browser, the [WebDriver] object of the source. *)
Definition Session := string.

(** JavaScript values that are a string, [null] or [undefined]. *)
Inductive JsOpt (A : Type) :=
| JUndefined
| JNull
| JValue (a : A).
Arguments JUndefined {A}.
Arguments JNull {A}.
Arguments JValue {A} a.

Record StoryId := mkStoryId { story_id : string; story_kind : string; story_name : string }.

Record WindowRect := mkWindowRect { outerWidth : number; outerHeight : number }.

Inductive MouseOrigin := OriginViewport | OriginBody.

(** What the source asks of [selenium-webdriver] and of the page.  [W] is the
    state of the browser, the page in it and the network in between. *)
Class WebDriver (W : Type) := {
  (* driver commands *)
  wd_build : string -> W -> Reply Session * W;
  wd_setTimeouts : W -> Reply unit * W;
  wd_get : string -> W -> Reply unit * W;
  wd_getPageSource : W -> Reply string * W;
  wd_getCurrentUrl : W -> Reply string * W;
  wd_getCapabilities : W -> Reply Capabilities * W;
  wd_takeScreenshot : W -> Reply PNG * W;
  wd_elementScreenshot : string -> W -> Reply PNG * W;
  wd_getWindowRect : W -> Reply WindowRect * W;
  wd_setWindowRect : WindowRect -> W -> Reply unit * W;
  wd_moveMouse : MouseOrigin -> number -> number -> W -> Reply unit * W;
  wd_quit : W -> W;
  (* sending a script to the page: rejected, the script does not run *)
  wd_deliverScript : W -> Reply unit * W;
  (* the page, as the scripts of the source see it *)
  window_scrollTo : number -> number -> W -> W;
  window_scrollX : W -> number;
  window_scrollY : W -> number;
  window_pageXOffset : W -> number;
  window_pageYOffset : W -> number;
  window_innerWidth : W -> number;
  window_innerHeight : W -> number;
  (* document.querySelector(selector).getBoundingClientRect() *)
  document_querySelector : string -> W -> option ElementRect;
  document_body_rect : W -> ElementRect;
  (* document.getElementById('root').childElementCount *)
  document_root_childElementCount : W -> option nat;
  (* offsetWidth - clientWidth of a scrolling probe element *)
  probe_widthDiff : W -> number;
  (* resolves once document.readyState is 'complete' *)
  document_waitComplete : W -> Reply unit * W;
  (* the hooks creevey's storybook addon installs on [window] *)
  window_CREEVEY_SELECT_STORY :
    W -> option (StoryId -> bool -> W -> Reply (option string) * W);
  window_CREEVEY_UPDATE_GLOBALS : W -> option (string -> W -> Reply unit * W);
  window_CREEVEY_INSERT_IGNORE_STYLES :
    W -> option (list string -> W -> Reply WebElement * W);
  window_CREEVEY_REMOVE_IGNORE_STYLES :
    W -> option (WebElement -> W -> Reply unit * W);
  (* whether the 'shutdown' message has arrived by now *)
  shutdownRequested : W -> bool
}.

(** The calls made to the browser, as recorded in the trace. *)
Inductive Call :=
| CBuild (gridUrl : string)
| CSetTimeouts
| CGet (url : string)
| CGetPageSource
| CGetCurrentUrl
| CGetCapabilities
| CTakeScreenshot
| CElementScreenshot (selector : string)
| CGetWindowRect
| CSetWindowRect (r : WindowRect)
| CMoveMouse (origin : MouseOrigin) (x y : number)
| CQuit
| CScriptScrollTo (x y : number)
| CScriptMeasure (selector : string)
| CScriptBodyRect
| CScriptInnerSize
| CScriptChildCount
| CScriptScrollBarWidth
| CScriptWaitForStorybook
| CScriptSelectStory (story : StoryId) (waitForReady : bool)
| CScriptUpdateGlobals (globals : string)
| CScriptInsertIgnoreStyles (selectors : list string)
| CScriptRemoveIgnoreStyles (ignoreStyles : WebElement).

(** ** The monad of browser programs *)

Record State (W : Type) := mkState {
  world : W;
  trace : list Call;
  (* the memo of [getScrollBarWidth], local to the process *)
  scrollBarWidthCache : option number
}.

Definition M (W A : Type) : Type := State W -> Outcome A * State W.

Section Monad.

Context {W : Type}.

Definition ret {A} (a : A) : M W A := fun s => (Ok a, s).

Definition bind {A B} (m : M W A) (k : A -> M W B) : M W B :=
  fun s =>
    match m s with
    | (Ok a, s') => k a s'
    | (Throw t, s') => (Throw t, s')
    | (Pending, s') => (Pending, s')
    end.

Definition throw {A} (t : Thrown) : M W A := fun s => (Throw t, s).

Definition throwError {A} (msg : string) : M W A := throw (ThrownError (newError msg)).

(** [try { body } catch (e) { handler(e) }] *)
Definition tryCatch {A} (body : M W A) (handler : Thrown -> M W A) : M W A :=
  fun s =>
    match body s with
    | (Throw t, s') => handler t s'
    | r => r
    end.

(** [try { body } finally { cleanup }]: the cleanup runs when the body
    returns and when it throws; a cleanup that throws replaces the result. *)
Definition tryFinally {A} (body : M W A) (cleanup : M W unit) : M W A :=
  fun s =>
    match body s with
    | (Pending, s') => (Pending, s')
    | (r, s') =>
        match cleanup s' with
        | (Ok _, s'') => (r, s'')
        | (Throw t, s'') => (Throw t, s'')
        | (Pending, s'') => (Pending, s'')
        end
    end.

Definition record (c : Call) (s : State W) : State W :=
  mkState (world s) (trace s ++ [c]) (scrollBarWidthCache s).

Definition settle {A} (r : Reply A * W) (s : State W) : Outcome A * State W :=
  let s' := mkState (snd r) (trace s) (scrollBarWidthCache s) in
  match fst r with
  | Resolved a => (Ok a, s')
  | Rejected t => (Throw t, s')
  end.

(** One awaited driver command. *)
Definition await {A} (c : Call) (op : W -> Reply A * W) : M W A :=
  fun s => let s1 := record c s in settle (op (world s1)) s1.

End Monad.

Declare Scope browser_scope.
Delimit Scope browser_scope with browser.
Notation "x <- m ;; k" := (bind m (fun x => k))
  (at level 61, m at next level, right associativity) : browser_scope.
Notation "m ;;; k" := (bind m (fun _ => k))
  (at level 61, right associativity) : browser_scope.
Open Scope browser_scope.

(** ** Small string functions of the JavaScript library *)

Fixpoint startsWith (p s : string) : bool :=
  match p, s with
  | EmptyString, _ => true
  | String a p', String b s' => Ascii.eqb a b && startsWith p' s'
  | String _ _, EmptyString => false
  end.

(** [s.includes(p)] *)
Fixpoint includes (p s : string) : bool :=
  startsWith p s ||
  match s with
  | EmptyString => false
  | String _ s' => includes p s'
  end.

(** The first element of [s.split('.')]. *)
Fixpoint beforeDot (s : string) : string :=
  match s with
  | EmptyString => EmptyString
  | String c s' => if Ascii.eqb c "."%char then EmptyString else String c (beforeDot s')
  end.

Definition isEmpty (s : string) : bool :=
  match s with EmptyString => true | _ => false end.

(** ** Capture engine *)

Inductive IgnoreElements :=
| IgnoreUndefined
| IgnoreNull
| IgnoreString (selector : string)
| IgnoreArray (selectors : list string).

(** [Array.prototype.concat(ignoreElements)]: an array argument is spread,
    any other value becomes the single entry. *)
Definition Array_concat (ignoreElements : IgnoreElements) : list (JsOpt string) :=
  match ignoreElements with
  | IgnoreUndefined => [JUndefined]
  | IgnoreNull => [JNull]
  | IgnoreString s => [JValue s]
  | IgnoreArray l => map JValue l
  end.

(** [.filter(Boolean)]: [undefined], [null] and the empty string are falsy. *)
Fixpoint filterBoolean (l : list (JsOpt string)) : list string :=
  match l with
  | [] => []
  | JValue s :: l' => if isEmpty s then filterBoolean l' else s :: filterBoolean l'
  | _ :: l' => filterBoolean l'
  end.

(** [Array.prototype.concat(ignoreElements).filter(Boolean)] *)
Definition ignoreSelectors (ignoreElements : IgnoreElements) : list string :=
  filterBoolean (Array_concat ignoreElements).

(** The error of a script that calls a hook the page does not have. *)
Definition notAFunction (hook : string) : Thrown :=
  ThrownError {| err_name := "JavascriptError";
                 err_message := hook ++ " is not a function";
                 err_stack := "JavascriptError: " ++ hook ++ " is not a function" |}.

(** The error of reading a property of [undefined]. *)
Definition typeError (msg : string) : Thrown :=
  ThrownError {| err_name := "TypeError"; err_message := msg;
                 err_stack := "TypeError: " ++ msg |}.

(** [a || b] on numbers. *)
Definition orNumber (a b : number) : number := if Qeq_bool a 0 then b else a.

Section Engine.

Context {W : Type} {drv : WebDriver W}.

(** [browser.executeScript(f, args)]: one command; [script] is the body of
    [f] on the page. *)
Definition executeScript {A} (c : Call) (script : W -> Reply A * W) : M W A :=
  await c (fun w =>
    match wd_deliverScript w with
    | (Resolved _, w') => script w'
    | (Rejected t, w') => (Rejected t, w')
    end).

Definition getScrollBarWidth : M W number :=
  fun s =>
    match scrollBarWidthCache s with
    | Some v => (Ok v, s)
    | None =>
        (v <- executeScript CScriptScrollBarWidth (fun w => (Resolved (probe_widthDiff w), w)) ;;
         fun s' => (Ok v, mkState (world s') (trace s') (Some v))) s
    end.

Definition getCapabilities : M W Capabilities := await CGetCapabilities wd_getCapabilities.

Definition hasScrollBar : M W bool :=
  caps <- getCapabilities ;;
  let browserName := caps_browserName caps in
  caps' <- getCapabilities ;;
  let browserVersion := option_map beforeDot (caps_browserVersion caps') in
  ret (negb (browserName =? "Safari")%string
       && negb ((browserName =? "firefox")%string
                && match browserVersion with
                   | Some v => (v =? "61")%string
                   | None => false
                   end)).

Definition resolveCaptureElement : M W (option string) :=
  childrenCount <- executeScript CScriptChildCount (fun w =>
    (Resolved match document_root_childElementCount w with
              | Some n => n
              | None => 0%nat
              end, w)) ;;
  if (childrenCount =? 0)%nat then ret None
  else if (childrenCount =? 1)%nat then ret (Some "#root > *"%string)
  else ret (Some "#root"%string).

(** The two capture loops: scroll, then shoot, tile after tile. *)
Fixpoint captureTiles (targets : list (number * number)) : M W (list PNG) :=
  match targets with
  | [] => ret []
  | (x, y) :: rest =>
      executeScript (CScriptScrollTo x y) (fun w => (Resolved tt, window_scrollTo x y w)) ;;;
      screen <- await CTakeScreenshot wd_takeScreenshot ;;
      screens <- captureTiles rest ;;
      ret (screen :: screens)
  end.

Definition takeCompositeScreenshot (windowRect elementRect : ElementRect) : M W PNG :=
  withScrollBar <- hasScrollBar ;;
  let isScreenshotWithoutScrollBar := negb withScrollBar in
  scrollBarWidth <- getScrollBarWidth ;;
  screens <- captureTiles (scrollTargets scrollBarWidth windowRect elementRect) ;;
  match compositeImage scrollBarWidth windowRect elementRect
                       isScreenshotWithoutScrollBar screens with
  | Some png => ret png
  | None => throw (typeError "Cannot read properties of undefined (reading 'data')")
  end.

Definition insertIgnoreStyles (ignoreElements : IgnoreElements) : M W (option WebElement) :=
  let selectors := ignoreSelectors ignoreElements in
  if (List.length selectors =? 0)%nat then ret None
  else
    ignoreStyles <- executeScript (CScriptInsertIgnoreStyles selectors) (fun w =>
      match window_CREEVEY_INSERT_IGNORE_STYLES w with
      | Some hook => hook selectors w
      | None => (Rejected (notAFunction "window.__CREEVEY_INSERT_IGNORE_STYLES__"), w)
      end) ;;
    ret (Some ignoreStyles).

Definition removeIgnoreStyles (ignoreStyles : option WebElement) : M W unit :=
  match ignoreStyles with
  | Some h =>
      executeScript (CScriptRemoveIgnoreStyles h) (fun w =>
        match window_CREEVEY_REMOVE_IGNORE_STYLES w with
        | Some hook => hook h w
        | None => (Rejected (notAFunction "window.__CREEVEY_REMOVE_IGNORE_STYLES__"), w)
        end)
  | None => ret tt
  end.

(** The script of [takeScreenshot] that measures the element and the window;
    [None] is its [undefined], returned when no element matches. *)
Definition measureScript (selector : string) (w : W)
  : Reply (option (ElementRect * ElementRect)) * W :=
  let w := window_scrollTo 0 0 w in
  match document_querySelector selector w with
  | None => (Resolved None, w)
  | Some elementRect =>
      (Resolved (Some (elementRect,
         {| top := inject_Z (Math_round (orNumber (window_scrollY w) (window_pageYOffset w)));
            left := inject_Z (Math_round (orNumber (window_scrollX w) (window_pageXOffset w)));
            width := window_innerWidth w;
            height := window_innerHeight w |})), w)
  end.

Definition elementNotFound (captureElement : string) : Thrown :=
  ThrownError (newError ("Couldn't find element with selector: '" ++ captureElement ++ "'")).

Definition isFitIntoViewport (elementRect windowRect : ElementRect) : bool :=
  leb (width elementRect + left elementRect) (width windowRect)
  && leb (height elementRect + top elementRect) (height windowRect).

(** The body of the [try] block of [takeScreenshot]. *)
Definition capture (captureElement : JsOpt string) : M W PNG :=
  match captureElement with
  | JValue selector =>
      if isEmpty selector then await CTakeScreenshot wd_takeScreenshot
      else
        rects <- executeScript (CScriptMeasure selector) (measureScript selector) ;;
        match rects with
        | None => throw (elementNotFound selector)
        | Some (elementRect, windowRect) =>
            if isFitIntoViewport elementRect windowRect
            then await (CElementScreenshot selector) (wd_elementScreenshot selector)
            else takeCompositeScreenshot windowRect elementRect
        end
  | _ => await CTakeScreenshot wd_takeScreenshot
  end.

Definition takeScreenshot (captureElement : JsOpt string) (ignoreElements : IgnoreElements)
  : M W PNG :=
  ignoreStyles <- insertIgnoreStyles ignoreElements ;;
  tryFinally (capture captureElement) (removeIgnoreStyles ignoreStyles).

End Engine.

(** ** Story switcher *)

Definition SELECT_STORY_MISSING : string :=
  "Creevey can't switch story. This may happened if forget to add `creevey` addon to your storybook config, or storybook not loaded in browser due syntax error.".

Record CreeveyStoryParams := mkParams {
  param_captureElement : JsOpt string;
  param_waitForReady : option bool;
  param_ignoreElements : IgnoreElements
}.

(** A story with its [parameters.creevey] ([None] when it has none). *)
Record StoryInput := mkStory {
  input_id : StoryId;
  input_creevey : option CreeveyStoryParams
}.

(** A mocha test: its title followed by the titles of the suites around it,
    innermost first, and the story its context holds. *)
Record Test := mkTest {
  test_titles : list string;
  test_story : option StoryInput
}.

(** The mocha context [this] of [switchStory]. *)
Record Context := mkContext {
  ctx_browserName : string;
  ctx_currentTest : option Test;
  ctx_testScope : list string;
  (* the selector behind the [captureElement] property, when it is defined *)
  ctx_captureElement : option string;
  (* the arguments the [takeScreenshot] closure holds *)
  ctx_takeScreenshot : option (JsOpt string * IgnoreElements)
}.

Fixpoint titlesWhileTruthy (titles : list string) : list string :=
  match titles with
  | [] => []
  | t :: rest => if isEmpty t then [] else t :: titlesWhileTruthy rest
  end.

Section Switcher.

Context {W : Type} {drv : WebDriver W}.

Definition selectStory (story : StoryId) (waitForReady : bool) : M W unit :=
  errorMessage <- executeScript (CScriptSelectStory story waitForReady) (fun w =>
    match window_CREEVEY_SELECT_STORY w with
    | None => (Resolved (Some SELECT_STORY_MISSING), w)
    | Some hook => hook story waitForReady w
    end) ;;
  match errorMessage with
  | Some msg => if isEmpty msg then ret tt else throwError msg
  | None => ret tt
  end.

Definition optEqb (v : option string) (s : string) : bool :=
  match v with
  | Some x => (x =? s)%string
  | None => false
  end.

Definition resetMousePosition : M W unit :=
  caps <- getCapabilities ;;
  let browserName := caps_browserName caps in
  caps1 <- getCapabilities ;;
  browserVersion <-
    match caps_browserVersion caps1 with
    | Some v => ret (Some (beforeDot v))
    | None => caps2 <- getCapabilities ;; ret (option_map beforeDot (caps_version caps2))
    end ;;
  if (browserName =? "chrome")%string && optEqb browserVersion "70" then
    bodyRect <- executeScript CScriptBodyRect (fun w => (Resolved (document_body_rect w), w)) ;;
    let x := inject_Z (Math_ceil (-1 * width bodyRect / 2)) - left bodyRect in
    let y := inject_Z (Math_ceil (-1 * height bodyRect / 2)) - top bodyRect in
    await (CMoveMouse OriginBody x y) (wd_moveMouse OriginBody x y)
  else if (browserName =? "firefox")%string && optEqb browserVersion "61" then
    await (CMoveMouse OriginViewport 0 1) (wd_moveMouse OriginViewport 0 1)
  else
    await (CMoveMouse OriginViewport 0 0) (wd_moveMouse OriginViewport 0 0).

Definition emptyParams : CreeveyStoryParams :=
  mkParams JUndefined None IgnoreUndefined.

(** [parameters.creevey ?? {}] *)
Definition creeveyParamsOf (story : StoryInput) : CreeveyStoryParams :=
  match input_creevey story with
  | Some p => p
  | None => emptyParams
  end.

(** [waitForReady], with the default [false] of [selectStory]. *)
Definition waitForReadyOf (story : StoryInput) : bool :=
  match param_waitForReady (creeveyParamsOf story) with
  | Some b => b
  | None => false
  end.

(** A resolved capture target as the value of the [captureElement] constant. *)
Definition ofResolved (r : option string) : JsOpt string :=
  match r with
  | Some selector => JValue selector
  | None => JNull
  end.

Definition switchStory (this : Context) : M W Context :=
  match ctx_currentTest this with
  | None => throwError "Can't switch story, because test context doesn't have 'currentTest' field"
  | Some currentTest =>
      let testScope := ctx_browserName this :: titlesWhileTruthy (test_titles currentTest) in
      match test_story currentTest with
      | None =>
          throwError ("Current test '" ++ String.concat "/" testScope
                      ++ "' context doesn't have 'story' field")
      | Some story =>
          let creeveyParams := creeveyParamsOf story in
          let waitForReady := waitForReadyOf story in
          let ignoreElements := param_ignoreElements creeveyParams in
          resetMousePosition ;;;
          selectStory (input_id story) waitForReady ;;;
          captureElement <-
            match param_captureElement creeveyParams with
            | JUndefined => r <- resolveCaptureElement ;; ret (ofResolved r)
            | pinned => ret pinned
            end ;;
          ret {| ctx_browserName := ctx_browserName this;
                 ctx_currentTest := ctx_currentTest this;
                 ctx_testScope := rev testScope;
                 ctx_captureElement :=
                   match captureElement with
                   | JValue selector => if isEmpty selector then None else Some selector
                   | _ => None
                   end;
                 ctx_takeScreenshot := Some (captureElement, ignoreElements) |}
      end
  end.

(** Calling the [takeScreenshot] closure that [switchStory] installed. *)
Definition Context_takeScreenshot (this : Context) : M W PNG :=
  match ctx_takeScreenshot this with
  | Some (captureElement, ignoreElements) => takeScreenshot captureElement ignoreElements
  | None => throw (typeError "this.takeScreenshot is not a function")
  end.

End Switcher.

(** ** Session manager *)

Definition DOCKER_INTERNAL : string := "host.docker.internal".

Definition doubleQuote : string := String "034"%char EmptyString.

(** The text [<div id="root"></div>]. *)
Definition ROOT_DIV : string :=
  "<div id=" ++ doubleQuote ++ "root" ++ doubleQuote ++ "></div>".

Fixpoint stripPrefix (p s : string) : option string :=
  match p, s with
  | EmptyString, _ => Some s
  | String a p', String b s' => if Ascii.eqb a b then stripPrefix p' s' else None
  | String _ _, EmptyString => None
  end.

(** After [<body]: the rest of [([^>]*>).+<\/body>], where [.] is any
    character (flag [s]). *)
Fixpoint bodyTail (s : string) : bool :=
  match s with
  | EmptyString => false
  | String c s' =>
      if Ascii.eqb c ">"%char then
        match s' with
        | EmptyString => false
        | String _ s'' => includes "</body>" s''
        end
      else bodyTail s'
  end.

(** [/<body([^>]*>).+<\/body>/s.test(source)] *)
Fixpoint bodyRegexp (source : string) : bool :=
  match stripPrefix "<body" source with
  | Some rest => bodyTail rest
  | None => false
  end
  || match source with
     | EmptyString => false
     | String _ source' => bodyRegexp source'
     end.

(** [url.replace(/\/$/, '')] *)
Fixpoint stripTrailingSlash (url : string) : string :=
  match url with
  | EmptyString => EmptyString
  | String c EmptyString => if Ascii.eqb c "/"%char then EmptyString else url
  | String c rest => String c (stripTrailingSlash rest)
  end.

Definition appendIframePath (url : string) : string :=
  stripTrailingSlash url ++ "/iframe.html".

(** One entry of [os.networkInterfaces()]. *)
Record NetworkInterfaceInfo := mkInfo { family : string; address : string }.

(** [new Error(msg)] with its [name] set to [ResolveUrlError] afterwards;
    the stack was written by the constructor, under the name [Error]. *)
Definition RESOLVE_URL_ERROR : JsError :=
  {| err_name := "ResolveUrlError";
     err_message := "Please specify `storybookUrl` with IP address that accessible from remote browser";
     err_stack := "Error: Please specify `storybookUrl` with IP address that accessible from remote browser" |}.

(** [Object.values(networkInterfaces()).filter(isDefined)], each network
    reduced to the addresses of its IPv4 entries. *)
Fixpoint ipv4Addresses (networks : list (option (list NetworkInterfaceInfo))) : list string :=
  match networks with
  | [] => []
  | Some network :: rest =>
      map address (filter (fun info => (family info =? "IPv4")%string) network)
      ++ ipv4Addresses rest
  | None :: rest => ipv4Addresses rest
  end.

Record Viewport := mkViewport { vp_width : number; vp_height : number }.

Record Locals := mkLocals { browser : option Session; shuttingDown : bool }.

Section Session.

Context {W : Type} {drv : WebDriver W}.

(** [LOCALHOST_REGEXP] is defined in [../utils]: its two uses are taken as
    given, [replaceLocalhost url ip] for [url.replace(LOCALHOST_REGEXP, ip)]
    and [testLocalhost url] for [LOCALHOST_REGEXP.test(url)]. *)
Variable replaceLocalhost : string -> string -> string.
Variable testLocalhost : string -> bool.

(** [isStorybookVersionLessThan(6)], from [../storybook/helpers]. *)
Variable storybookVersionLessThan6 : bool.

(** [os.networkInterfaces()], in the order [Object.values] enumerates it. *)
Variable networkInterfaces : list (option (list NetworkInterfaceInfo)).

Definition pending {A} : M W A := fun s => (Pending, s).

(** The [do ... while (predicate(source))] loop, observed for [fuel] turns. *)
Fixpoint pollPageSource (fuel : nat) (predicate : string -> bool) (source : string)
  : M W string :=
  match fuel with
  | O => pending
  | S fuel' =>
      source' <- tryCatch (await CGetPageSource wd_getPageSource) (fun _ => ret source) ;;
      if predicate source' then pollPageSource fuel' predicate source' else ret source'
  end.

Definition openUrlAndWaitForPageSource (fuel : nat) (url : string)
  (predicate : string -> bool) : M W string :=
  await (CGet url) (wd_get url) ;;;
  pollPageSource fuel predicate EmptyString.

Definition getUrlChecker (fuel : nat) (url : string) : M W bool :=
  tryCatch
    (openUrlAndWaitForPageSource fuel "about:blank"
       (fun source => negb (includes "<body></body>" source)) ;;;
     source <- openUrlAndWaitForPageSource fuel url
       (fun source => (String.length source =? 0)%nat || negb (bodyRegexp source)) ;;
     ret (includes ROOT_DIV source))
    (fun _ => ret false).

Definition addresses : list string := DOCKER_INTERNAL :: ipv4Addresses networkInterfaces.

Fixpoint tryAddresses (storybookUrl : string) (checkUrl : string -> M W bool)
  (ips : list string) : M W string :=
  match ips with
  | [] => throw (ThrownError RESOLVE_URL_ERROR)
  | ip :: rest =>
      let resolvedUrl := replaceLocalhost storybookUrl ip in
      ok <- checkUrl resolvedUrl ;;
      if ok then ret resolvedUrl else tryAddresses storybookUrl checkUrl rest
  end.

Definition resolveStorybookUrl (storybookUrl : string) (checkUrl : string -> M W bool)
  : M W string :=
  tryAddresses storybookUrl checkUrl addresses.

Definition waitForStorybook : M W unit :=
  executeScript CScriptWaitForStorybook document_waitComplete.

Definition resizeViewport (viewport : Viewport) : M W unit :=
  windowRect <- await CGetWindowRect wd_getWindowRect ;;
  inner <- executeScript CScriptInnerSize (fun w =>
    (Resolved (window_innerWidth w, window_innerHeight w), w)) ;;
  let dWidth := outerWidth windowRect - fst inner in
  let dHeight := outerHeight windowRect - snd inner in
  let rect := mkWindowRect (vp_width viewport + dWidth) (vp_height viewport + dHeight) in
  await (CSetWindowRect rect) (wd_setWindowRect rect).

Definition updateStorybookGlobals (globals : string) : M W unit :=
  if storybookVersionLessThan6 then ret tt
  else
    executeScript (CScriptUpdateGlobals globals) (fun w =>
      match window_CREEVEY_UPDATE_GLOBALS w with
      | Some hook => hook globals w
      | None => (Rejected (notAFunction "window.__CREEVEY_UPDATE_GLOBALS__"), w)
      end).

Definition openStorybookPage (fuel : nat) (storybookUrl : string)
  (resolver : option (M W string)) : M W unit :=
  if negb (testLocalhost storybookUrl) then
    await (CGet (appendIframePath storybookUrl)) (wd_get (appendIframePath storybookUrl))
  else
    tryCatch
      match resolver with
      | Some resolve =>
          url <- resolve ;;
          await (CGet (appendIframePath url)) (wd_get (appendIframePath url))
      | None =>
          resolveStorybookUrl (appendIframePath storybookUrl) (getUrlChecker fuel) ;;; ret tt
      end
      (fun error => throw error).

(** *** [getBrowser] *)

Record Config := mkConfig {
  config_gridUrl : string;
  config_storybookUrl : string;
  config_resolveStorybookUrl : option (M W string)
}.

Record BrowserConfig := mkBrowserConfig {
  bc_gridUrl : option string;
  bc_storybookUrl : option string;
  bc_viewport : option Viewport;
  bc_storybookGlobals : option string
}.

(** The outcome of a part of [getBrowser], with its local variables. *)
Definition Step (A : Type) : Type := Locals -> State W -> Outcome A * Locals * State W.

(** [browser?.quit().catch(noop)]: sent when there is a session, never
    awaited and never failing. *)
Definition quitBrowser (l : Locals) (s : State W) : State W :=
  match browser l with
  | Some _ => mkState (wd_quit (world s)) (trace s ++ [CQuit]) (scrollBarWidthCache s)
  | None => s
  end.

(** The listener that [getBrowser] subscribes on ['shutdown']. *)
Definition onShutdown (l : Locals) (s : State W) : Locals * State W :=
  (mkLocals None true, quitBrowser l s).

(** An awaited part of [getBrowser]: when the shutdown message arrives while
    it is pending, the listener has run by the time the part settles. *)
Definition awaitStep {A} (m : M W A) : Step A :=
  fun l s =>
    let (r, s') := m s in
    if shutdownRequested (world s') && negb (shuttingDown l)
    then let (l', s'') := onShutdown l s' in (r, l', s'')
    else (r, l, s').

(** Modelled from the spec: [runSequence] of [../utils], which is not in the
    sources at hand.  The steps run in order and the flag is checked
    between steps: a step is started only while the predicate holds. *)
Fixpoint runSequence (seq : list (Locals -> M W unit)) (predicate : Locals -> bool) : Step unit :=
  fun l s =>
    match seq with
    | [] => (Ok tt, l, s)
    | fn :: rest =>
        if predicate l then
          match awaitStep (fn l) l s with
          | (Ok _, l', s') => runSequence rest predicate l' s'
          | r => r
          end
        else runSequence rest predicate l s
    end.

Section GetBrowser.

Variable fuel : nat.
Variable config : Config.
Variable browserConfig : BrowserConfig.

Definition gridUrl : string :=
  match bc_gridUrl browserConfig with
  | Some u => u
  | None => config_gridUrl config
  end.

Definition realAddress : string :=
  match bc_storybookUrl browserConfig with
  | Some u => u
  | None => config_storybookUrl config
  end.

(** A step of the sequence that needs the session does nothing without one. *)
Definition withBrowser (l : Locals) (m : M W unit) : M W unit :=
  match browser l with
  | Some _ => m
  | None => ret tt
  end.

(** The body of the [try] block. *)
Definition getBrowser_try : Step unit :=
  fun l s =>
    match awaitStep (await (CBuild gridUrl) (wd_build gridUrl)) l s with
    | (Ok b, l', s') =>
        runSequence
          [ (fun l => withBrowser l (await CSetTimeouts wd_setTimeouts));
            (fun l => match bc_viewport browserConfig with
                      | Some viewport => withBrowser l (resizeViewport viewport)
                      | None => ret tt
                      end);
            (fun l => withBrowser l
                        (openStorybookPage fuel realAddress (config_resolveStorybookUrl config)));
            (fun l => withBrowser l waitForStorybook) ]
          (fun l => negb (shuttingDown l))
          (mkLocals (Some b) (shuttingDown l')) s'
    | (Throw t, l', s') => (Throw t, l', s')
    | (Pending, l', s') => (Pending, l', s')
    end.

Definition isResolveUrlError (originalError : Thrown) : bool :=
  match originalError with
  | ThrownError e => (err_name e =? "ResolveUrlError")%string
  | ThrownValue _ => false
  end.

(** The error the [catch] block builds around the last known URL. *)
Definition loadError (url : string) (originalError : Thrown) : Thrown :=
  let error := newError ("Can't load storybook root page by URL " ++ url) in
  match originalError with
  | ThrownError e =>
      ThrownError {| err_name := err_name error; err_message := err_message error;
                     err_stack := err_stack e |}
  | ThrownValue _ => ThrownError error
  end.

(** The [catch] block. *)
Definition getBrowser_catch (originalError : Thrown) (l : Locals) : M W (option Session) :=
  if shuttingDown l then
    fun s => (Ok None, quitBrowser l s)
  else if isResolveUrlError originalError then throw originalError
  else
    url <- match browser l with
           | Some _ => await CGetCurrentUrl wd_getCurrentUrl
           | None => ret realAddress
           end ;;
    throw (loadError url originalError).

Definition getBrowser : M W (option Session) :=
  fun s =>
    match getBrowser_try (mkLocals None false) s with
    | (Throw originalError, l, s') => getBrowser_catch originalError l s'
    | (Pending, l, s') => (Pending, s')
    | (Ok _, l, s') =>
        match bc_storybookGlobals browserConfig with
        | Some globals =>
            match browser l with
            | Some _ =>
                match awaitStep (updateStorybookGlobals globals) l s' with
                | (Ok _, l', s'') => (Ok (browser l'), s'')
                | (Throw t, _, s'') => (Throw t, s'')
                | (Pending, _, s'') => (Pending, s'')
                end
            | None =>
                if storybookVersionLessThan6 then (Ok None, s')
                else (Throw (typeError "Cannot read properties of null (reading 'executeScript')"), s')
            end
        | None => (Ok (browser l), s')
        end
    end.

End GetBrowser.

End Session.

(** ** Sample geometry *)

(** A viewport of 800 by 600 whose scroll position is the origin. *)
Definition viewport800x600 : ElementRect := mkRect 0 0 800 600.

(** An element of 1600 by 600 at the origin of the viewport. *)
Definition element1600x600 : ElementRect := mkRect 0 0 1600 600.

(** An element of 1000.5 by 100 that starts 50 pixels left of the viewport. *)
Definition elementLeftOfViewport : ElementRect := mkRect 0 (-50) (2001 # 2) 100.

(** An element of 1600 by 585 behind the default body margin of 8 pixels. *)
Definition element1600x585 : ElementRect := mkRect 8 8 1600 585.

(** An element of two tiles by two tiles (tiles of 785 by 585) that overflows
    the viewport on both axes. *)
Definition element1570x1170 : ElementRect := mkRect 8 8 1570 1170.

(** An element of 2000 by 1500 that overflows the viewport on both axes. *)
Definition element2000x1500 : ElementRect := mkRect 8 8 2000 1500.

(** ** A small browser

    A concrete instance of the interface, used to run the functions above on
    sample pages. *)

Record Toy := mkToy {
  (* the session answers; when it does not, every command rejects *)
  toy_online : bool;
  (* the hooks of the creevey addon are on the page *)
  toy_addon : bool;
  toy_url : string;
  (* page sources read since the last navigation *)
  toy_reads : nat;
  (* the addresses that serve the storybook *)
  toy_storybookAt : list string;
  toy_elements : list (string * ElementRect);
  toy_rootChildren : option nat;
  (* ignore-style elements now in the page *)
  toy_styles : list WebElement;
  toy_scroll : number * number;
  toy_capabilities : Capabilities;
  toy_shutdown : bool
}.

Definition disconnected : Thrown :=
  ThrownError {| err_name := "WebDriverError"; err_message := "session deleted";
                 err_stack := "WebDriverError: session deleted" |}.

Definition noSuchElement : Thrown :=
  ThrownError {| err_name := "NoSuchElementError"; err_message := "no such element";
                 err_stack := "NoSuchElementError: no such element" |}.

Definition toyReply {A : Type} (t : Toy) (a : A) (t' : Toy) : Reply A * Toy :=
  if toy_online t then (Resolved a, t') else (Rejected disconnected, t).

Definition toyNavigate (url : string) (t : Toy) : Toy :=
  mkToy (toy_online t) (toy_addon t) url 0 (toy_storybookAt t) (toy_elements t)
        (toy_rootChildren t) (toy_styles t) (toy_scroll t) (toy_capabilities t)
        (toy_shutdown t).

Definition toyRead (t : Toy) : Toy :=
  mkToy (toy_online t) (toy_addon t) (toy_url t) (S (toy_reads t)) (toy_storybookAt t)
        (toy_elements t) (toy_rootChildren t) (toy_styles t) (toy_scroll t)
        (toy_capabilities t) (toy_shutdown t).

Definition toyScroll (x y : number) (t : Toy) : Toy :=
  mkToy (toy_online t) (toy_addon t) (toy_url t) (toy_reads t) (toy_storybookAt t)
        (toy_elements t) (toy_rootChildren t) (toy_styles t) (x, y)
        (toy_capabilities t) (toy_shutdown t).

Definition toySetStyles (styles : list WebElement) (t : Toy) : Toy :=
  mkToy (toy_online t) (toy_addon t) (toy_url t) (toy_reads t) (toy_storybookAt t)
        (toy_elements t) (toy_rootChildren t) styles (toy_scroll t)
        (toy_capabilities t) (toy_shutdown t).

Definition toyQuit (t : Toy) : Toy :=
  mkToy false (toy_addon t) (toy_url t) (toy_reads t) (toy_storybookAt t)
        (toy_elements t) (toy_rootChildren t) (toy_styles t) (toy_scroll t)
        (toy_capabilities t) (toy_shutdown t).

Fixpoint lookupRect (selector : string) (l : list (string * ElementRect)) : option ElementRect :=
  match l with
  | [] => None
  | (k, r) :: l' => if (k =? selector)%string then Some r else lookupRect selector l'
  end.

(** The first read after a navigation sees an empty document. *)
Definition toySource (t : Toy) : string :=
  match toy_reads t with
  | O => EmptyString
  | S _ =>
      if (toy_url t =? "about:blank")%string
      then "<html><head></head><body></body></html>"
      else if existsb (String.eqb (toy_url t)) (toy_storybookAt t)
      then "<html><head></head><body>" ++ ROOT_DIV ++ "</body></html>"
      else "<html><head></head><body><h1>This site can not be reached</h1></body></html>"
  end.

Definition onePixel : PNG := mkPNG 1 1 [0; 0; 0; 255]%Z.

#[export] Instance ToyDriver : WebDriver Toy := {|
  wd_build := fun _ t => toyReply t "session-1"%string t;
  wd_setTimeouts := fun t => toyReply t tt t;
  wd_get := fun url t => toyReply t tt (toyNavigate url t);
  wd_getPageSource := fun t => toyReply t (toySource t) (toyRead t);
  wd_getCurrentUrl := fun t => toyReply t (toy_url t) t;
  wd_getCapabilities := fun t => (Resolved (toy_capabilities t), t);
  wd_takeScreenshot := fun t => toyReply t onePixel t;
  wd_elementScreenshot := fun selector t =>
    match lookupRect selector (toy_elements t) with
    | Some _ => toyReply t onePixel t
    | None => (Rejected noSuchElement, t)
    end;
  wd_getWindowRect := fun t => toyReply t (mkWindowRect 816 739) t;
  wd_setWindowRect := fun _ t => toyReply t tt t;
  wd_moveMouse := fun _ _ _ t => toyReply t tt t;
  wd_quit := toyQuit;
  wd_deliverScript := fun t => toyReply t tt t;
  window_scrollTo := toyScroll;
  window_scrollX := fun t => fst (toy_scroll t);
  window_scrollY := fun t => snd (toy_scroll t);
  window_pageXOffset := fun t => fst (toy_scroll t);
  window_pageYOffset := fun t => snd (toy_scroll t);
  window_innerWidth := fun _ => 800;
  window_innerHeight := fun _ => 600;
  document_querySelector := fun selector t => lookupRect selector (toy_elements t);
  document_body_rect := fun _ => mkRect 0 0 800 600;
  document_root_childElementCount := toy_rootChildren;
  probe_widthDiff := fun _ => 15;
  document_waitComplete := fun t => (Resolved tt, t);
  window_CREEVEY_SELECT_STORY := fun t =>
    if toy_addon t then Some (fun _ _ t' => (Resolved None, t')) else None;
  window_CREEVEY_UPDATE_GLOBALS := fun t =>
    if toy_addon t then Some (fun _ t' => (Resolved tt, t')) else None;
  window_CREEVEY_INSERT_IGNORE_STYLES := fun t =>
    if toy_addon t
    then Some (fun _ t' => (Resolved "style-1"%string,
                            toySetStyles ("style-1"%string :: toy_styles t') t'))
    else None;
  window_CREEVEY_REMOVE_IGNORE_STYLES := fun t =>
    if toy_addon t
    then Some (fun h t' =>
           (Resolved tt,
            toySetStyles (filter (fun x => negb (x =? h)%string) (toy_styles t')) t'))
    else None;
  shutdownRequested := toy_shutdown
|}.

Definition chrome : Capabilities := mkCaps "chrome" (Some "96.0.4664.45"%string) None.

(** A page with the addon, one child under the root, and three elements. *)
Definition toyPage : Toy :=
  mkToy true true "http://192.168.1.5:6006/iframe.html" 1
        ["http://192.168.1.5:6006/iframe.html"%string]
        [("#root"%string, mkRect 8 8 784 400);
         ("#root > *"%string, mkRect 8 8 400 300);
         (".wide"%string, element1600x600)]
        (Some 1%nat) [] (0, 0) chrome false.

(** The same page without the hooks of the addon. *)
Definition toyPageWithoutAddon : Toy :=
  mkToy true false (toy_url toyPage) 1 (toy_storybookAt toyPage) (toy_elements toyPage)
        (Some 1%nat) [] (0, 0) chrome false.

Definition safari : Capabilities := mkCaps "Safari" (Some "13.1"%string) None.

(** The sample page in a browser whose screenshots leave the scrollbars out. *)
Definition toySafariPage : Toy :=
  mkToy true true (toy_url toyPage) 1 (toy_storybookAt toyPage) (toy_elements toyPage)
        (Some 1%nat) [] (0, 0) safari false.

Definition start {W : Type} (w : W) : State W := mkState w [] None.

(** ** The TeamCity reporter: [escape]

    A JavaScript string is the list of its UTF-16 code units. *)

Definition CodeUnits := list N.

(** What [.] matches in a regular expression without the [s] flag: any code
    unit but the line terminators [\n], [\r], [\u2028] and [\u2029]. *)
Definition matchesDot (c : N) : bool :=
  negb ((c =? 10)%N || (c =? 13)%N || (c =? 8232)%N || (c =? 8233)%N).

(** Whether [.*?m] matches at the start of [s]. *)
Fixpoint lazyUntilM (s : CodeUnits) : bool :=
  match s with
  | [] => false
  | c :: rest => (c =? 109)%N || (matchesDot c && lazyUntilM rest)
  end.

(** [str.replace(/\x1B.*?m/g, '')]: from an escape character on, the
    shortest run that ends with an [m] on the same line is removed;
    [inside] tells that such a run is being skipped. *)
Fixpoint removeColors (inside : bool) (s : CodeUnits) : CodeUnits :=
  match s with
  | [] => []
  | c :: rest =>
      if inside then
        if (c =? 109)%N then removeColors false rest else removeColors true rest
      else if (c =? 27)%N && lazyUntilM rest then removeColors true rest
      else c :: removeColors false rest
  end.

(** [s.replace(/c/g, replacement)] for a pattern of one code unit. *)
Definition replaceAll (c : N) (replacement : CodeUnits) (s : CodeUnits) : CodeUnits :=
  flat_map (fun d => if (d =? c)%N then replacement else [d]) s.

(** The nine replacements of [escape], in the order of the source: the bar
    first, then [\n], [\r], the brackets, [\u0085], [\u2028], [\u2029] and
    the quote. *)
Definition escapePasses (s : CodeUnits) : CodeUnits :=
  (replaceAll 39 [124; 39]
    (replaceAll 8233 [124; 112]
      (replaceAll 8232 [124; 108]
        (replaceAll 133 [124; 120]
          (replaceAll 93 [124; 93]
            (replaceAll 91 [124; 91]
              (replaceAll 13 [124; 114]
                (replaceAll 10 [124; 110]
                  (replaceAll 124 [124; 124] s)))))))))%N.

Definition escape (str : CodeUnits) : CodeUnits :=
  match str with
  | [] => []
  | _ => escapePasses (removeColors false str)
  end.

(** The escape of one code unit in TeamCity's service messages. *)
Definition escapeUnit (c : N) : CodeUnits :=
  (if c =? 124 then [124; 124]
   else if c =? 10 then [124; 110]
   else if c =? 13 then [124; 114]
   else if c =? 91 then [124; 91]
   else if c =? 93 then [124; 93]
   else if c =? 133 then [124; 120]
   else if c =? 8232 then [124; 108]
   else if c =? 8233 then [124; 112]
   else if c =? 39 then [124; 39]
   else [c])%N.

(** The code units that a service message may not hold unescaped. *)
Definition needsEscape (c : N) : bool :=
  ((c =? 124) || (c =? 10) || (c =? 13) || (c =? 91) || (c =? 93)
   || (c =? 133) || (c =? 8232) || (c =? 8233) || (c =? 39))%N.

(** The code units that may follow a bar. *)
Definition isEscapeLetter (c : N) : bool :=
  ((c =? 124) || (c =? 110) || (c =? 114) || (c =? 91) || (c =? 93)
   || (c =? 120) || (c =? 108) || (c =? 112) || (c =? 39))%N.

(** A text is well escaped when it reads as a sequence of plain code units
    and of bars each followed by an escape letter. *)
Fixpoint wellEscaped (s : CodeUnits) : bool :=
  match s with
  | [] => true
  | c :: rest =>
      if (c =? 124)%N then
        match rest with
        | [] => false
        | d :: rest' => isEscapeLetter d && wellEscaped rest'
        end
      else negb (needsEscape c) && wellEscaped rest
  end.

(** The code units of an ASCII text. *)
Fixpoint unitsOf (s : string) : CodeUnits :=
  match s with
  | EmptyString => []
  | String c rest => N_of_ascii c :: unitsOf rest
  end.

(** What TeamCity reads back: the code unit that a bar and the letter [d]
    stand for, and the text that an escaped text stands for. *)
Definition unescapeLetter (d : N) : N :=
  (if d =? 110 then 10
   else if d =? 114 then 13
   else if d =? 120 then 133
   else if d =? 108 then 8232
   else if d =? 112 then 8233
   else d)%N.

Fixpoint unescape (s : CodeUnits) : CodeUnits :=
  match s with
  | [] => []
  | c :: rest =>
      if (c =? 124)%N then
        match rest with
        | [] => [c]
        | d :: rest' => unescapeLetter d :: unescape rest'
        end
      else c :: unescape rest
  end.

(** ** The server entry point: the exit code of a run *)

Section ExitCode.

(** A test of [runner.status.tests].  Its type is declared in [../../types];
    the entry point reads two of its fields: [skip], as a condition, and
    [status]. *)
Variable TestData : Type.
Variable skip : TestData -> bool.
Variable status : TestData -> option string.

(** [tests.filter(isDefined)] *)
Fixpoint filterDefined (tests : list (option TestData)) : list TestData :=
  match tests with
  | [] => []
  | Some test :: rest => test :: filterDefined rest
  | None :: rest => filterDefined rest
  end.

(** The [isSuccess] of the ['stop'] handler. *)
Definition isSuccess (tests : list (option TestData)) : bool :=
  forallb (fun test => optEqb (status test) "success")
          (filter (fun test => negb (skip test)) (filterDefined tests)).

Definition exitCode (tests : list (option TestData)) : Z :=
  if isSuccess tests then 0%Z else (-1)%Z.

(** The test made before the run starts: no test is left to run. *)
Definition nothingToRun (tests : list (option TestData)) : bool :=
  (List.length
     (filter (fun test => match test with
                          | Some t => negb (skip t)
                          | None => false
                          end) tests) =? 0)%nat.

End ExitCode.

(** ** The server entry point: listing a directory *)

(** What [readdirSync] with [withFileTypes] finds in a directory, each
    subdirectory with what it holds in turn. *)
#[warnings="-register-all"]
Inductive Dirent :=
| FileEntry (name : string)
| DirectoryEntry (name : string) (entries : list Dirent).

(** The paths below one entry of the directory [dirPath]. *)
Fixpoint readDirent (dirPath : string) (dirent : Dirent) : list string :=
  match dirent with
  | FileEntry name => [(dirPath ++ "/" ++ name)%string]
  | DirectoryEntry name entries =>
      flat_map (readDirent (dirPath ++ "/" ++ name)%string) entries
  end.

(** [readDirRecursive(dirPath)], for the entries of [dirPath]. *)
Definition readDirRecursive (dirPath : string) (entries : list Dirent) : list string :=
  flat_map (readDirent dirPath) entries.

(** The number of files in and below an entry. *)
Fixpoint countFiles (dirent : Dirent) : nat :=
  match dirent with
  | FileEntry _ => 1%nat
  | DirectoryEntry _ entries => list_sum (map countFiles entries)
  end.

(** A directory of screenshots: two stories of a kind, and a stray file. *)
Definition sampleImages : list Dirent :=
  [ DirectoryEntry "Button"
      [ DirectoryEntry "Primary" [FileEntry "chrome.png"; FileEntry "firefox.png"];
        DirectoryEntry "Disabled" [] ];
    FileEntry "notes.txt" ].

(** * Vocabulary of the statements *)

(** ** Which point of the page a pixel of the composite shows *)

Section PagePoints.

Variable scrollBarWidth : number.
Variables windowRect elementRect : ElementRect.
Variable isScreenshotWithoutScrollBar : bool.

(** The pixel of its tile that [sourceIndex] addresses (four channels a
    pixel), and its row and column when a row of the tile holds
    [viewportWidth + scrollOffset] pixels. *)
Definition sourcePixel (x y : Z) : number :=
  sourceIndex scrollBarWidth windowRect elementRect isScreenshotWithoutScrollBar x y / 4.

Definition tileStride : number :=
  viewportWidth scrollBarWidth windowRect elementRect
  + scrollOffset scrollBarWidth windowRect elementRect isScreenshotWithoutScrollBar.

Definition sourceRow (x y : Z) : Z := Math_floor (sourcePixel x y / tileStride).

Definition sourceColumn (x y : Z) : number :=
  sourcePixel x y - inject_Z (sourceRow x y) * tileStride.

(** A tile is shot with the window scrolled to its scroll target, so its
    pixel [(u, v)] shows the point [(dx + u, dy + v)] of the page. *)
Definition shownX (x y : Z) : number :=
  dx scrollBarWidth windowRect elementRect
     (pixelCol scrollBarWidth windowRect elementRect x)
  + sourceColumn x y.

Definition shownY (x y : Z) : number :=
  dy scrollBarWidth windowRect elementRect
     (pixelRow scrollBarWidth windowRect elementRect y)
  + inject_Z (sourceRow x y).

(** The point of the page where the pixel [(x, y)] of the element lies. *)
Definition elementX (x : Z) : number :=
  norm_left (normalizedElementRect windowRect elementRect) + inject_Z x.

Definition elementY (y : Z) : number :=
  norm_top (normalizedElementRect windowRect elementRect) + inject_Z y.

End PagePoints.

(** ** Programs and their calls *)

Section Vocabulary.

Context {W : Type} {drv : WebDriver W}.

(** [Calls P m]: the program [m] settles, whatever the browser does, and
    every call it makes satisfies [P]. *)
Definition Calls (P : Call -> Prop) {A : Type} (m : M W A) : Prop :=
  forall s,
    fst (m s) <> Pending
    /\ exists calls, trace (snd (m s)) = trace s ++ calls /\ Forall P calls.

(** [Refused check urls s s']: checked one after the other from [s], the
    candidates [urls] were each refused, which leaves the browser in [s']. *)
Inductive Refused (check : string -> M W bool) : list string -> State W -> State W -> Prop :=
| refused_nil (s : State W) : Refused check [] s s
| refused_cons (url : string) (urls : list string) (s s1 s2 : State W) :
    check url s = (Ok false, s1) ->
    Refused check urls s1 s2 ->
    Refused check (url :: urls) s s2.

End Vocabulary.

(** The calls that reach the ignore-style hooks of the page. *)
Definition isIgnoreStyleCall (c : Call) : bool :=
  match c with
  | CScriptInsertIgnoreStyles _ => true
  | CScriptRemoveIgnoreStyles _ => true
  | _ => false
  end.

Definition notIgnoreStyle (c : Call) : Prop := isIgnoreStyleCall c = false.

(** The answer of [resolveCaptureElement] for a child count of the root
    container ([None]: the page has no root container). *)
Definition childCountTarget (count : option nat) : option string :=
  match count with
  | None => None
  | Some O => None
  | Some (S O) => Some "#root > *"%string
  | Some (S (S _)) => Some "#root"%string
  end.

(** The outcome of a [try] body once its [finally] block has run. *)
Definition afterCleanup {A : Type} (r : Outcome A) (cleanup : Outcome unit) : Outcome A :=
  match cleanup with
  | Ok _ => r
  | Throw t => Throw t
  | Pending => Pending
  end.

(** The outcome of [openStorybookPage] for the outcome of the resolution. *)
Definition voidOf {A : Type} (r : Outcome A) : Outcome unit :=
  match r with
  | Ok _ => Ok tt
  | Throw t => Throw t
  | Pending => Pending
  end.

(** The predicates of the two polling loops of [getUrlChecker]. *)
Definition blankPending (source : string) : bool :=
  negb (includes "<body></body>" source).
Definition pagePending (source : string) : bool :=
  (String.length source =? 0)%nat || negb (bodyRegexp source).

(** The calls of one check of a candidate [url]: the load of [about:blank]
    alone when that load is rejected, otherwise the load of [about:blank],
    its reads of the page source, the load of [url] and its reads. *)
Inductive CheckCalls (url : string) : list Call -> Prop :=
| check_blank_rejected : CheckCalls url [CGet "about:blank"]
| check_candidate_loaded (k1 k2 : nat) :
    CheckCalls url (CGet "about:blank" :: repeat CGetPageSource k1
                    ++ CGet url :: repeat CGetPageSource k2).

(** The calls of consecutive checks of a list of candidates. *)
Inductive ChecksCalls : list string -> list Call -> Prop :=
| checks_nil : ChecksCalls [] []
| checks_cons (url : string) (urls : list string) (calls rest : list Call) :
    CheckCalls url calls -> ChecksCalls urls rest -> ChecksCalls (url :: urls) (calls ++ rest).

(** Following the words of the specification, "each local IPv4
    network-interface address in enumeration order": the addresses of the
    IPv4 entries of each interface that is defined, interface after
    interface.  It is compared with [ipv4Addresses], the code of
    [resolveStorybookUrl]. *)
Definition ipv4InEnumerationOrder
  (networks : list (option (list NetworkInterfaceInfo))) : list string :=
  flat_map (fun network =>
              match network with
              | Some infos =>
                  map address (filter (fun info => (family info =? "IPv4")%string) infos)
              | None => []
              end) networks.

Section CheckVocabulary.

Context {W : Type} {drv : WebDriver W}.

(** [CheckRun fuel url s answer s']: what a check of the candidate [url]
    that answers has done, from [s] to [s'].  It answers [false] when the
    load of [about:blank] or the load of [url] is rejected.  Otherwise both
    polling loops have ended, the second on a [source] that a read of the
    page source returned, which left the browser as it is in [s'], and the
    answer is whether that source holds the root container. *)
Inductive CheckRun (fuel : nat) (url : string) (s : State W) : bool -> State W -> Prop :=
| run_blank_not_loaded (t : Thrown) (s' : State W) :
    openUrlAndWaitForPageSource fuel "about:blank" blankPending s = (Throw t, s') ->
    CheckRun fuel url s false s'
| run_candidate_not_loaded (blank : string) (sBlank : State W) (t : Thrown) (s' : State W) :
    openUrlAndWaitForPageSource fuel "about:blank" blankPending s = (Ok blank, sBlank) ->
    openUrlAndWaitForPageSource fuel url pagePending sBlank = (Throw t, s') ->
    CheckRun fuel url s false s'
| run_page_read (blank source : string) (sBlank s' : State W) (w : W) :
    openUrlAndWaitForPageSource fuel "about:blank" blankPending s = (Ok blank, sBlank) ->
    openUrlAndWaitForPageSource fuel url pagePending sBlank = (Ok source, s') ->
    wd_getPageSource w = (Resolved source, world s') ->
    pagePending source = false ->
    CheckRun fuel url s (includes ROOT_DIV source) s'.

End CheckVocabulary.

(** ** Sample stories, networks and sessions *)

Definition sampleStory : StoryInput :=
  mkStory (mkStoryId "button--primary" "Button" "Primary") None.

Definition sampleContext : Context :=
  mkContext "chrome"
            (Some (mkTest ["Primary"; "Button"; ""]%string (Some sampleStory)))
            [] None None.

Fixpoint replaceFirst (pattern replacement s : string) : string :=
  match stripPrefix pattern s with
  | Some rest => replacement ++ rest
  | None =>
      match s with
      | EmptyString => EmptyString
      | String c s' => String c (replaceFirst pattern replacement s')
      end
  end.

(** A stand-in for [LOCALHOST_REGEXP] that knows the host name [localhost]. *)
Definition sampleReplaceLocalhost (url ip : string) : string :=
  replaceFirst "localhost" ip url.
Definition sampleTestLocalhost (url : string) : bool := includes "localhost" url.

Definition sampleInterfaces : list (option (list NetworkInterfaceInfo)) :=
  [ Some [mkInfo "IPv4" "172.17.0.1"; mkInfo "IPv6" "fe80::42:c0ff:fe00:1"];
    None;
    Some [mkInfo "IPv4" "192.168.1.5"] ].

(** The browser about to open the storybook: only 192.168.1.5 serves it. *)
Definition toyBlank : Toy :=
  mkToy true true "about:blank" 1 ["http://192.168.1.5:6006/iframe.html"%string]
        [] None [] (0, 0) chrome false.

(** A configuration whose resolver callback fails. *)
Definition configWithFailingResolver : @Config Toy :=
  mkConfig "http://grid:4444/wd/hub" "http://localhost:6006"
           (Some (throwError "tunnel is down")).

Definition defaultBrowserConfig : BrowserConfig := mkBrowserConfig None None None None.

(** A grid that is gone while the process shuts down. *)
Definition toyGone : Toy :=
  mkToy false true "about:blank" 1 [] [] None [] (0, 0) chrome true.

(** ** Axes that the reconstruction handles *)

(** An axis is ready for the reconstruction when the element needs tiling on
    it ([fit] is false), or when the element starts at a whole, non-negative
    pixel [origin] and ends, at [far], inside the tile. *)
Definition TiledOrInsideTile (fit : bool) (origin far tile : number) : Prop :=
  fit = false \/ exists o : Z, origin == inject_Z o /\ (0 <= o)%Z /\ far <= tile.

(** An element of 1700 by 400 behind the body margin: two tiles and a part
    of a third in width, less than a tile in height. *)
Definition element1700x400 : ElementRect := mkRect 8 8 1700 400.

(** A tile of 2 by 2 pixels whose sixteen channels are [base], [base + 1],
    ... in the order of the data. *)
Definition tile2x2 (base : Z) : PNG := mkPNG 2 2 (map (fun i => (base + i)%Z) (upto 16)).

(** A window of 2 by 2 and an element of 3 by 1 at its origin. *)
Definition window2x2 : ElementRect := mkRect 0 0 2 2.
Definition element3x1 : ElementRect := mkRect 0 0 3 1.

(** ** The calls of a composite capture *)

(** The calls of the capture loops: for each scroll target, the scrolling
    script and then the screenshot of the viewport. *)
Definition tileCalls (targets : list (number * number)) : list Call :=
  flat_map (fun t => [CScriptScrollTo (fst t) (snd t); CTakeScreenshot]) targets.

(** The call of [getScrollBarWidth] for a state of its memo. *)
Definition probeCalls (cache : option number) : list Call :=
  match cache with
  | Some _ => []
  | None => [CScriptScrollBarWidth]
  end.

Definition notScrollBarProbe (c : Call) : Prop := c <> CScriptScrollBarWidth.

Section MemoVocabulary.

Context {W : Type} {drv : WebDriver W}.

(** [KeepsMemo v P m]: run while the scrollbar width [v] is memoised, the
    program [m] leaves the memo as it is, and every call it makes
    satisfies [P]. *)
Definition KeepsMemo (v : number) (P : Call -> Prop) {A : Type} (m : M W A) : Prop :=
  forall s,
    scrollBarWidthCache s = Some v ->
    scrollBarWidthCache (snd (m s)) = Some v
    /\ exists calls, trace (snd (m s)) = trace s ++ calls /\ Forall P calls.

End MemoVocabulary.

(** A window of 40 by 40 and an element of 60 by 20 at its origin. *)
Definition window40x40 : ElementRect := mkRect 0 0 40 40.
Definition element60x20 : ElementRect := mkRect 0 0 60 20.

(** The sample page once the scrollbar width has been measured. *)
Definition toyPageMeasured : State Toy := mkState toyPage [] (Some 15).

(** ** Vocabulary of the story switcher *)

(** The calls of [resetMousePosition]. *)
Definition isMouseResetCall (c : Call) : bool :=
  match c with
  | CGetCapabilities => true
  | CScriptBodyRect => true
  | CMoveMouse _ _ _ => true
  | _ => false
  end.

(** The selector behind the [captureElement] property for a capture target:
    the property is defined for a truthy target and deleted otherwise. *)
Definition captureProperty (captureElement : JsOpt string) : option string :=
  match captureElement with
  | JValue selector => if isEmpty selector then None else Some selector
  | _ => None
  end.

(** A story that pins [null] as its capture element: the whole viewport. *)
Definition viewportStory : StoryInput :=
  mkStory (mkStoryId "page--full" "Page" "Full")
          (Some (mkParams JNull (Some true) (IgnoreString ".date"))).

Definition viewportContext : Context :=
  mkContext "chrome"
            (Some (mkTest ["Full"%string; "Page"%string; EmptyString] (Some viewportStory)))
            [] None None.

Definition chrome70 : Capabilities := mkCaps "chrome" None (Some "70.0.3538.77"%string).

Definition firefox61 : Capabilities := mkCaps "firefox" (Some "61.0.2"%string) None.

(** The sample page in the two browsers of the selenium grid that need a
    treatment of their own. *)
Definition toyChrome70Page : Toy :=
  mkToy true true (toy_url toyPage) 1 (toy_storybookAt toyPage) (toy_elements toyPage)
        (Some 1%nat) [] (0, 0) chrome70 false.

Definition toyFirefox61Page : Toy :=
  mkToy true true (toy_url toyPage) 1 (toy_storybookAt toyPage) (toy_elements toyPage)
        (Some 1%nat) [] (0, 0) firefox61 false.

(** ** Vocabulary of the address resolution *)

(** Whether the last character of [url] is a slash. *)
Fixpoint endsWithSlash (url : string) : bool :=
  match url with
  | EmptyString => false
  | String c EmptyString => Ascii.eqb c "/"%char
  | String _ rest => endsWithSlash rest
  end.

(** What [resolveStorybookUrl] makes of the first check that does not
    answer [false], for the candidate [url] of that check. *)
Definition resolutionOf (url : string) (r : Outcome bool) : Outcome string :=
  match r with
  | Ok _ => Ok url
  | Throw t => Throw t
  | Pending => Pending
  end.

(** A browser whose session is gone answers no read of the page source. *)
Definition sessionGone (t : Toy) : Prop := toy_online t = false.

(** A browser that reaches no storybook at all. *)
Definition toyNowhere : Toy :=
  mkToy true true "about:blank" 1 [] [] None [] (0, 0) chrome false.

(** The sample page with one more element, ten pixels wide and one high,
    that crosses the right edge of the viewport of 800 by 600. *)
Definition elementAcrossEdge : ElementRect := mkRect 0 795 10 1.

Definition toyEdgePage : Toy :=
  mkToy true true (toy_url toyPage) 1 (toy_storybookAt toyPage)
        ((".edge"%string, elementAcrossEdge) :: toy_elements toyPage)
        (Some 1%nat) [] (0, 0) chrome false.

(** ** Numbers that a double holds exactly

    [isPixelExact x]: [x] is a whole number of sixty-fourths of a pixel and
    lies below 65536 pixels in magnitude.  Such a number is a double, and so
    are the sums, differences and products that [takeCompositeScreenshot]
    and [takeScreenshot] form of such numbers: each is a whole number of
    sixty-fourths (of 4096ths for a product of two lengths) far below
    [2 ^ 53].  A quotient of two of them is rounded by the double division,
    but by less than its distance to the integers around it, so that its
    [Math.ceil] and [Math.floor] are those of the exact quotient.  On these
    numbers the comparisons and roundings of the source therefore give what
    they give on the rationals. *)
Definition isPixelExact (x : number) : bool :=
  Qeq_bool (x * 64) (inject_Z (Qfloor (x * 64)))
  && (Z.abs (Qfloor (x * 64)) <? 2 ^ 22)%Z.

Definition isPixelExactRect (r : ElementRect) : bool :=
  isPixelExact (top r) && isPixelExact (left r)
  && isPixelExact (width r) && isPixelExact (height r).

(** [Sixtyfourths b x]: [x * 64] is an integer [k] below [b] in magnitude.
    For [b] up to [2 ^ 53] such a number is a double. *)
Definition Sixtyfourths (b : Z) (x : number) : Prop :=
  exists k : Z, x * 64 == inject_Z k /\ (Z.abs k < b)%Z.

(** * Properties *)

(** ** Rounding *)

Lemma Math_ceil_bounds (x : number) :
  inject_Z (Math_ceil x) - 1 < x /\ x <= inject_Z (Math_ceil x).
Proof.
  unfold Math_ceil. split.
  - pose proof (Qceiling_lt x) as H.
    unfold Z.sub in H. rewrite inject_Z_plus, inject_Z_opp in H.
    change (inject_Z 1) with 1 in H. lra.
  - apply Qle_ceiling.
Qed.

Lemma Math_round_bounds (x : number) :
  x - (1 # 2) < inject_Z (Math_round x) /\ inject_Z (Math_round x) <= x + (1 # 2).
Proof.
  unfold Math_round. split.
  - pose proof (Qlt_floor (x + (1 # 2))) as H.
    rewrite inject_Z_plus in H. change (inject_Z 1) with 1 in H. lra.
  - apply Qfloor_le.
Qed.

Lemma Math_round_nonneg (x : number) : 0 <= x -> (0 <= Math_round x)%Z.
Proof.
  intros H. unfold Math_round.
  change 0%Z with (Qfloor 0). apply Qfloor_resp_le. lra.
Qed.

Lemma Math_round_Z (z : Z) : Math_round (inject_Z z) = z.
Proof.
  unfold Math_round.
  assert (Hlo : (z <= Qfloor (inject_Z z + (1 # 2)))%Z).
  { rewrite <- (Qfloor_Z z) at 1. apply Qfloor_resp_le. lra. }
  assert (Hhi : (Qfloor (inject_Z z + (1 # 2)) < z + 1)%Z).
  { rewrite Zlt_Qlt. pose proof (Qfloor_le (inject_Z z + (1 # 2))) as H.
    rewrite inject_Z_plus. change (inject_Z 1) with 1. lra. }
  lia.
Qed.

(** The ceiling of a quotient is the least number of tiles that cover. *)
Lemma ceil_div_bounds (a b : number) :
  0 < b ->
  inject_Z (Math_ceil (a / b) - 1) * b < a /\ a <= inject_Z (Math_ceil (a / b)) * b.
Proof.
  intros Hb.
  destruct (Math_ceil_bounds (a / b)) as [Hlo Hhi].
  assert (Hab : a / b * b == a) by (field; lra).
  unfold Z.sub. rewrite inject_Z_plus, inject_Z_opp. change (inject_Z 1) with 1.
  split.
  - rewrite <- Hab at 2. apply Qmult_lt_compat_r; [exact Hb | ]. lra.
  - rewrite <- Hab at 1. apply Qmult_le_compat_r; [exact Hhi | lra ].
Qed.

Lemma geb_true (a b : number) : geb a b = true <-> b <= a.
Proof. unfold geb. apply Qle_bool_iff. Qed.

Lemma geb_false (a b : number) : geb a b = false <-> a < b.
Proof.
  unfold geb. split; intros H.
  - apply Qnot_le_lt. intros Hle. apply Qle_bool_iff in Hle. congruence.
  - destruct (Qle_bool b a) eqn:E; [ | reflexivity].
    apply Qle_bool_iff in E. lra.
Qed.

(** ** The tile grid *)

Section GridFacts.

Variable scrollBarWidth : number.
Variables windowRect elementRect : ElementRect.

Local Abbreviation nrect := (normalizedElementRect windowRect elementRect).
Local Abbreviation vw := (viewportWidth scrollBarWidth windowRect elementRect).
Local Abbreviation vh := (viewportHeight scrollBarWidth windowRect elementRect).

Lemma isFitVertically_true :
  isFitVertically windowRect elementRect = true <->
  height elementRect + norm_top nrect <= height windowRect.
Proof. unfold isFitVertically. apply geb_true. Qed.

Lemma isFitVertically_false :
  isFitVertically windowRect elementRect = false <->
  height windowRect < height elementRect + norm_top nrect.
Proof. unfold isFitVertically. apply geb_false. Qed.

Lemma isFitHorizontally_true :
  isFitHorizontally windowRect elementRect = true <->
  width elementRect + norm_left nrect <= width windowRect.
Proof. unfold isFitHorizontally. apply geb_true. Qed.

Lemma isFitHorizontally_false :
  isFitHorizontally windowRect elementRect = false <->
  width windowRect < width elementRect + norm_left nrect.
Proof. unfold isFitHorizontally. apply geb_false. Qed.

Lemma cols_cover :
  0 < vw ->
  inject_Z (cols scrollBarWidth windowRect elementRect - 1) * vw < width elementRect
  /\ width elementRect <= inject_Z (cols scrollBarWidth windowRect elementRect) * vw.
Proof. intros H. unfold cols. apply ceil_div_bounds. exact H. Qed.

Lemma rows_cover :
  0 < vh ->
  inject_Z (rows scrollBarWidth windowRect elementRect - 1) * vh < height elementRect
  /\ height elementRect <= inject_Z (rows scrollBarWidth windowRect elementRect) * vh.
Proof. intros H. unfold rows. apply ceil_div_bounds. exact H. Qed.

Lemma xOffset_tiled_nonneg :
  isFitHorizontally windowRect elementRect = false ->
  (0 <= xOffset scrollBarWidth windowRect elementRect)%Z.
Proof.
  intros H. unfold xOffset. rewrite H.
  apply Math_round_nonneg. apply Q.le_max_l.
Qed.

Lemma yOffset_tiled_nonneg :
  isFitVertically windowRect elementRect = false ->
  (0 <= yOffset scrollBarWidth windowRect elementRect)%Z.
Proof.
  intros H. unfold yOffset. rewrite H.
  apply Math_round_nonneg. apply Q.le_max_l.
Qed.

Lemma dx_nonneg (col : Z) :
  0 < vw -> 0 <= norm_left nrect -> (0 <= col)%Z ->
  0 <= dx scrollBarWidth windowRect elementRect col.
Proof.
  intros Hv Hl Hc. unfold dx, Math_min, Math_max.
  apply Q.min_glb; [ | apply Q.le_max_l].
  assert (0 <= inject_Z col) by (rewrite Zle_Qle in Hc; exact Hc).
  assert (0 <= vw * inject_Z col) by (apply Qmult_le_0_compat; lra).
  lra.
Qed.

Lemma dy_nonneg (row : Z) :
  0 < vh -> 0 <= norm_top nrect -> (0 <= row)%Z ->
  0 <= dy scrollBarWidth windowRect elementRect row.
Proof.
  intros Hv Hl Hc. unfold dy, Math_min, Math_max.
  apply Q.min_glb; [ | apply Q.le_max_l].
  assert (0 <= inject_Z row) by (rewrite Zle_Qle in Hc; exact Hc).
  assert (0 <= vh * inject_Z row) by (apply Qmult_le_0_compat; lra).
  lra.
Qed.

(** A scroll target is one of three unrounded quantities. *)
Lemma dx_unrounded (col : Z) :
  dx scrollBarWidth windowRect elementRect col == vw * inject_Z col + norm_left nrect
  \/ dx scrollBarWidth windowRect elementRect col == 0
  \/ dx scrollBarWidth windowRect elementRect col == norm_right nrect - vw.
Proof.
  unfold dx, Math_min, Math_max.
  destruct (Q.min_dec (vw * inject_Z col + norm_left nrect)
                      (Qmax 0 (norm_right nrect - vw))) as [E | E];
    [left; exact E | right].
  rewrite E. destruct (Q.max_dec 0 (norm_right nrect - vw)) as [E' | E'];
    [left | right]; exact E'.
Qed.

Lemma dy_unrounded (row : Z) :
  dy scrollBarWidth windowRect elementRect row == vh * inject_Z row + norm_top nrect
  \/ dy scrollBarWidth windowRect elementRect row == 0
  \/ dy scrollBarWidth windowRect elementRect row == norm_bottom nrect - vh.
Proof.
  unfold dy, Math_min, Math_max.
  destruct (Q.min_dec (vh * inject_Z row + norm_top nrect)
                      (Qmax 0 (norm_bottom nrect - vh))) as [E | E];
    [left; exact E | right].
  rewrite E. destruct (Q.max_dec 0 (norm_bottom nrect - vh)) as [E' | E'];
    [left | right]; exact E'.
Qed.

End GridFacts.

(** ** The reconstruction reads captured tiles only *)

Lemma upto_In (n k : Z) : In k (upto n) <-> (0 <= k < n)%Z.
Proof.
  unfold upto. rewrite in_map_iff. split.
  - intros (i & <- & Hi). apply in_seq in Hi. lia.
  - intros H. exists (Z.to_nat k). split; [lia | ]. apply in_seq. lia.
Qed.

Lemma upto_length (n : Z) : List.length (upto n) = Z.to_nat n.
Proof. unfold upto. rewrite length_map, length_seq. reflexivity. Qed.

Lemma pixelOrder_In (w h x y : Z) :
  In (x, y) (pixelOrder w h) -> (0 <= x < w)%Z /\ (0 <= y < h)%Z.
Proof.
  unfold pixelOrder. rewrite in_flat_map. intros (y' & Hy & Hin).
  apply in_map_iff in Hin. destruct Hin as (x' & E & Hx). inversion E; subst.
  split; apply upto_In; assumption.
Qed.

Lemma flat_map_length_const {A B : Type} (f : A -> list B) (l : list A) (n : nat) :
  (forall a, List.length (f a) = n) -> List.length (flat_map f l) = (List.length l * n)%nat.
Proof.
  intros H. induction l as [ | a l IH]; simpl; [reflexivity | ].
  rewrite length_app, H, IH. reflexivity.
Qed.

Lemma scrollTargets_length (scrollBarWidth : number) (windowRect elementRect : ElementRect) :
  List.length (scrollTargets scrollBarWidth windowRect elementRect)
  = (Z.to_nat (rows scrollBarWidth windowRect elementRect)
     * Z.to_nat (cols scrollBarWidth windowRect elementRect))%nat.
Proof.
  unfold scrollTargets, tileOrder. rewrite length_map.
  rewrite flat_map_length_const
    with (n := Z.to_nat (cols scrollBarWidth windowRect elementRect)).
  - rewrite upto_length. reflexivity.
  - intros row. rewrite length_map. apply upto_length.
Qed.

(** A pixel of the raster lies in a column of tiles that was captured. *)
Lemma floor_div_in_range (x : Z) (size tile : number) :
  0 < tile -> (0 <= x < Math_round size)%Z ->
  (0 <= Math_floor (inject_Z x / tile)%Q < Math_ceil (size / tile)%Q)%Z.
Proof.
  intros Htile [Hx0 Hx1].
  assert (Hq0 : 0 <= inject_Z x) by (rewrite Zle_Qle in Hx0; exact Hx0).
  assert (Hq1 : inject_Z x < size).
  { destruct (Math_round_bounds size) as [_ Hhi].
    assert (H : (x + 1 <= Math_round size)%Z) by lia.
    rewrite Zle_Qle, inject_Z_plus in H. change (inject_Z 1) with 1 in H. lra. }
  unfold Math_floor, Math_ceil. split.
  - change 0%Z with (Qfloor 0). apply Qfloor_resp_le.
    apply Qle_shift_div_l; [exact Htile | lra].
  - rewrite Zlt_Qlt.
    apply Qle_lt_trans with (inject_Z x / tile); [apply Qfloor_le | ].
    apply Qlt_le_trans with (size / tile); [ | apply Qle_ceiling].
    apply Qlt_shift_div_r; [exact Htile | ].
    assert (E : size / tile * tile == size) by (field; lra).
    rewrite E. exact Hq1.
Qed.

Lemma tileIndex_in_range (scrollBarWidth : number) (windowRect elementRect : ElementRect)
  (x y : Z) :
  0 < viewportWidth scrollBarWidth windowRect elementRect ->
  0 < viewportHeight scrollBarWidth windowRect elementRect ->
  (0 <= x < compositeWidth elementRect)%Z ->
  (0 <= y < compositeHeight elementRect)%Z ->
  (0 <= tileIndex scrollBarWidth windowRect elementRect x y
   < rows scrollBarWidth windowRect elementRect
     * cols scrollBarWidth windowRect elementRect)%Z
  /\ (0 < rows scrollBarWidth windowRect elementRect)%Z
  /\ (0 < cols scrollBarWidth windowRect elementRect)%Z.
Proof.
  intros Hw Hh Hx Hy. unfold tileIndex, pixelRow, pixelCol, rows, cols.
  pose proof (floor_div_in_range (width elementRect) Hw Hx) as Hc.
  pose proof (floor_div_in_range (height elementRect) Hh Hy) as Hr.
  split; [nia | lia].
Qed.

Lemma imageAt_defined (images : list PNG) (k : Z) :
  (0 <= k < Z.of_nat (List.length images))%Z -> exists image, imageAt images k = Some image.
Proof.
  intros [H0 H1]. unfold imageAt.
  destruct (0 <=? k)%Z eqn:E; [ | apply Z.leb_gt in E; lia].
  destruct (nth_error images (Z.to_nat k)) as [image | ] eqn:En; [eauto | ].
  apply nth_error_None in En. lia.
Qed.

Lemma collect_defined {A B : Type} (f : A -> option (list B)) (l : list A) (n : nat) :
  (forall a, In a l -> exists b, f a = Some b /\ List.length b = n) ->
  exists d, collect f l = Some d /\ List.length d = (List.length l * n)%nat.
Proof.
  induction l as [ | a l IH]; intros H; simpl.
  - exists []. split; reflexivity.
  - destruct (H a (or_introl eq_refl)) as (b & Hb & Hn). rewrite Hb.
    destruct (IH (fun a' Hin => H a' (or_intror Hin))) as (d & Hd & Hl). rewrite Hd.
    exists (b ++ d). split; [reflexivity | ]. rewrite length_app, Hn, Hl. reflexivity.
Qed.

(** With as many tiles as the grid has and tiles of positive size, every
    pixel of the raster finds its tile: the composite is assembled. *)
Lemma compositeImage_defined (scrollBarWidth : number) (windowRect elementRect : ElementRect)
  (isScreenshotWithoutScrollBar : bool) (images : list PNG) :
  0 < viewportWidth scrollBarWidth windowRect elementRect ->
  0 < viewportHeight scrollBarWidth windowRect elementRect ->
  List.length images = List.length (scrollTargets scrollBarWidth windowRect elementRect) ->
  exists d,
    compositeImage scrollBarWidth windowRect elementRect isScreenshotWithoutScrollBar images
    = Some (mkPNG (compositeWidth elementRect) (compositeHeight elementRect) d)
    /\ List.length d
       = (List.length (pixelOrder (compositeWidth elementRect) (compositeHeight elementRect))
          * 4)%nat.
Proof.
  intros Hw Hh Hlen. unfold compositeImage.
  destruct (@collect_defined _ _
              (copyPixel scrollBarWidth windowRect elementRect
                         isScreenshotWithoutScrollBar images)
              (pixelOrder (compositeWidth elementRect) (compositeHeight elementRect)) 4%nat)
    as (d & Hd & Hl).
  - intros [x y] Hin. apply pixelOrder_In in Hin. destruct Hin as [Hx Hy].
    destruct (tileIndex_in_range Hw Hh Hx Hy) as (Hk & Hrows & Hcols).
    unfold copyPixel.
    destruct (@imageAt_defined images
                (tileIndex scrollBarWidth windowRect elementRect x y)) as (image & Hi).
    + rewrite Hlen, scrollTargets_length, Nat2Z.inj_mul, !Z2Nat.id by lia. exact Hk.
    + rewrite Hi. eexists. split; reflexivity.
  - rewrite Hd. exists d. split; [reflexivity | exact Hl].
Qed.

Section CompositeReturns.

Context {W : Type} {drv : WebDriver W}.

Lemma captureTiles_length (targets : list (number * number)) :
  forall (s s' : State W) (screens : list PNG),
    captureTiles targets s = (Ok screens, s') -> List.length screens = List.length targets.
Proof.
  induction targets as [ | [x y] rest IH]; intros s s' screens H; simpl in H.
  - inversion H. reflexivity.
  - unfold bind in H.
    destruct (executeScript _ _ s) as [[[] | t | ] s1]; try discriminate.
    destruct (await CTakeScreenshot wd_takeScreenshot s1) as [[screen | t | ] s2];
      try discriminate.
    destruct (captureTiles rest s2) as [[screens' | t | ] s3] eqn:Hrest; try discriminate.
    inversion H; subst. simpl. rewrite (IH _ _ _ Hrest). reflexivity.
Qed.

(** Once the tiles are captured, [takeCompositeScreenshot] returns a raster
    of the rounded element size. *)
Lemma takeCompositeScreenshot_returns (windowRect elementRect : ElementRect)
  (s s1 s2 s3 : State W) (withScrollBar : bool) (scrollBarWidth : number)
  (screens : list PNG) :
  hasScrollBar s = (Ok withScrollBar, s1) ->
  getScrollBarWidth s1 = (Ok scrollBarWidth, s2) ->
  captureTiles (scrollTargets scrollBarWidth windowRect elementRect) s2 = (Ok screens, s3) ->
  0 < viewportWidth scrollBarWidth windowRect elementRect ->
  0 < viewportHeight scrollBarWidth windowRect elementRect ->
  exists png,
    takeCompositeScreenshot windowRect elementRect s = (Ok png, s3)
    /\ png_width png = compositeWidth elementRect
    /\ png_height png = compositeHeight elementRect.
Proof.
  intros Hbar Hsbw Htiles Hw Hh.
  destruct (@compositeImage_defined scrollBarWidth windowRect elementRect
              (negb withScrollBar) screens Hw Hh (captureTiles_length _ _ Htiles))
    as (d & Hd & _).
  unfold takeCompositeScreenshot, bind. rewrite Hbar, Hsbw, Htiles, Hd.
  eexists. split; [reflexivity | split; reflexivity].
Qed.

End CompositeReturns.

(** ** The scenario of the 800 by 600 viewport *)

(** C1, as stated, fails: with a scrollbar width of 15 the element of 1600 by
    600 does not fit horizontally, so the tile height is 585 and the grid
    has two rows, not one. *)
Lemma C1_one_row_refuted :
  ~ (cols 15 viewport800x600 element1600x600 = 2%Z
     /\ rows 15 viewport800x600 element1600x600 = 1%Z
     /\ viewportWidth 15 viewport800x600 element1600x600 == 800
     /\ compositeWidth element1600x600 = 1600%Z
     /\ compositeHeight element1600x600 = 600%Z).
Proof.
  intros (_ & Hrows & _). vm_compute in Hrows. discriminate Hrows.
Qed.

(** C1, amended: for the viewport of 800 by 600, the scrollbar width 15 and
    the element of 1600 by 600 at the viewport origin, the grid is cols = 2
    and rows = 2 with tiles of 800 by 585, the four scroll targets are (0,0),
    (800,0), (0,15), (800,15) in this order, and the composite raster is 1600
    by 600.  In a browser whose screenshots do not include scrollbars
    ([hasScrollBar] answers false) that reports the scrollbar width 15 and
    delivers the four tiles, [takeCompositeScreenshot] returns an image of
    exactly 1600 by 600 pixels. *)
Theorem C1_grid_800x600 {W : Type} {drv : WebDriver W}
  (s s1 s2 s3 : State W) (screens : list PNG) :
  cols 15 viewport800x600 element1600x600 = 2%Z
  /\ rows 15 viewport800x600 element1600x600 = 2%Z
  /\ viewportWidth 15 viewport800x600 element1600x600 == 800
  /\ viewportHeight 15 viewport800x600 element1600x600 == 585
  /\ Forall2 (fun p q => fst p == fst q /\ snd p == snd q)
       (scrollTargets 15 viewport800x600 element1600x600)
       [(0, 0); (800, 0); (0, 15); (800, 15)]
  /\ compositeWidth element1600x600 = 1600%Z
  /\ compositeHeight element1600x600 = 600%Z
  /\ (hasScrollBar s = (Ok false, s1) ->
      getScrollBarWidth s1 = (Ok 15, s2) ->
      captureTiles (scrollTargets 15 viewport800x600 element1600x600) s2
        = (Ok screens, s3) ->
      List.length screens = 4%nat
      /\ exists png,
           takeCompositeScreenshot viewport800x600 element1600x600 s = (Ok png, s3)
           /\ png_width png = 1600%Z /\ png_height png = 600%Z).
Proof.
  split; [reflexivity | ]. split; [reflexivity | ]. split; [reflexivity | ].
  split; [reflexivity | ].
  split; [vm_compute scrollTargets; repeat constructor | ].
  split; [reflexivity | ]. split; [reflexivity | ].
  intros Hbar Hsbw Htiles. split.
  - rewrite (captureTiles_length _ _ Htiles). reflexivity.
  - eapply takeCompositeScreenshot_returns;
      [exact Hbar | exact Hsbw | exact Htiles | reflexivity | reflexivity].
Qed.

(** C1, amended, on the sample page in the browser without scrollbars in
    its screenshots. *)
Lemma C1_grid_800x600_witness :
  exists png s3,
    takeCompositeScreenshot viewport800x600 element1600x600 (start toySafariPage)
    = (Ok png, s3)
    /\ png_width png = 1600%Z /\ png_height png = 600%Z.
Proof.
  pose (s1 := snd (hasScrollBar (start toySafariPage))).
  pose (s2 := snd (getScrollBarWidth s1)).
  pose (r3 := captureTiles (scrollTargets 15 viewport800x600 element1600x600) s2).
  assert (H1 : hasScrollBar (start toySafariPage) = (Ok false, s1))
    by (vm_compute; reflexivity).
  assert (H2 : getScrollBarWidth s1 = (Ok 15, s2)) by (vm_compute; reflexivity).
  assert (H3 : captureTiles (scrollTargets 15 viewport800x600 element1600x600) s2
               = (Ok [onePixel; onePixel; onePixel; onePixel], snd r3))
    by (vm_compute; reflexivity).
  destruct (@C1_grid_800x600 Toy ToyDriver (start toySafariPage) s1 s2 (snd r3)
              [onePixel; onePixel; onePixel; onePixel])
    as (_ & _ & _ & _ & _ & _ & _ & Hshot).
  destruct (Hshot H1 H2 H3) as (_ & png & Hpng).
  exists png, (snd r3). exact Hpng.
Defined.

(** ** The values of the grid on exact rects

    On rects and a scrollbar width that satisfy [isPixelExact], every value
    that [takeCompositeScreenshot] computes before its loops, and every
    product it forms in them, is a whole number of sixty-fourths far below
    [2 ^ 53]: none of them is rounded by the double arithmetic of the
    source. *)

Lemma isPixelExact_sixtyfourths (x : number) :
  isPixelExact x = true -> Sixtyfourths (2 ^ 22) x.
Proof.
  unfold isPixelExact. intros H. apply andb_true_iff in H. destruct H as [He Hb].
  apply Qeq_bool_iff in He. apply Z.ltb_lt in Hb.
  exists (Qfloor (x * 64)). split; [ | exact Hb].
  exact He.
Qed.

Lemma Sixtyfourths_zero : Sixtyfourths 1 0.
Proof. exists 0%Z. split; [reflexivity | reflexivity]. Qed.

Lemma Sixtyfourths_plus (b1 b2 : Z) (x y : number) :
  Sixtyfourths b1 x -> Sixtyfourths b2 y -> Sixtyfourths (b1 + b2) (x + y).
Proof.
  intros (k1 & E1 & B1) (k2 & E2 & B2). exists (k1 + k2)%Z.
  split; [rewrite inject_Z_plus; lra | lia].
Qed.

Lemma Sixtyfourths_minus (b1 b2 : Z) (x y : number) :
  Sixtyfourths b1 x -> Sixtyfourths b2 y -> Sixtyfourths (b1 + b2) (x - y).
Proof.
  intros (k1 & E1 & B1) (k2 & E2 & B2). exists (k1 - k2)%Z.
  split; [unfold Z.sub; rewrite inject_Z_plus, inject_Z_opp; lra | lia].
Qed.

Lemma Sixtyfourths_weaken (b b' : Z) (x : number) :
  (b <= b')%Z -> Sixtyfourths b x -> Sixtyfourths b' x.
Proof. intros Hb (k & E & B). exists k. split; [exact E | lia]. Qed.

(** An integer multiple of an exact number that lies between two exact
    numbers is exact. *)
Lemma Sixtyfourths_multiple (b b1 b2 : Z) (m : Z) (v lo hi : number) :
  Sixtyfourths b v -> Sixtyfourths b1 lo -> Sixtyfourths b2 hi ->
  lo < inject_Z m * v -> inject_Z m * v < hi ->
  Sixtyfourths (Z.max b1 b2) (inject_Z m * v).
Proof.
  intros (kv & Ev & Bv) (kl & El & Bl) (kh & Eh & Bh) Hlo Hhi.
  assert (E : inject_Z m * v * 64 == inject_Z (m * kv)).
  { rewrite inject_Z_mult, <- Ev. ring. }
  exists (m * kv)%Z. split; [exact E | ].
  assert (Hlo' : inject_Z kl < inject_Z (m * kv)) by (rewrite <- E, <- El; lra).
  assert (Hhi' : inject_Z (m * kv) < inject_Z kh) by (rewrite <- E, <- Eh; lra).
  rewrite <- Zlt_Qlt in Hlo', Hhi'. lia.
Qed.

(** The products on one axis, for a positive tile size [v] and the number
    [c] of tiles that cover the size [w]: [c * v] of the trailing-tile
    offset, and [v * i] of the scroll target of the tile [i]. *)
Lemma axis_products_exact (v w : number) (c : Z) :
  Sixtyfourths (2 ^ 24) v -> Sixtyfourths (2 ^ 22) w ->
  0 < v ->
  inject_Z (c - 1) * v < w -> w <= inject_Z c * v ->
  Sixtyfourths (2 ^ 25) (inject_Z c * v)
  /\ forall i, (0 <= i < c)%Z -> Sixtyfourths (2 ^ 25) (v * inject_Z i).
Proof.
  intros Sv Sw Hpos Hlo Hhi.
  assert (E1 : inject_Z (c - 1) * v == inject_Z c * v - v).
  { unfold Z.sub. rewrite inject_Z_plus, inject_Z_opp. change (inject_Z 1) with 1. ring. }
  rewrite E1 in Hlo.
  split.
  - apply Sixtyfourths_weaken with (b := Z.max (2 ^ 22 + 2 ^ 24) (2 ^ 22 + 2 ^ 24));
      [lia | ].
    apply Sixtyfourths_multiple with (b := (2 ^ 24)%Z) (lo := w - v) (hi := w + v).
    + exact Sv.
    + apply Sixtyfourths_minus; assumption.
    + apply Sixtyfourths_plus; assumption.
    + set (p := inject_Z c * v) in *. lra.
    + set (p := inject_Z c * v) in *. lra.
  - intros i [Hi0 Hic].
    assert (E : v * inject_Z i == inject_Z i * v) by ring.
    destruct (@Sixtyfourths_multiple (2 ^ 24) (1 + 2 ^ 24) (2 ^ 22) i v (0 - v) w)
      as (k & Ek & Bk).
    + exact Sv.
    + apply Sixtyfourths_minus; [apply Sixtyfourths_zero | exact Sv].
    + exact Sw.
    + assert (0 <= inject_Z i) by (rewrite Zle_Qle in Hi0; exact Hi0).
      assert (0 <= inject_Z i * v) by (apply Qmult_le_0_compat; lra).
      lra.
    + assert (Hle : inject_Z i <= inject_Z c - 1).
      { assert (Hz : (i <= c - 1)%Z) by lia. rewrite Zle_Qle in Hz.
        unfold Z.sub in Hz. rewrite inject_Z_plus, inject_Z_opp in Hz.
        change (inject_Z 1) with 1 in Hz. lra. }
      assert (Hm : inject_Z i * v <= (inject_Z c - 1) * v).
      { apply Qmult_le_compat_r; [exact Hle | lra]. }
      assert (E2 : (inject_Z c - 1) * v == inject_Z c * v - v) by ring.
      rewrite E2 in Hm.
      set (p := inject_Z c * v) in *. set (q := inject_Z i * v) in *. lra.
    + exists k. split; [rewrite E; exact Ek | lia].
Qed.

Section GridExact.

Variable scrollBarWidth : number.
Variables windowRect elementRect : ElementRect.

Hypothesis exactWidth : isPixelExact scrollBarWidth = true.
Hypothesis exactWindow : isPixelExactRect windowRect = true.
Hypothesis exactElement : isPixelExactRect elementRect = true.

Local Abbreviation n := (normalizedElementRect windowRect elementRect).
Local Abbreviation vw := (viewportWidth scrollBarWidth windowRect elementRect).
Local Abbreviation vh := (viewportHeight scrollBarWidth windowRect elementRect).

Lemma exact_rect_fields (r : ElementRect) :
  isPixelExactRect r = true ->
  Sixtyfourths (2 ^ 22) (top r) /\ Sixtyfourths (2 ^ 22) (left r)
  /\ Sixtyfourths (2 ^ 22) (width r) /\ Sixtyfourths (2 ^ 22) (height r).
Proof.
  unfold isPixelExactRect. intros H.
  apply andb_true_iff in H. destruct H as [H Hh].
  apply andb_true_iff in H. destruct H as [H Hw].
  apply andb_true_iff in H. destruct H as [Ht Hl].
  repeat split; apply isPixelExact_sixtyfourths; assumption.
Qed.

(** The normalized rect, the sums that are compared with the window size,
    and the tile sizes. *)
Lemma grid_constants_exact :
  Sixtyfourths (2 ^ 24) (norm_left n) /\ Sixtyfourths (2 ^ 24) (norm_right n)
  /\ Sixtyfourths (2 ^ 24) (norm_top n) /\ Sixtyfourths (2 ^ 24) (norm_bottom n)
  /\ Sixtyfourths (2 ^ 24) (width elementRect + norm_left n)
  /\ Sixtyfourths (2 ^ 24) (height elementRect + norm_top n)
  /\ Sixtyfourths (2 ^ 24) vw /\ Sixtyfourths (2 ^ 24) vh.
Proof.
  destruct (@exact_rect_fields windowRect exactWindow) as (Wt & Wl & Ww & Wh).
  destruct (@exact_rect_fields elementRect exactElement) as (Et & El & Ew & Eh).
  pose proof (@isPixelExact_sixtyfourths scrollBarWidth exactWidth) as Sb.
  pose proof Sixtyfourths_zero as S0.
  assert (Hnl : Sixtyfourths (2 ^ 22 + 2 ^ 22) (norm_left n))
    by (apply Sixtyfourths_minus; assumption).
  assert (Hnt : Sixtyfourths (2 ^ 22 + 2 ^ 22) (norm_top n))
    by (apply Sixtyfourths_minus; assumption).
  assert (Hnr : Sixtyfourths (2 ^ 22 + 2 ^ 22 + 2 ^ 22) (norm_right n))
    by (apply Sixtyfourths_minus; [apply Sixtyfourths_plus | ]; assumption).
  assert (Hnb : Sixtyfourths (2 ^ 22 + 2 ^ 22 + 2 ^ 22) (norm_bottom n))
    by (apply Sixtyfourths_minus; [apply Sixtyfourths_plus | ]; assumption).
  assert (Hsw : Sixtyfourths (2 ^ 22 + (2 ^ 22 + 2 ^ 22)) (width elementRect + norm_left n))
    by (apply Sixtyfourths_plus; assumption).
  assert (Hsh : Sixtyfourths (2 ^ 22 + (2 ^ 22 + 2 ^ 22)) (height elementRect + norm_top n))
    by (apply Sixtyfourths_plus; assumption).
  assert (Hvw : Sixtyfourths (2 ^ 22 + 2 ^ 22) vw).
  { unfold viewportWidth.
    destruct (isFitVertically windowRect elementRect).
    - apply Sixtyfourths_weaken with (b := (2 ^ 22 + 1)%Z); [lia | ].
      apply Sixtyfourths_minus; assumption.
    - apply Sixtyfourths_minus; assumption. }
  assert (Hvh : Sixtyfourths (2 ^ 22 + 2 ^ 22) vh).
  { unfold viewportHeight.
    destruct (isFitHorizontally windowRect elementRect).
    - apply Sixtyfourths_weaken with (b := (2 ^ 22 + 1)%Z); [lia | ].
      apply Sixtyfourths_minus; assumption.
    - apply Sixtyfourths_minus; assumption. }
  repeat split; (eapply Sixtyfourths_weaken; [ | eassumption]; lia).
Qed.

(** The products of the grid, for positive tile sizes. *)
Lemma grid_products_exact :
  (0 < vw ->
   Sixtyfourths (2 ^ 25) (inject_Z (cols scrollBarWidth windowRect elementRect) * vw)
   /\ forall col, (0 <= col < cols scrollBarWidth windowRect elementRect)%Z ->
        Sixtyfourths (2 ^ 25) (vw * inject_Z col))
  /\ (0 < vh ->
      Sixtyfourths (2 ^ 25) (inject_Z (rows scrollBarWidth windowRect elementRect) * vh)
      /\ forall row, (0 <= row < rows scrollBarWidth windowRect elementRect)%Z ->
           Sixtyfourths (2 ^ 25) (vh * inject_Z row)).
Proof.
  destruct (@exact_rect_fields elementRect exactElement) as (_ & _ & Ew & Eh).
  destruct grid_constants_exact as (_ & _ & _ & _ & _ & _ & Hvw & Hvh).
  split; intros Hpos.
  - destruct (@cols_cover scrollBarWidth windowRect elementRect Hpos) as [Hlo Hhi].
    apply axis_products_exact with (w := width elementRect); assumption.
  - destruct (@rows_cover scrollBarWidth windowRect elementRect Hpos) as [Hlo Hhi].
    apply axis_products_exact with (w := height elementRect); assumption.
Qed.

End GridExact.

(** ** The arithmetic of the grid *)




(** ** Traces *)

Section Traces.

Context {W : Type} {drv : WebDriver W}.

Variable P : Call -> Prop.

Lemma Calls_ret {A} (a : A) : Calls P (ret (W := W) a).
Proof.
  intros s. simpl. split; [discriminate | ].
  exists []. rewrite app_nil_r. auto.
Qed.

Lemma Calls_throw {A} (t : Thrown) : Calls P (@throw W A t).
Proof.
  intros s. simpl. split; [discriminate | ].
  exists []. rewrite app_nil_r. auto.
Qed.

Lemma Calls_bind {A B} (m : M W A) (k : A -> M W B) :
  Calls P m -> (forall a, Calls P (k a)) -> Calls P (bind m k).
Proof.
  intros Hm Hk s. unfold bind.
  destruct (Hm s) as (Hp & calls & Ht & Hc).
  destruct (m s) as [[a | t | ] s1]; simpl in *.
  - destruct (Hk a s1) as (Hp' & calls' & Ht' & Hc').
    split; [exact Hp' | ].
    exists (calls ++ calls'). rewrite Ht', Ht, app_assoc.
    split; [reflexivity | apply Forall_app; auto].
  - split; [discriminate | ]. exists calls. auto.
  - contradiction.
Qed.

Lemma Calls_await {A} (c : Call) (op : W -> Reply A * W) : P c -> Calls P (await c op).
Proof.
  intros Hc s. unfold await, settle, record. simpl.
  destruct (op (world s)) as [[a | t] w]; simpl;
    (split; [discriminate | exists [c]; auto]).
Qed.

Lemma Calls_executeScript {A} (c : Call) (script : W -> Reply A * W) :
  P c -> Calls P (executeScript c script).
Proof. intros Hc. unfold executeScript. apply Calls_await. exact Hc. Qed.

Lemma Calls_tryCatch {A} (body : M W A) (handler : Thrown -> M W A) :
  Calls P body -> (forall t, Calls P (handler t)) -> Calls P (tryCatch body handler).
Proof.
  intros Hb Hh s. unfold tryCatch.
  destruct (Hb s) as (Hp & calls & Ht & Hc).
  destruct (body s) as [[a | t | ] s1]; simpl in *.
  - split; [discriminate | ]. exists calls. auto.
  - destruct (Hh t s1) as (Hp' & calls' & Ht' & Hc').
    split; [exact Hp' | ].
    exists (calls ++ calls'). rewrite Ht', Ht, app_assoc.
    split; [reflexivity | apply Forall_app; auto].
  - contradiction.
Qed.

Lemma Calls_tryFinally {A} (body : M W A) (cleanup : M W unit) :
  Calls P body -> Calls P cleanup -> Calls P (tryFinally body cleanup).
Proof.
  intros Hb Hc s. unfold tryFinally.
  destruct (Hb s) as (Hp & calls & Ht & Hcs).
  destruct (body s) as [[a | t | ] s1]; simpl in *; try contradiction;
    destruct (Hc s1) as (Hp' & calls' & Ht' & Hcs');
    destruct (cleanup s1) as [[u | t' | ] s2]; simpl in *; try contradiction;
    (split; [discriminate | ]);
    exists (calls ++ calls'); rewrite Ht', Ht, app_assoc;
    (split; [reflexivity | apply Forall_app; auto]).
Qed.

End Traces.

(** ** The capture engine and the ignore-style hooks *)

Section CaptureCalls.

Context {W : Type} {drv : WebDriver W}.

Local Ltac step :=
  first [ apply Calls_ret | apply Calls_throw
        | apply Calls_await; reflexivity
        | apply Calls_executeScript; reflexivity
        | apply Calls_bind; [ | intros ? ] ].

Lemma getCapabilities_calls : Calls notIgnoreStyle getCapabilities.
Proof. unfold getCapabilities. step. Qed.

Lemma hasScrollBar_calls : Calls notIgnoreStyle hasScrollBar.
Proof.
  unfold hasScrollBar.
  apply Calls_bind; [apply getCapabilities_calls | intros caps].
  apply Calls_bind; [apply getCapabilities_calls | intros caps'].
  apply Calls_ret.
Qed.

Lemma getScrollBarWidth_calls : Calls notIgnoreStyle getScrollBarWidth.
Proof.
  intros s. unfold getScrollBarWidth.
  destruct (scrollBarWidthCache s) as [v | ].
  - simpl. split; [discriminate | ]. exists []. rewrite app_nil_r. auto.
  - apply (@Calls_bind W notIgnoreStyle _ _
             (executeScript CScriptScrollBarWidth (fun w => (Resolved (probe_widthDiff w), w)))).
    + apply Calls_executeScript. reflexivity.
    + intros v s'. simpl. split; [discriminate | ].
      exists []. rewrite app_nil_r. auto.
Qed.

Lemma captureTiles_calls (targets : list (number * number)) :
  Calls notIgnoreStyle (captureTiles targets).
Proof.
  induction targets as [ | [x y] rest IH]; simpl.
  - apply Calls_ret.
  - repeat step. exact IH.
Qed.

Lemma takeCompositeScreenshot_calls (windowRect elementRect : ElementRect) :
  Calls notIgnoreStyle (takeCompositeScreenshot windowRect elementRect).
Proof.
  unfold takeCompositeScreenshot.
  apply Calls_bind; [apply hasScrollBar_calls | intros withScrollBar].
  apply Calls_bind; [apply getScrollBarWidth_calls | intros scrollBarWidth].
  apply Calls_bind; [apply captureTiles_calls | intros screens].
  destruct (compositeImage _ _ _ _ _); step.
Qed.

Lemma capture_calls (captureElement : JsOpt string) :
  Calls notIgnoreStyle (capture captureElement).
Proof.
  unfold capture.
  destruct captureElement as [ | | selector]; try step.
  destruct (isEmpty selector); [step | ].
  apply Calls_bind; [step | intros [[elementRect windowRect] | ]].
  - destruct (isFitIntoViewport elementRect windowRect);
      [step | apply takeCompositeScreenshot_calls].
  - step.
Qed.

End CaptureCalls.

(** ** Captures without ignore selectors *)

Lemma filterBoolean_strings (l : list string) :
  filterBoolean (map JValue l) = filter (fun s => negb (isEmpty s)) l.
Proof.
  induction l as [ | s l IH]; simpl; [reflexivity | ].
  destruct (isEmpty s); simpl; rewrite IH; reflexivity.
Qed.

Section IgnoreStyles.

Context {W : Type} {drv : WebDriver W}.

Lemma insertIgnoreStyles_none (ignoreElements : IgnoreElements) (s : State W) :
  ignoreSelectors ignoreElements = [] ->
  insertIgnoreStyles ignoreElements s = (Ok None, s).
Proof. intros H. unfold insertIgnoreStyles. rewrite H. reflexivity. Qed.

Lemma insertIgnoreStyles_some (ignoreElements : IgnoreElements) (s : State W) :
  ignoreSelectors ignoreElements <> [] ->
  insertIgnoreStyles ignoreElements s
  = bind (executeScript (CScriptInsertIgnoreStyles (ignoreSelectors ignoreElements))
            (fun w =>
               match window_CREEVEY_INSERT_IGNORE_STYLES w with
               | Some hook => hook (ignoreSelectors ignoreElements) w
               | None => (Rejected (notAFunction "window.__CREEVEY_INSERT_IGNORE_STYLES__"), w)
               end))
         (fun h => ret (Some h)) s.
Proof.
  intros H. unfold insertIgnoreStyles.
  destruct (ignoreSelectors ignoreElements) as [ | x l]; [contradiction | reflexivity].
Qed.

End IgnoreStyles.

(** C10.  [ignoreElements] is a selector, an array of selectors, [null] or
    [undefined]; its effective selectors are what is left once [null],
    [undefined] and empty entries are dropped.  When none is left,
    [insertIgnoreStyles] returns [null] without any call to the browser,
    the removal with that [null] makes no call either, and the whole
    [takeScreenshot], on every capture path and whatever the browser answers,
    makes no call to an ignore-style hook. *)
Theorem C10_no_selectors_no_hook_call {W : Type} {drv : WebDriver W}
  (ignoreElements : IgnoreElements) :
  (ignoreSelectors IgnoreUndefined = []
   /\ ignoreSelectors IgnoreNull = []
   /\ (forall sel, ignoreSelectors (IgnoreString sel) = if isEmpty sel then [] else [sel])
   /\ (forall sels,
        ignoreSelectors (IgnoreArray sels) = filter (fun sel => negb (isEmpty sel)) sels))
  /\ (ignoreSelectors ignoreElements = [] ->
      (forall s : State W, insertIgnoreStyles ignoreElements s = (Ok None, s))
      /\ (forall s : State W, removeIgnoreStyles None s = (Ok tt, s))
      /\ (forall captureElement (s : State W),
           exists calls,
             trace (snd (takeScreenshot captureElement ignoreElements s)) = trace s ++ calls
             /\ Forall (fun c => isIgnoreStyleCall c = false) calls)).
Proof.
  split.
  - split; [reflexivity | ]. split; [reflexivity | ]. split.
    + intros sel. reflexivity.
    + intros sels. apply filterBoolean_strings.
  - intros Hnone. split; [ | split].
    + intros s. apply insertIgnoreStyles_none. exact Hnone.
    + intros s. reflexivity.
    + intros captureElement s. unfold takeScreenshot, bind.
      rewrite (insertIgnoreStyles_none _ s Hnone).
      assert (H : Calls notIgnoreStyle
                    (tryFinally (capture captureElement) (removeIgnoreStyles (W := W) None))).
      { apply Calls_tryFinally; [apply capture_calls | apply Calls_ret]. }
      destruct (H s) as (_ & calls & Ht & Hc).
      exists calls. split; assumption.
Qed.

(** C10 on the sample page: an array of two empty selectors. *)
Lemma C10_no_selectors_no_hook_call_witness :
  ignoreSelectors (IgnoreArray [EmptyString; EmptyString]) = []
  /\ insertIgnoreStyles (IgnoreArray [EmptyString; EmptyString]) (start toyPage)
     = (Ok None, start toyPage)
  /\ exists calls,
       trace (snd (takeScreenshot (JValue ".wide"%string)
                     (IgnoreArray [EmptyString; EmptyString]) (start toyPage)))
       = trace (start toyPage) ++ calls
       /\ Forall (fun c => isIgnoreStyleCall c = false) calls.
Proof.
  destruct (C10_no_selectors_no_hook_call (W := Toy)
              (IgnoreArray [EmptyString; EmptyString])) as (_ & H).
  assert (Hnone : ignoreSelectors (IgnoreArray [EmptyString; EmptyString]) = [])
    by reflexivity.
  destruct (H Hnone) as (Hinsert & _ & Hshot).
  split; [exact Hnone | ]. split; [apply Hinsert | apply Hshot].
Defined.

(** ** Story switcher *)

Section SwitcherFacts.

Context {W : Type} {drv : WebDriver W}.

(** A script that is delivered runs on the page, as one recorded call. *)
Lemma executeScript_delivered {A} (c : Call) (script : W -> Reply A * W)
  (s : State W) (w : W) :
  wd_deliverScript (world s) = (Resolved tt, w) ->
  executeScript c script s = settle (script w) (record c s).
Proof.
  intros H. unfold executeScript, await. simpl. rewrite H. reflexivity.
Qed.

Lemma selectStory_missing_hook (story : StoryId) (waitForReady : bool)
  (s : State W) (w : W) :
  wd_deliverScript (world s) = (Resolved tt, w) ->
  window_CREEVEY_SELECT_STORY w = None ->
  selectStory story waitForReady s
  = (Throw (ThrownError (newError SELECT_STORY_MISSING)),
     mkState w (trace s ++ [CScriptSelectStory story waitForReady]) (scrollBarWidthCache s)).
Proof.
  intros Hd Hh. unfold selectStory, bind.
  rewrite (executeScript_delivered _ _ _ Hd). rewrite Hh. reflexivity.
Qed.

Lemma resolveCaptureElement_delivered (s : State W) (w : W) :
  wd_deliverScript (world s) = (Resolved tt, w) ->
  resolveCaptureElement s
  = (Ok (childCountTarget (document_root_childElementCount w)),
     mkState w (trace s ++ [CScriptChildCount]) (scrollBarWidthCache s)).
Proof.
  intros Hd. unfold resolveCaptureElement, bind.
  rewrite (executeScript_delivered _ _ _ Hd). simpl.
  destruct (document_root_childElementCount w) as [[ | [ | n]] | ]; reflexivity.
Qed.

(** Whatever the browser answers, a resolved target is no empty selector. *)
Lemma resolveCaptureElement_selector (s s' : State W) (selector : string) :
  resolveCaptureElement s = (Ok (Some selector), s') -> isEmpty selector = false.
Proof.
  unfold resolveCaptureElement, bind.
  destruct (executeScript _ _ s) as [[n | t | ] s1]; try discriminate.
  destruct (n =? 0)%nat; [discriminate | ].
  destruct (n =? 1)%nat; intros H; inversion H; reflexivity.
Qed.

End SwitcherFacts.

(** C9.  When the script of [selectStory] reaches a page that has no
    story-selection hook, [selectStory] throws the error that describes the
    missing addon after that single call: nothing is retried.  [switchStory]
    passes the error on at once, with no further call. *)
Theorem C9_missing_hook_fails_at_once {W : Type} {drv : WebDriver W}
  (story : StoryId) (waitForReady : bool) (s : State W) (w : W) :
  wd_deliverScript (world s) = (Resolved tt, w) ->
  window_CREEVEY_SELECT_STORY w = None ->
  selectStory story waitForReady s
  = (Throw (ThrownError (newError SELECT_STORY_MISSING)),
     mkState w (trace s ++ [CScriptSelectStory story waitForReady]) (scrollBarWidthCache s))
  /\ includes "Creevey can't switch story" (err_message (newError SELECT_STORY_MISSING)) = true
  /\ forall (this : Context) (test : Test) (input : StoryInput) (s0 : State W),
       ctx_currentTest this = Some test ->
       test_story test = Some input ->
       input_id input = story ->
       waitForReadyOf input = waitForReady ->
       resetMousePosition s0 = (Ok tt, s) ->
       switchStory this s0
       = (Throw (ThrownError (newError SELECT_STORY_MISSING)),
          mkState w (trace s ++ [CScriptSelectStory story waitForReady])
                  (scrollBarWidthCache s)).
Proof.
  intros Hd Hh.
  pose proof (selectStory_missing_hook story waitForReady s Hd Hh) as Hsel.
  split; [exact Hsel | ]. split; [reflexivity | ].
  intros this test input s0 Ht Hs Hid Hw Hreset.
  unfold switchStory. rewrite Ht, Hs. cbv zeta.
  unfold bind at 1. rewrite Hreset.
  unfold bind at 1. rewrite Hid, Hw, Hsel. reflexivity.
Qed.

(** C9 on the sample page that lacks the addon. *)
Lemma C9_missing_hook_fails_at_once_witness :
  selectStory (input_id sampleStory) false (start toyPageWithoutAddon)
  = (Throw (ThrownError (newError SELECT_STORY_MISSING)),
     mkState toyPageWithoutAddon
             [CScriptSelectStory (input_id sampleStory) false] None).
Proof.
  exact (proj1 (@C9_missing_hook_fails_at_once Toy ToyDriver (input_id sampleStory) false
                  (start toyPageWithoutAddon) toyPageWithoutAddon
                  eq_refl eq_refl)).
Defined.

(** C8.  [resolveCaptureElement], once its script is delivered, answers from
    the child count of the root container: no capture target for no child
    (or no root container), ['#root > *'] for one child, ['#root'] for more.
    A story that pins no capture selector gets that answer, computed after
    the story is selected, as the capture target of its [takeScreenshot];
    and without a capture target the capture is the screenshot of the whole
    viewport. *)
Theorem C8_capture_target_from_child_count {W : Type} {drv : WebDriver W}
  (this : Context) (test : Test) (input : StoryInput) (s s1 : State W) (w : W) :
  ctx_currentTest this = Some test ->
  test_story test = Some input ->
  param_captureElement (creeveyParamsOf input) = JUndefined ->
  bind resetMousePosition (fun _ => selectStory (input_id input) (waitForReadyOf input)) s
    = (Ok tt, s1) ->
  wd_deliverScript (world s1) = (Resolved tt, w) ->
  let target := childCountTarget (document_root_childElementCount w) in
  resolveCaptureElement s1
    = (Ok target, mkState w (trace s1 ++ [CScriptChildCount]) (scrollBarWidthCache s1))
  /\ (document_root_childElementCount w = Some 0%nat -> target = None)
  /\ (document_root_childElementCount w = Some 1%nat -> target = Some "#root > *"%string)
  /\ (forall n, document_root_childElementCount w = Some (S (S n)) ->
                target = Some "#root"%string)
  /\ (exists this',
        switchStory this s
          = (Ok this', mkState w (trace s1 ++ [CScriptChildCount]) (scrollBarWidthCache s1))
        /\ ctx_captureElement this' = target
        /\ ctx_takeScreenshot this'
           = Some (ofResolved target, param_ignoreElements (creeveyParamsOf input)))
  /\ capture (ofResolved None) = await CTakeScreenshot wd_takeScreenshot.
Proof.
  intros Ht Hs Hpin Hsel Hd target.
  pose proof (resolveCaptureElement_delivered s1 Hd) as Hres.
  fold target in Hres.
  split; [exact Hres | ].
  split; [intros E; subst target; rewrite E; reflexivity | ].
  split; [intros E; subst target; rewrite E; reflexivity | ].
  split; [intros n E; subst target; rewrite E; reflexivity | ].
  split; [ | reflexivity].
  unfold switchStory. rewrite Ht, Hs. cbv zeta.
  unfold bind in Hsel.
  unfold bind at 1.
  destruct (resetMousePosition s) as [[[] | t | ] s0]; try discriminate.
  unfold bind at 1. rewrite Hsel.
  rewrite Hpin.
  unfold bind at 1. unfold bind at 1. rewrite Hres.
  eexists. split; [reflexivity | ]. simpl. split; [ | reflexivity].
  destruct target as [selector | ] eqn:E; simpl; [ | reflexivity].
  rewrite (resolveCaptureElement_selector _ Hres). reflexivity.
Qed.

(** C8 on the sample page, whose root container has one child. *)
Lemma C8_capture_target_from_child_count_witness :
  exists this' s',
    switchStory sampleContext (start toyPage) = (Ok this', s')
    /\ ctx_captureElement this' = Some "#root > *"%string
    /\ ctx_takeScreenshot this' = Some (JValue "#root > *"%string, IgnoreUndefined).
Proof.
  pose (s1 := snd (bind resetMousePosition
                     (fun _ => selectStory (input_id sampleStory)
                                 (waitForReadyOf sampleStory)) (start toyPage))).
  assert (Hsel : bind resetMousePosition
                   (fun _ => selectStory (input_id sampleStory)
                               (waitForReadyOf sampleStory)) (start toyPage)
                 = (Ok tt, s1)) by (vm_compute; reflexivity).
  assert (Hd : wd_deliverScript (world s1) = (Resolved tt, toyPage))
    by (vm_compute; reflexivity).
  destruct (@C8_capture_target_from_child_count Toy ToyDriver
              sampleContext (mkTest ["Primary"; "Button"; ""]%string (Some sampleStory))
              sampleStory (start toyPage) s1 toyPage
              eq_refl eq_refl eq_refl Hsel Hd)
    as (_ & _ & _ & _ & (this' & Hswitch & Hcap & Hshot) & _).
  exists this'. eexists. split; [exact Hswitch | ]. split; [exact Hcap | exact Hshot].
Defined.

(** ** Capture paths of [takeScreenshot] *)

Section ScreenshotFacts.

Context {W : Type} {drv : WebDriver W}.

Lemma takeScreenshot_after_insert (captureElement : JsOpt string)
  (ignoreElements : IgnoreElements) (s s1 : State W) (ignoreStyles : option WebElement) :
  insertIgnoreStyles ignoreElements s = (Ok ignoreStyles, s1) ->
  takeScreenshot captureElement ignoreElements s
  = tryFinally (capture captureElement) (removeIgnoreStyles ignoreStyles) s1.
Proof. intros H. unfold takeScreenshot, bind. rewrite H. reflexivity. Qed.

Lemma capture_settles (captureElement : JsOpt string) (s : State W) :
  fst (capture captureElement s) <> Pending.
Proof. exact (proj1 (capture_calls captureElement s)). Qed.

Lemma removeIgnoreStyles_settles (ignoreStyles : option WebElement) (s : State W) :
  fst (removeIgnoreStyles ignoreStyles s) <> Pending.
Proof.
  destruct ignoreStyles as [h | ]; simpl; [ | discriminate].
  exact (proj1 (@Calls_executeScript W drv (fun _ => True) _ _ _ I s)).
Qed.

Lemma removeIgnoreStyles_trace (h : WebElement) (s : State W) :
  trace (snd (removeIgnoreStyles (Some h) s)) = trace s ++ [CScriptRemoveIgnoreStyles h].
Proof.
  unfold removeIgnoreStyles, executeScript, await, settle, record. simpl.
  destruct (wd_deliverScript (world s)) as [[[] | t] w]; simpl.
  - destruct (window_CREEVEY_REMOVE_IGNORE_STYLES w) as [hook | ]; simpl;
      [destruct (hook h w) as [[[] | t] w'] | ]; reflexivity.
  - reflexivity.
Qed.

Lemma removeIgnoreStyles_runs_hook (h : WebElement) (s : State W) (w : W)
  (hook : WebElement -> W -> Reply unit * W) :
  wd_deliverScript (world s) = (Resolved tt, w) ->
  window_CREEVEY_REMOVE_IGNORE_STYLES w = Some hook ->
  world (snd (removeIgnoreStyles (Some h) s)) = snd (hook h w).
Proof.
  intros Hd Hh. unfold removeIgnoreStyles.
  rewrite (executeScript_delivered _ _ _ Hd). rewrite Hh.
  unfold settle. destruct (hook h w) as [[[] | t] w']; reflexivity.
Qed.

Lemma capture_not_found (selector : string) (s : State W) (w : W) :
  isEmpty selector = false ->
  wd_deliverScript (world s) = (Resolved tt, w) ->
  document_querySelector selector (window_scrollTo 0 0 w) = None ->
  capture (JValue selector) s
  = (Throw (elementNotFound selector),
     mkState (window_scrollTo 0 0 w) (trace s ++ [CScriptMeasure selector])
             (scrollBarWidthCache s)).
Proof.
  intros He Hd Hq. unfold capture. rewrite He. unfold bind.
  rewrite (executeScript_delivered _ _ _ Hd).
  unfold measureScript. rewrite Hq. reflexivity.
Qed.

Lemma capture_fits (selector : string) (s : State W) (w : W) (elementRect : ElementRect) :
  isEmpty selector = false ->
  wd_deliverScript (world s) = (Resolved tt, w) ->
  document_querySelector selector (window_scrollTo 0 0 w) = Some elementRect ->
  width elementRect + left elementRect <= window_innerWidth (window_scrollTo 0 0 w) ->
  height elementRect + top elementRect <= window_innerHeight (window_scrollTo 0 0 w) ->
  capture (JValue selector) s
  = await (CElementScreenshot selector) (wd_elementScreenshot selector)
      (mkState (window_scrollTo 0 0 w) (trace s ++ [CScriptMeasure selector])
               (scrollBarWidthCache s)).
Proof.
  intros He Hd Hq Hw Hh. unfold capture. rewrite He. unfold bind.
  rewrite (executeScript_delivered _ _ _ Hd).
  unfold measureScript. rewrite Hq. unfold settle, record. simpl.
  unfold isFitIntoViewport, leb. simpl.
  apply Qle_bool_iff in Hw. apply Qle_bool_iff in Hh. rewrite Hw, Hh. reflexivity.
Qed.

End ScreenshotFacts.

(** C5.  Once the ignore styles are in (or there were none to insert), every
    way out of the capture, a returned screenshot or a thrown error, goes
    through the removal: [takeScreenshot] gives the outcome of the capture
    after [removeIgnoreStyles] has run, and for an inserted style element
    [h] the last call to the browser is the removal script for [h], which
    runs the removal hook of the page.  When the measuring script finds no
    element for the capture selector, the capture throws the error whose
    message quotes the selector; [takeScreenshot] throws in any case, and
    throws that very error whenever the removal call itself returns. *)
Theorem C5_cleanup_on_every_exit {W : Type} {drv : WebDriver W}
  (captureElement : JsOpt string) (ignoreElements : IgnoreElements)
  (s s1 : State W) (ignoreStyles : option WebElement) :
  insertIgnoreStyles ignoreElements s = (Ok ignoreStyles, s1) ->
  let body := capture captureElement s1 in
  let cleanup := removeIgnoreStyles ignoreStyles (snd body) in
  fst body <> Pending
  /\ takeScreenshot captureElement ignoreElements s
     = (afterCleanup (fst body) (fst cleanup), snd cleanup)
  /\ (forall h, ignoreStyles = Some h ->
        trace (snd cleanup) = trace (snd body) ++ [CScriptRemoveIgnoreStyles h]
        /\ forall w hook,
             wd_deliverScript (world (snd body)) = (Resolved tt, w) ->
             window_CREEVEY_REMOVE_IGNORE_STYLES w = Some hook ->
             world (snd cleanup) = snd (hook h w))
  /\ (ignoreStyles = None -> snd cleanup = snd body /\ fst cleanup = Ok tt)
  /\ (forall selector w,
        captureElement = JValue selector ->
        isEmpty selector = false ->
        wd_deliverScript (world s1) = (Resolved tt, w) ->
        document_querySelector selector (window_scrollTo 0 0 w) = None ->
        fst body = Throw (elementNotFound selector)
        /\ elementNotFound selector
           = ThrownError (newError ("Couldn't find element with selector: '"
                                    ++ selector ++ "'"))
        /\ (exists t, fst (takeScreenshot captureElement ignoreElements s) = Throw t)
        /\ (fst cleanup = Ok tt ->
            fst (takeScreenshot captureElement ignoreElements s)
            = Throw (elementNotFound selector))).
Proof.
  intros Hins body cleanup.
  pose proof (capture_settles captureElement s1) as Hbody. fold body in Hbody.
  pose proof (removeIgnoreStyles_settles ignoreStyles (snd body)) as Hclean.
  fold cleanup in Hclean.
  assert (Hshot : takeScreenshot captureElement ignoreElements s
                  = (afterCleanup (fst body) (fst cleanup), snd cleanup)).
  { rewrite (takeScreenshot_after_insert _ _ _ Hins). unfold tryFinally.
    subst cleanup. fold body.
    destruct body as [[png | t | ] s2]; simpl in *; [ | | contradiction];
      destruct (removeIgnoreStyles ignoreStyles s2) as [[[] | t' | ] s3];
      simpl in *; try reflexivity; contradiction. }
  split; [exact Hbody | ]. split; [exact Hshot | ].
  split; [ | split].
  - intros h Hh. subst ignoreStyles cleanup. split.
    + apply removeIgnoreStyles_trace.
    + intros w hook Hd Hhook. apply removeIgnoreStyles_runs_hook; assumption.
  - intros Hnone. subst ignoreStyles cleanup. simpl. split; reflexivity.
  - intros selector w Hc He Hd Hq. subst captureElement.
    pose proof (capture_not_found selector s1 He Hd Hq) as Hnf.
    assert (Hfst : fst body = Throw (elementNotFound selector))
      by (subst body; rewrite Hnf; reflexivity).
    split; [exact Hfst | ]. split; [reflexivity | ].
    rewrite Hshot. simpl. rewrite Hfst. split.
    + destruct (fst cleanup) as [[] | t | ]; simpl;
        [eexists; reflexivity | eexists; reflexivity | contradiction].
    + intros Hok. rewrite Hok. reflexivity.
Qed.

(** C5 on the sample page: a selector that matches nothing, with one ignore
    selector. *)
Lemma C5_cleanup_on_every_exit_witness :
  takeScreenshot (JValue ".nothing"%string) (IgnoreString ".date") (start toyPage)
  = (Throw (elementNotFound ".nothing"),
     mkState toyPage
             [CScriptInsertIgnoreStyles [".date"%string];
              CScriptMeasure ".nothing"%string;
              CScriptRemoveIgnoreStyles "style-1"%string] None).
Proof.
  pose (s1 := snd (insertIgnoreStyles (IgnoreString ".date") (start toyPage))).
  assert (Hins : insertIgnoreStyles (IgnoreString ".date") (start toyPage)
                 = (Ok (Some "style-1"%string), s1)) by (vm_compute; reflexivity).
  destruct (@C5_cleanup_on_every_exit Toy ToyDriver (JValue ".nothing"%string)
              (IgnoreString ".date") (start toyPage) s1 (Some "style-1"%string) Hins)
    as (_ & Hshot & _).
  rewrite Hshot. vm_compute. reflexivity.
Defined.

(** C4.  For a capture selector whose element, as measured, fits into the
    viewport (left + width within the inner width, top + height within the
    inner height), the capture is the direct screenshot of that element and
    nothing else: after the measuring script the only call is the element
    screenshot, with no scrolling and no viewport screenshot, and its outcome
    is the outcome of the capture.  [takeScreenshot] returns that outcome
    unchanged once the ignore styles are removed. *)
Theorem C4_fitting_element_direct_screenshot {W : Type} {drv : WebDriver W}
  (selector : string) (ignoreElements : IgnoreElements)
  (s s1 : State W) (ignoreStyles : option WebElement) (w : W) (elementRect : ElementRect) :
  isEmpty selector = false ->
  insertIgnoreStyles ignoreElements s = (Ok ignoreStyles, s1) ->
  wd_deliverScript (world s1) = (Resolved tt, w) ->
  document_querySelector selector (window_scrollTo 0 0 w) = Some elementRect ->
  width elementRect + left elementRect <= window_innerWidth (window_scrollTo 0 0 w) ->
  height elementRect + top elementRect <= window_innerHeight (window_scrollTo 0 0 w) ->
  let measured :=
    mkState (window_scrollTo 0 0 w) (trace s1 ++ [CScriptMeasure selector])
            (scrollBarWidthCache s1) in
  let direct := await (CElementScreenshot selector) (wd_elementScreenshot selector) measured in
  capture (JValue selector) s1 = direct
  /\ trace (snd direct) = trace s1 ++ [CScriptMeasure selector; CElementScreenshot selector]
  /\ (forall s', removeIgnoreStyles ignoreStyles (snd direct) = (Ok tt, s') ->
        takeScreenshot (JValue selector) ignoreElements s = (fst direct, s'))
  /\ (ignoreStyles = None -> takeScreenshot (JValue selector) ignoreElements s = direct).
Proof.
  intros He Hins Hd Hq Hw Hh measured direct.
  pose proof (capture_fits selector s1 He Hd Hq Hw Hh) as Hcap.
  fold measured in Hcap. fold direct in Hcap.
  assert (Htrace : trace (snd direct)
                   = trace s1 ++ [CScriptMeasure selector; CElementScreenshot selector]).
  { subst direct measured. unfold await, settle, record. simpl.
    destruct (wd_elementScreenshot selector (window_scrollTo 0 0 w)) as [[png | t] w'];
      simpl; rewrite <- app_assoc; reflexivity. }
  assert (Hset : fst direct <> Pending).
  { rewrite <- Hcap. apply capture_settles. }
  split; [exact Hcap | ]. split; [exact Htrace | ]. split.
  - intros s' Hrem.
    rewrite (takeScreenshot_after_insert _ _ _ Hins). unfold tryFinally.
    rewrite Hcap. destruct direct as [[png | t | ] s2]; simpl in *;
      [rewrite Hrem; reflexivity | rewrite Hrem; reflexivity | contradiction].
  - intros Hnone. subst ignoreStyles.
    rewrite (takeScreenshot_after_insert _ _ _ Hins). unfold tryFinally.
    rewrite Hcap. destruct direct as [[png | t | ] s2]; simpl in *;
      [reflexivity | reflexivity | contradiction].
Qed.

(** C4 on the sample page: the single child of the root fits the viewport. *)
Lemma C4_fitting_element_direct_screenshot_witness :
  takeScreenshot (JValue "#root > *"%string) IgnoreUndefined (start toyPage)
  = (Ok onePixel,
     mkState toyPage [CScriptMeasure "#root > *"%string;
                      CElementScreenshot "#root > *"%string] None).
Proof.
  assert (Hw : width (mkRect 8 8 400 300) + left (mkRect 8 8 400 300)
               <= window_innerWidth (window_scrollTo 0 0 toyPage))
    by (vm_compute; discriminate).
  assert (Hh : height (mkRect 8 8 400 300) + top (mkRect 8 8 400 300)
               <= window_innerHeight (window_scrollTo 0 0 toyPage))
    by (vm_compute; discriminate).
  destruct (@C4_fitting_element_direct_screenshot Toy ToyDriver "#root > *"%string
              IgnoreUndefined (start toyPage) (start toyPage) None toyPage
              (mkRect 8 8 400 300) eq_refl eq_refl eq_refl eq_refl Hw Hh)
    as (_ & _ & _ & Hshot).
  rewrite (Hshot eq_refl). vm_compute. reflexivity.
Defined.

(** ** Resolving the storybook address *)

Section ResolveFacts.

Context {W : Type} {drv : WebDriver W}.

Lemma readSource (source : string) (s : State W) :
  exists source' w,
    tryCatch (await CGetPageSource wd_getPageSource) (fun _ => ret source) s
    = (Ok source', mkState w (trace s ++ [CGetPageSource]) (scrollBarWidthCache s)).
Proof.
  unfold tryCatch, await, settle, record. simpl.
  destruct (wd_getPageSource (world s)) as [[source' | t] w]; simpl;
    eexists; eexists; reflexivity.
Qed.

(** A polling loop that ends returns a source its predicate lets through,
    after reads of the page source only. *)
Lemma pollPageSource_ends (fuel : nat) (predicate : string -> bool) :
  forall (source : string) (s s' : State W) (r : Outcome string),
    pollPageSource fuel predicate source s = (r, s') ->
    r <> Pending ->
    exists source' k,
      r = Ok source' /\ predicate source' = false
      /\ trace s' = trace s ++ repeat CGetPageSource k.
Proof.
  induction fuel as [ | fuel IH]; intros source s s' r Hrun Hr; simpl in Hrun.
  - unfold pending in Hrun. inversion Hrun; subst. contradiction.
  - unfold bind in Hrun.
    destruct (readSource source s) as (source1 & w & Hread). rewrite Hread in Hrun.
    destruct (predicate source1) eqn:Hp.
    + destruct (IH _ _ _ _ Hrun Hr) as (source' & k & Hok & Hpred & Ht).
      exists source', (S k). split; [exact Hok | ]. split; [exact Hpred | ].
      rewrite Ht. simpl. rewrite <- app_assoc. reflexivity.
    + inversion Hrun; subst. exists source1, 1%nat.
      split; [reflexivity | ]. split; [exact Hp | reflexivity].
Qed.

(** More turns do not change a loop that has ended. *)
Lemma pollPageSource_more_fuel (fuel : nat) (predicate : string -> bool) :
  forall (source : string) (s : State W),
    fst (pollPageSource fuel predicate source s) <> Pending ->
    pollPageSource (S fuel) predicate source s = pollPageSource fuel predicate source s.
Proof.
  induction fuel as [ | fuel IH]; intros source s H.
  - simpl in H. contradiction.
  - change (pollPageSource (S (S fuel)) predicate source s)
      with (bind (tryCatch (await CGetPageSource wd_getPageSource) (fun _ => ret source))
                 (fun source' => if predicate source'
                                 then pollPageSource (S fuel) predicate source'
                                 else ret source') s).
    change (pollPageSource (S fuel) predicate source s)
      with (bind (tryCatch (await CGetPageSource wd_getPageSource) (fun _ => ret source))
                 (fun source' => if predicate source'
                                 then pollPageSource fuel predicate source'
                                 else ret source') s) in H |- *.
    unfold bind in H |- *.
    destruct (readSource source s) as (source1 & w & Hread). rewrite Hread in H |- *.
    destruct (predicate source1); [ | reflexivity].
    apply IH. exact H.
Qed.

End ResolveFacts.

Section CheckerFacts.

Context {W : Type} {drv : WebDriver W}.

Lemma openUrl_ends (fuel : nat) (url : string) (predicate : string -> bool)
  (s s' : State W) (r : Outcome string) :
  openUrlAndWaitForPageSource fuel url predicate s = (r, s') ->
  r <> Pending ->
  (exists t, r = Throw t /\ trace s' = trace s ++ [CGet url])
  \/ (exists source k,
        r = Ok source /\ predicate source = false
        /\ trace s' = trace s ++ CGet url :: repeat CGetPageSource k).
Proof.
  unfold openUrlAndWaitForPageSource, bind. intros Hrun Hr.
  destruct (await (CGet url) (wd_get url) s) as [[[] | t | ] s1] eqn:Hget.
  - right.
    destruct (pollPageSource_ends _ _ _ _ Hrun Hr) as (source & k & Hok & Hp & Ht).
    exists source, k. split; [exact Hok | ]. split; [exact Hp | ].
    rewrite Ht.
    assert (Hs1 : trace s1 = trace s ++ [CGet url]).
    { unfold await, settle, record in Hget. simpl in Hget.
      destruct (wd_get url (world s)) as [[[] | t] w]; inversion Hget; reflexivity. }
    rewrite Hs1, <- app_assoc. reflexivity.
  - left. inversion Hrun; subst. exists t. split; [reflexivity | ].
    unfold await, settle, record in Hget. simpl in Hget.
    destruct (wd_get url (world s)) as [[[] | t'] w]; inversion Hget; reflexivity.
  - unfold await, settle, record in Hget. simpl in Hget.
    destruct (wd_get url (world s)) as [[[] | t'] w]; discriminate.
Qed.

(** A check that ends answers [true] or [false], never throws, and answers
    [true] only for a page source that holds the root container. *)
Lemma getUrlChecker_ends (fuel : nat) (url : string) (s s' : State W) (r : Outcome bool) :
  getUrlChecker fuel url s = (r, s') ->
  r <> Pending ->
  exists b calls,
    r = Ok b /\ trace s' = trace s ++ calls /\ CheckCalls url calls
    /\ (b = true ->
        exists source, includes ROOT_DIV source = true /\ pagePending source = false).
Proof.
  unfold getUrlChecker, tryCatch, bind. intros Hrun Hr.
  destruct (openUrlAndWaitForPageSource fuel "about:blank" _ s) as [[src1 | t | ] s1] eqn:H1.
  - destruct (openUrl_ends _ _ _ _ H1) as [(t & Hc & _) | (source1 & k1 & _ & _ & Ht1)];
      [discriminate | discriminate | ].
    destruct (openUrlAndWaitForPageSource fuel url _ s1) as [[src2 | t | ] s2] eqn:H2.
    + destruct (openUrl_ends _ _ _ _ H2) as [(t & Hc & _) | (source2 & k2 & Hok & Hp & Ht2)];
        [discriminate | discriminate | ].
      inversion Hok; subst source2. inversion Hrun; subst.
      exists (includes ROOT_DIV src2),
             (CGet "about:blank" :: repeat CGetPageSource k1
              ++ CGet url :: repeat CGetPageSource k2).
      split; [reflexivity | ]. split.
      { rewrite Ht2, Ht1. rewrite <- app_assoc. reflexivity. }
      split; [constructor | ].
      intros Hb. exists src2. split; [exact Hb | exact Hp].
    + destruct (openUrl_ends _ _ _ _ H2) as [(t' & _ & Ht2) | (source2 & k2 & Hok & _)];
        [discriminate | | discriminate].
      inversion Hrun; subst.
      exists false, (CGet "about:blank" :: repeat CGetPageSource k1
                     ++ CGet url :: repeat CGetPageSource 0).
      split; [reflexivity | ]. split.
      { rewrite Ht2, Ht1. rewrite <- app_assoc. reflexivity. }
      split; [constructor | discriminate].
    + inversion Hrun; subst. contradiction.
  - destruct (openUrl_ends _ _ _ _ H1) as [(t' & _ & Ht1) | (source1 & k1 & Hok & _)];
      [discriminate | | discriminate].
    inversion Hrun; subst.
    exists false, [CGet "about:blank"].
    split; [reflexivity | ]. split; [exact Ht1 | ]. split; [constructor | discriminate].
  - inversion Hrun; subst. contradiction.
Qed.

Lemma Refused_calls (fuel : nat) (urls : list string) (s s' : State W) :
  Refused (getUrlChecker fuel) urls s s' ->
  exists calls, trace s' = trace s ++ calls /\ ChecksCalls urls calls.
Proof.
  induction 1 as [s | url urls s s1 s2 Hcheck Hrest IH].
  - exists []. rewrite app_nil_r. split; [reflexivity | constructor].
  - destruct IH as (rest & Ht & Hc).
    destruct (getUrlChecker_ends _ _ _ Hcheck) as (b & calls & _ & Ht1 & Hc1 & _);
      [discriminate | ].
    exists (calls ++ rest). split.
    + rewrite Ht, Ht1, app_assoc. reflexivity.
    + constructor; assumption.
Qed.

Lemma ChecksCalls_app (urls1 urls2 : list string) (calls1 calls2 : list Call) :
  ChecksCalls urls1 calls1 -> ChecksCalls urls2 calls2 ->
  ChecksCalls (urls1 ++ urls2) (calls1 ++ calls2).
Proof.
  induction 1 as [ | url urls calls rest Hc Hrest IH]; intros H2; simpl.
  - exact H2.
  - rewrite <- app_assoc. constructor; [exact Hc | apply IH; exact H2].
Qed.

End CheckerFacts.

Lemma ipv4Addresses_in_enumeration_order
  (networks : list (option (list NetworkInterfaceInfo))) :
  ipv4Addresses networks = ipv4InEnumerationOrder networks.
Proof.
  induction networks as [ | [infos | ] networks IH]; simpl.
  - reflexivity.
  - rewrite IH. reflexivity.
  - exact IH.
Qed.

Section CheckRuns.

Context {W : Type} {drv : WebDriver W}.

(** A polling loop that returns, started on a source that keeps it going,
    returns what its last read of the page source gave. *)
Lemma pollPageSource_last_read (fuel : nat) (predicate : string -> bool) :
  forall (source0 source : string) (s s' : State W),
    pollPageSource fuel predicate source0 s = (Ok source, s') ->
    predicate source0 = true ->
    predicate source = false
    /\ exists w, wd_getPageSource w = (Resolved source, world s').
Proof.
  induction fuel as [ | fuel IH]; intros source0 source s s' Hrun Hp0; simpl in Hrun.
  - discriminate.
  - unfold bind, tryCatch, await, settle, record in Hrun. simpl in Hrun.
    destruct (wd_getPageSource (world s)) as [[source1 | t] w1] eqn:Hread; simpl in Hrun.
    + destruct (predicate source1) eqn:Hp1.
      * apply (IH _ _ _ _ Hrun Hp1).
      * inversion Hrun; subst. split; [exact Hp1 | ].
        exists (world s). exact Hread.
    + rewrite Hp0 in Hrun. apply (IH _ _ _ _ Hrun Hp0).
Qed.

Lemma openUrl_last_read (fuel : nat) (url : string) (predicate : string -> bool)
  (source : string) (s s' : State W) :
  openUrlAndWaitForPageSource fuel url predicate s = (Ok source, s') ->
  predicate EmptyString = true ->
  predicate source = false
  /\ exists w, wd_getPageSource w = (Resolved source, world s').
Proof.
  unfold openUrlAndWaitForPageSource, bind. intros Hrun Hp.
  destruct (await (CGet url) (wd_get url) s) as [[[] | t | ] s1]; try discriminate.
  apply (pollPageSource_last_read _ _ _ _ Hrun Hp).
Qed.

(** A check that answers is a [CheckRun]. *)
Lemma getUrlChecker_run (fuel : nat) (url : string) (s s' : State W) (answer : bool) :
  getUrlChecker fuel url s = (Ok answer, s') -> CheckRun fuel url s answer s'.
Proof.
  unfold getUrlChecker, tryCatch, bind. intros Hrun.
  destruct (openUrlAndWaitForPageSource fuel "about:blank" _ s)
    as [[blank | t | ] sBlank] eqn:H1.
  - destruct (openUrlAndWaitForPageSource fuel url _ sBlank)
      as [[source | t | ] s2] eqn:H2.
    + inversion Hrun; subst answer s2; clear Hrun.
      destruct (openUrl_last_read _ _ _ _ H2 eq_refl) as (Hp & w & Hw).
      eapply run_page_read; [exact H1 | exact H2 | exact Hw | exact Hp].
    + inversion Hrun; subst answer s2; clear Hrun.
      eapply run_candidate_not_loaded; [exact H1 | exact H2].
    + discriminate.
  - inversion Hrun; subst answer sBlank; clear Hrun.
    eapply run_blank_not_loaded; exact H1.
  - discriminate.
Qed.

(** An accepted check read a page that contains the root container. *)
Lemma CheckRun_accepted (fuel : nat) (url : string) (s s' : State W) (answer : bool) :
  CheckRun fuel url s answer s' ->
  answer = true ->
  exists blank sBlank source w,
    openUrlAndWaitForPageSource fuel "about:blank" blankPending s = (Ok blank, sBlank)
    /\ openUrlAndWaitForPageSource fuel url pagePending sBlank = (Ok source, s')
    /\ wd_getPageSource w = (Resolved source, world s')
    /\ includes ROOT_DIV source = true.
Proof.
  intros Hcheck. destruct Hcheck as [t s' H1 | blank sBlank t s' H1 H2
                                     | blank source sBlank s' w H1 H2 Hw Hp];
    intros Hanswer; try discriminate.
  exists blank, sBlank, source, w. repeat split; assumption.
Qed.

(** *** The trace of a check only grows *)

Lemma pollPageSource_grows (fuel : nat) (predicate : string -> bool) :
  forall (source : string) (s : State W),
    exists k, trace (snd (pollPageSource fuel predicate source s))
              = trace s ++ repeat CGetPageSource k.
Proof.
  induction fuel as [ | fuel IH]; intros source s; simpl.
  - exists 0%nat. simpl. rewrite app_nil_r. reflexivity.
  - unfold bind. destruct (readSource source s) as (source1 & w & Hread). rewrite Hread.
    destruct (predicate source1).
    + destruct (IH source1 (mkState w (trace s ++ [CGetPageSource]) (scrollBarWidthCache s)))
        as (k & Hk).
      exists (S k). rewrite Hk. simpl. rewrite <- app_assoc. reflexivity.
    + exists 1%nat. reflexivity.
Qed.

Lemma openUrl_grows (fuel : nat) (url : string) (predicate : string -> bool) (s : State W) :
  exists calls,
    trace (snd (openUrlAndWaitForPageSource fuel url predicate s)) = trace s ++ calls.
Proof.
  unfold openUrlAndWaitForPageSource, bind.
  assert (Ht : trace (snd (await (CGet url) (wd_get url) s)) = trace s ++ [CGet url]).
  { unfold await, settle, record. simpl.
    destruct (wd_get url (world s)) as [[a | t] w]; reflexivity. }
  destruct (await (CGet url) (wd_get url) s) as [[[] | t | ] s1]; simpl in Ht.
  - destruct (pollPageSource_grows fuel predicate EmptyString s1) as (k & Hk).
    exists ([CGet url] ++ repeat CGetPageSource k). rewrite Hk, Ht, app_assoc. reflexivity.
  - exists [CGet url]. exact Ht.
  - exists [CGet url]. exact Ht.
Qed.

Lemma getUrlChecker_grows (fuel : nat) (url : string) (s : State W) :
  exists calls, trace (snd (getUrlChecker fuel url s)) = trace s ++ calls.
Proof.
  unfold getUrlChecker, tryCatch, bind.
  destruct (openUrl_grows fuel "about:blank"
              (fun source => negb (includes "<body></body>" source)) s) as (calls1 & H1).
  destruct (openUrlAndWaitForPageSource fuel "about:blank" _ s)
    as [[blank | t | ] sBlank]; simpl in H1.
  - destruct (openUrl_grows fuel url
                (fun source => (String.length source =? 0)%nat || negb (bodyRegexp source))
                sBlank) as (calls2 & H2).
    destruct (openUrlAndWaitForPageSource fuel url _ sBlank)
      as [[source | t | ] s2]; simpl in H2 |- *;
      exists (calls1 ++ calls2); rewrite H2, H1, app_assoc; reflexivity.
  - exists calls1. exact H1.
  - exists calls1. exact H1.
Qed.

(** *** More turns change nothing once a result is there *)

Lemma pollPageSource_stable (fuel fuel' : nat) (predicate : string -> bool)
  (source : string) (s : State W) :
  fst (pollPageSource fuel predicate source s) <> Pending ->
  (fuel <= fuel')%nat ->
  pollPageSource fuel' predicate source s = pollPageSource fuel predicate source s.
Proof.
  intros Hend Hle. induction Hle as [ | fuel' Hle IH]; [reflexivity | ].
  rewrite pollPageSource_more_fuel; [exact IH | ]. rewrite IH. exact Hend.
Qed.

Lemma openUrl_stable (fuel fuel' : nat) (url : string) (predicate : string -> bool)
  (s : State W) :
  fst (openUrlAndWaitForPageSource fuel url predicate s) <> Pending ->
  (fuel <= fuel')%nat ->
  openUrlAndWaitForPageSource fuel' url predicate s
  = openUrlAndWaitForPageSource fuel url predicate s.
Proof.
  unfold openUrlAndWaitForPageSource, bind. intros Hend Hle.
  destruct (await (CGet url) (wd_get url) s) as [[[] | t | ] s1]; try reflexivity.
  apply pollPageSource_stable; assumption.
Qed.

Lemma getUrlChecker_stable (fuel fuel' : nat) (url : string) (s : State W) :
  fst (getUrlChecker fuel url s) <> Pending ->
  (fuel <= fuel')%nat ->
  getUrlChecker fuel' url s = getUrlChecker fuel url s.
Proof.
  unfold getUrlChecker, tryCatch, bind. intros Hend Hle.
  rewrite (@openUrl_stable fuel fuel' "about:blank" _ s); [ | | exact Hle].
  - destruct (openUrlAndWaitForPageSource fuel "about:blank" _ s)
      as [[blank | t | ] sBlank]; try reflexivity.
    rewrite (@openUrl_stable fuel fuel' url _ sBlank); [reflexivity | | exact Hle].
    intros Hp. apply Hend.
    destruct (openUrlAndWaitForPageSource fuel url _ sBlank) as [[source | t | ] s2];
      simpl in Hp |- *; first [discriminate | reflexivity].
  - intros Hp. apply Hend.
    destruct (openUrlAndWaitForPageSource fuel "about:blank" _ s)
      as [[blank | t | ] sBlank]; simpl in Hp |- *; first [discriminate | reflexivity].
Qed.

Variable replaceLocalhost : string -> string -> string.

Lemma tryAddresses_stable (fuel fuel' : nat) (storybookUrl : string) :
  (fuel <= fuel')%nat ->
  forall (ips : list string) (s : State W),
    fst (tryAddresses replaceLocalhost storybookUrl (getUrlChecker fuel) ips s) <> Pending ->
    tryAddresses replaceLocalhost storybookUrl (getUrlChecker fuel') ips s
    = tryAddresses replaceLocalhost storybookUrl (getUrlChecker fuel) ips s.
Proof.
  intros Hle. induction ips as [ | ip ips IH]; intros s Hend; [reflexivity | ].
  simpl in Hend |- *. unfold bind in Hend |- *.
  rewrite (@getUrlChecker_stable fuel fuel' (replaceLocalhost storybookUrl ip) s);
    [ | | exact Hle].
  - destruct (getUrlChecker fuel (replaceLocalhost storybookUrl ip) s)
      as [[[ | ] | t | ] s1]; try reflexivity.
    apply IH. exact Hend.
  - intros Hp. apply Hend.
    destruct (getUrlChecker fuel (replaceLocalhost storybookUrl ip) s)
      as [[[ | ] | t | ] s1]; simpl in Hp |- *; first [discriminate | reflexivity].
Qed.

(** The loop over the addresses, whatever the browser does: it returns the
    first candidate whose check answers [true], every candidate before it
    having been refused in order; or all are refused and it throws
    [ResolveUrlError]; or the check of a candidate is still polling, every
    candidate before it having been refused. *)
Lemma tryAddresses_outcome (fuel : nat) (storybookUrl : string) :
  forall (ips : list string) (s : State W),
    (exists pre ip post s1 s',
        ips = pre ++ ip :: post
        /\ Refused (getUrlChecker fuel) (map (replaceLocalhost storybookUrl) pre) s s1
        /\ getUrlChecker fuel (replaceLocalhost storybookUrl ip) s1 = (Ok true, s')
        /\ tryAddresses replaceLocalhost storybookUrl (getUrlChecker fuel) ips s
           = (Ok (replaceLocalhost storybookUrl ip), s'))
    \/ (exists s',
          Refused (getUrlChecker fuel) (map (replaceLocalhost storybookUrl) ips) s s'
          /\ tryAddresses replaceLocalhost storybookUrl (getUrlChecker fuel) ips s
             = (Throw (ThrownError RESOLVE_URL_ERROR), s'))
    \/ (exists pre ip post s1 s',
          ips = pre ++ ip :: post
          /\ Refused (getUrlChecker fuel) (map (replaceLocalhost storybookUrl) pre) s s1
          /\ getUrlChecker fuel (replaceLocalhost storybookUrl ip) s1 = (Pending, s')
          /\ tryAddresses replaceLocalhost storybookUrl (getUrlChecker fuel) ips s
             = (Pending, s')).
Proof.
  induction ips as [ | ip ips IH]; intros s.
  - right. left. exists s. split; [constructor | reflexivity].
  - destruct (getUrlChecker fuel (replaceLocalhost storybookUrl ip) s)
      as [[[ | ] | t | ] s1] eqn:Hb.
    + left. exists [], ip, ips, s, s1.
      split; [reflexivity | ]. split; [constructor | ]. split; [exact Hb | ].
      simpl. unfold bind. rewrite Hb. reflexivity.
    + destruct (IH s1)
        as [(pre & ip' & post & s2 & s' & Hsplit & Href & Hacc & Hrun)
           | [(s' & Href & Hrun)
             | (pre & ip' & post & s2 & s' & Hsplit & Href & Hpend & Hrun)]].
      * left. exists (ip :: pre), ip', post, s2, s'.
        split; [rewrite Hsplit; reflexivity | ].
        split; [econstructor; [exact Hb | exact Href] | ].
        split; [exact Hacc | ].
        simpl. unfold bind. rewrite Hb. exact Hrun.
      * right. left. exists s'.
        split; [econstructor; [exact Hb | exact Href] | ].
        simpl. unfold bind. rewrite Hb. exact Hrun.
      * right. right. exists (ip :: pre), ip', post, s2, s'.
        split; [rewrite Hsplit; reflexivity | ].
        split; [econstructor; [exact Hb | exact Href] | ].
        split; [exact Hpend | ].
        simpl. unfold bind. rewrite Hb. exact Hrun.
    + exfalso.
      destruct (getUrlChecker_ends _ _ _ Hb) as (b & calls & Hok & _);
        [discriminate | discriminate].
    + right. right. exists [], ip, ips, s, s1.
      split; [reflexivity | ]. split; [constructor | ]. split; [exact Hb | ].
      simpl. unfold bind. rewrite Hb. reflexivity.
Qed.

End CheckRuns.



(** The scenario, run: the alias and 172.17.0.1 are tried and refused, and
    192.168.1.5 is returned. *)
Example scenario_two_interfaces :
  fst (resolveStorybookUrl sampleReplaceLocalhost sampleInterfaces
         (appendIframePath "http://localhost:6006") (getUrlChecker 3) (start toyBlank))
  = Ok "http://192.168.1.5:6006/iframe.html"%string
  /\ filter (fun c => match c with CGet _ => true | _ => false end)
       (trace (snd (resolveStorybookUrl sampleReplaceLocalhost sampleInterfaces
                      (appendIframePath "http://localhost:6006") (getUrlChecker 3)
                      (start toyBlank))))
     = [CGet "about:blank"; CGet "http://host.docker.internal:6006/iframe.html";
        CGet "about:blank"; CGet "http://172.17.0.1:6006/iframe.html";
        CGet "about:blank"; CGet "http://192.168.1.5:6006/iframe.html"]%string.
Proof. split; vm_compute; reflexivity. Qed.

(** ** Failures of [getBrowser] *)

Section GetBrowserFacts.

Context {W : Type} {drv : WebDriver W}.

Lemma awaitStep_shutdown {A} (m : M W A) (l l' : Locals) (s s' : State W) (r : Outcome A) :
  awaitStep m l s = (r, l', s') ->
  shuttingDown l = false ->
  (shuttingDown l' = false /\ l' = l)
  \/ (shuttingDown l' = true /\ browser l' = None
      /\ (browser l <> None -> In CQuit (trace s'))).
Proof.
  unfold awaitStep. intros Hrun Hl.
  destruct (m s) as [r0 s0].
  destruct (shutdownRequested (world s0) && negb (shuttingDown l)).
  - unfold onShutdown in Hrun. inversion Hrun; subst. right.
    split; [reflexivity | ]. split; [reflexivity | ].
    intros Hb. unfold quitBrowser. destruct (browser l); [ | contradiction].
    simpl. apply in_or_app. right. left. reflexivity.
  - inversion Hrun; subst. left. split; [exact Hl | reflexivity].
Qed.

(** The steps of the sequence, started with a session and the flag down: if
    the flag is up when the sequence is over, the listener has closed the
    session. *)
Lemma runSequence_shutdown (seq : list (Locals -> M W unit)) :
  forall (l l' : Locals) (s s' : State W) (r : Outcome unit),
    runSequence seq (fun l => negb (shuttingDown l)) l s = (r, l', s') ->
    (shuttingDown l = true -> r = Ok tt /\ l' = l /\ s' = s)
    /\ (shuttingDown l = false -> browser l <> None -> shuttingDown l' = true ->
        browser l' = None /\ In CQuit (trace s')).
Proof.
  induction seq as [ | fn rest IH]; intros l l' s s' r Hrun; simpl in Hrun.
  - inversion Hrun; subst. split.
    + intros _. auto.
    + intros H1 _ H2. congruence.
  - destruct (shuttingDown l) eqn:Hl; simpl in Hrun.
    + destruct (IH _ _ _ _ _ Hrun) as [Hskip _].
      split; [intros _; apply Hskip; exact Hl | discriminate].
    + split; [discriminate | ]. intros _ Hb Hl'.
      destruct (awaitStep (fn l) l s) as [[r1 l1] s1] eqn:Hstep.
      destruct (awaitStep_shutdown _ _ _ Hstep Hl) as [[Hl1 El] | (Hl1 & Hb1 & Hq)].
      * subst l1. destruct r1 as [[] | t | ].
        -- destruct (IH _ _ _ _ _ Hrun) as [_ Hgo]. apply Hgo; assumption.
        -- inversion Hrun; subst. congruence.
        -- inversion Hrun; subst. congruence.
      * destruct r1 as [[] | t | ].
        -- destruct (IH _ _ _ _ _ Hrun) as [Hskip _].
           destruct (Hskip Hl1) as (_ & El & Es). subst l' s'.
           split; [exact Hb1 | apply Hq; exact Hb].
        -- inversion Hrun; subst. split; [exact Hb1 | apply Hq; exact Hb].
        -- inversion Hrun; subst. split; [exact Hb1 | apply Hq; exact Hb].
Qed.

End GetBrowserFacts.


(** *** Two failing sessions *)


(** ** Rows and columns of the reconstruction *)

(** C2, on the code: an element of 1600 by 585 behind the body margin of 8
    pixels, in the viewport of 800 by 600 with a scrollbar width of 15, is
    exactly two tiles wide and one tile high.  Its first row lies at row 8
    of the page, yet the composite takes its row 0 from row 16: the tile is
    scrolled down by 8 and read from its row 8 on.  The last row of the
    composite is read from row 592 of a tile that is 585 rows high. *)
Theorem C2_rows_shifted_on_fitting_axis (isScreenshotWithoutScrollBar : bool) :
  width element1600x585
    == inject_Z 2 * viewportWidth 15 viewport800x600 element1600x585
  /\ height element1600x585
     == inject_Z 1 * viewportHeight 15 viewport800x600 element1600x585
  /\ compositeWidth element1600x585 = 1600%Z
  /\ compositeHeight element1600x585 = 585%Z
  /\ elementX viewport800x600 element1600x585 0 == 8
  /\ shownX 15 viewport800x600 element1600x585 isScreenshotWithoutScrollBar 0 0 == 8
  /\ elementY viewport800x600 element1600x585 0 == 8
  /\ shownY 15 viewport800x600 element1600x585 isScreenshotWithoutScrollBar 0 0 == 16
  /\ dy 15 viewport800x600 element1600x585 0 == 8
  /\ yOffset 15 viewport800x600 element1600x585 = 8%Z
  /\ sourceRow 15 viewport800x600 element1600x585 isScreenshotWithoutScrollBar 0 584 = 592%Z
  /\ viewportHeight 15 viewport800x600 element1600x585 == 585.
Proof.
  destruct isScreenshotWithoutScrollBar; repeat split; vm_compute; reflexivity.
Qed.

(** ** Tiled axes are reconstructed exactly

    The other side of C2: on an axis that needs tiling, an element of a whole
    number of tiles is reconstructed without a seam. *)

Lemma Qfloor_unique (q : Q) (z : Z) :
  inject_Z z <= q -> q < inject_Z (z + 1) -> Qfloor q = z.
Proof.
  intros Hlo Hhi.
  pose proof (Qfloor_le q) as H1. pose proof (Qlt_floor q) as H2.
  assert (Ha : (Qfloor q < z + 1)%Z) by (rewrite Zlt_Qlt; lra).
  assert (Hb : (z < Qfloor q + 1)%Z) by (rewrite Zlt_Qlt; lra).
  lia.
Qed.

Lemma Qtrunc_nonneg (q : Q) : 0 <= q -> Qtrunc q = Qfloor q.
Proof.
  destruct q as [n d]. unfold Qle, Qtrunc, Qfloor. simpl. intros H.
  apply Z.quot_div_nonneg; lia.
Qed.

Lemma inject_Z_nonneg (z : Z) : (0 <= z)%Z -> 0 <= inject_Z z.
Proof. intros H. change 0 with (inject_Z 0). rewrite <- Zle_Qle. exact H. Qed.

Lemma inject_Z_pos (z : Z) : (0 < z)%Z -> 0 < inject_Z z.
Proof. intros H. change 0 with (inject_Z 0). rewrite <- Zlt_Qlt. exact H. Qed.

Section Axis.

(** One axis: tiles of [a] pixels, an element of [k] tiles that starts at
    [origin], and a pixel [x] of it. *)
Variables (tile size origin : number) (a k x : Z).
Hypothesis Htile : tile == inject_Z a.
Hypothesis Ha : (0 < a)%Z.
Hypothesis Hsize : size == inject_Z (k * a).
Hypothesis Hx : (0 <= x < k * a)%Z.

Lemma axis_tile_pos : 0 < tile.
Proof. rewrite Htile. apply inject_Z_pos. exact Ha. Qed.

Lemma axis_count : Math_ceil (size / tile) = k.
Proof.
  unfold Math_ceil.
  assert (E : size / tile == inject_Z k).
  { rewrite Hsize, Htile, inject_Z_mult. field.
    pose proof (inject_Z_pos Ha) as Hp. intros H. rewrite H in Hp.
    apply (Qlt_irrefl _ Hp). }
  rewrite (Qceiling_comp _ _ E). apply Qceiling_Z.
Qed.

Lemma axis_floor : Math_floor (inject_Z x / tile) = (x / a)%Z.
Proof.
  unfold Math_floor.
  assert (E : inject_Z x / tile == inject_Z x / inject_Z a) by (rewrite Htile; reflexivity).
  rewrite (Qfloor_comp _ _ E). symmetry. apply Zdiv_Qdiv.
Qed.

Lemma axis_rem : rem (inject_Z x) tile == inject_Z (x mod a).
Proof.
  unfold rem.
  assert (Hq : 0 <= inject_Z x / tile).
  { apply Qle_shift_div_l; [apply axis_tile_pos | ].
    assert (H : 0 <= inject_Z x) by (apply inject_Z_nonneg; lia). lra. }
  rewrite (Qtrunc_nonneg Hq).
  change (Qfloor (inject_Z x / tile)) with (Math_floor (inject_Z x / tile)).
  rewrite axis_floor, Htile.
  rewrite (Z.mod_eq x a) by lia.
  unfold Z.sub. rewrite inject_Z_plus, inject_Z_opp, inject_Z_mult. ring.
Qed.

Lemma axis_offset : Math_round (Math_max 0 (inject_Z k * tile - size)) = 0%Z.
Proof.
  assert (E : Math_max 0 (inject_Z k * tile - size) == inject_Z 0).
  { unfold Math_max. rewrite Hsize, Htile, inject_Z_mult.
    assert (E0 : inject_Z k * inject_Z a - inject_Z k * inject_Z a == 0) by ring.
    rewrite E0. apply Q.max_id. }
  unfold Math_round.
  assert (E1 : Math_max 0 (inject_Z k * tile - size) + (1 # 2) == inject_Z 0 + (1 # 2))
    by (rewrite E; reflexivity).
  rewrite (Qfloor_comp _ _ E1). apply (Math_round_Z 0).
Qed.

Lemma axis_scroll_target :
  Math_min (tile * inject_Z (x / a) + origin) (Math_max 0 (origin + size - tile))
  == tile * inject_Z (x / a) + origin.
Proof.
  unfold Math_min. apply Q.min_l.
  apply Qle_trans with (origin + size - tile); [ | apply Q.le_max_r].
  rewrite Hsize, Htile, inject_Z_mult.
  assert (H : (x / a <= k - 1)%Z).
  { assert (x / a < k)%Z by (apply Z.div_lt_upper_bound; lia). lia. }
  rewrite Zle_Qle in H. unfold Z.sub in H.
  rewrite inject_Z_plus, inject_Z_opp in H. change (inject_Z 1) with 1 in H.
  assert (Hq : 0 < inject_Z a) by (apply inject_Z_pos; exact Ha).
  assert (Hm : inject_Z a * inject_Z (x / a) <= inject_Z a * (inject_Z k - 1)).
  { rewrite !(Qmult_comm (inject_Z a)). apply Qmult_le_compat_r; lra. }
  lra.
Qed.

Lemma axis_mod_bounds : 0 <= inject_Z (x mod a) /\ inject_Z (x mod a) < tile.
Proof.
  pose proof (Z.mod_pos_bound x a Ha) as [H0 H1].
  rewrite Htile. split; [apply inject_Z_nonneg; exact H0 | ].
  rewrite <- Zlt_Qlt. exact H1.
Qed.

Lemma axis_split : inject_Z a * inject_Z (x / a) + inject_Z (x mod a) == inject_Z x.
Proof.
  rewrite <- inject_Z_mult, <- inject_Z_plus.
  rewrite <- (Z.div_mod x a) by lia. reflexivity.
Qed.

End Axis.

Section TiledAxes.

Variable scrollBarWidth : number.
Variables windowRect elementRect : ElementRect.
Variable isScreenshotWithoutScrollBar : bool.
Variables a b k m : Z.

Local Abbreviation vw := (viewportWidth scrollBarWidth windowRect elementRect).
Local Abbreviation vh := (viewportHeight scrollBarWidth windowRect elementRect).
Local Abbreviation nrect := (normalizedElementRect windowRect elementRect).
Local Abbreviation stride :=
  (tileStride scrollBarWidth windowRect elementRect isScreenshotWithoutScrollBar).

Hypothesis Hbar : 0 <= scrollBarWidth.
Hypothesis HtiledX : isFitHorizontally windowRect elementRect = false.
Hypothesis HtiledY : isFitVertically windowRect elementRect = false.
Hypothesis Hvw : vw == inject_Z a.
Hypothesis Ha : (0 < a)%Z.
Hypothesis Hwidth : width elementRect == inject_Z (k * a).
Hypothesis Hvh : vh == inject_Z b.
Hypothesis Hb : (0 < b)%Z.
Hypothesis Hheight : height elementRect == inject_Z (m * b).

Lemma tiled_cols : cols scrollBarWidth windowRect elementRect = k.
Proof. unfold cols. eapply axis_count; eassumption. Qed.

Lemma tiled_rows : rows scrollBarWidth windowRect elementRect = m.
Proof. unfold rows. eapply axis_count; eassumption. Qed.

Lemma tiled_xOffset : xOffset scrollBarWidth windowRect elementRect = 0%Z.
Proof.
  unfold xOffset. rewrite HtiledX, tiled_cols.
  eapply axis_offset; eassumption.
Qed.

Lemma tiled_yOffset : yOffset scrollBarWidth windowRect elementRect = 0%Z.
Proof.
  unfold yOffset. rewrite HtiledY, tiled_rows.
  eapply axis_offset; eassumption.
Qed.

Lemma tiled_compositeWidth : compositeWidth elementRect = (k * a)%Z.
Proof.
  unfold compositeWidth, Math_round.
  assert (E : width elementRect + (1 # 2) == inject_Z (k * a) + (1 # 2))
    by (rewrite Hwidth; reflexivity).
  rewrite (Qfloor_comp _ _ E). apply (Math_round_Z (k * a)).
Qed.

Lemma tiled_compositeHeight : compositeHeight elementRect = (m * b)%Z.
Proof.
  unfold compositeHeight, Math_round.
  assert (E : height elementRect + (1 # 2) == inject_Z (m * b) + (1 # 2))
    by (rewrite Hheight; reflexivity).
  rewrite (Qfloor_comp _ _ E). apply (Math_round_Z (m * b)).
Qed.

Variables x y : Z.
Hypothesis Hx : (0 <= x < k * a)%Z.
Hypothesis Hy : (0 <= y < m * b)%Z.

Lemma tiled_pixelCol : pixelCol scrollBarWidth windowRect elementRect x = (x / a)%Z.
Proof. unfold pixelCol. apply axis_floor. exact Hvw. Qed.

Lemma tiled_pixelRow : pixelRow scrollBarWidth windowRect elementRect y = (y / b)%Z.
Proof. unfold pixelRow. apply axis_floor. exact Hvh. Qed.

Lemma tiled_dx :
  dx scrollBarWidth windowRect elementRect (x / a)
  == vw * inject_Z (x / a) + norm_left nrect.
Proof.
  unfold dx.
  assert (E : norm_right nrect - vw == norm_left nrect + width elementRect - vw)
    by (unfold normalizedElementRect; simpl; ring).
  unfold Math_min, Math_max. rewrite E.
  eapply axis_scroll_target; eassumption.
Qed.

Lemma tiled_dy :
  dy scrollBarWidth windowRect elementRect (y / b)
  == vh * inject_Z (y / b) + norm_top nrect.
Proof.
  unfold dy.
  assert (E : norm_bottom nrect - vh == norm_top nrect + height elementRect - vh)
    by (unfold normalizedElementRect; simpl; ring).
  unfold Math_min, Math_max. rewrite E.
  eapply axis_scroll_target; eassumption.
Qed.

Lemma tiled_stride : vw <= stride.
Proof.
  unfold tileStride, scrollOffset. rewrite HtiledY. simpl.
  destruct isScreenshotWithoutScrollBar; lra.
Qed.

Lemma tiled_sourcePixel :
  sourcePixel scrollBarWidth windowRect elementRect isScreenshotWithoutScrollBar x y
  == inject_Z (y mod b) * stride + inject_Z (x mod a).
Proof.
  unfold sourcePixel, sourceIndex. rewrite tiled_xOffset, tiled_yOffset.
  rewrite (axis_rem k Hvw Ha Hx), (axis_rem m Hvh Hb Hy).
  fold stride. change (inject_Z 0) with 0.
  destruct (isLastRow _ _ _ y), (isLastCol _ _ _ x); field.
Qed.

Lemma tiled_sourceRow :
  sourceRow scrollBarWidth windowRect elementRect isScreenshotWithoutScrollBar x y
  = (y mod b)%Z.
Proof.
  unfold sourceRow, Math_floor.
  pose proof (axis_tile_pos Hvw Ha) as Hpos.
  pose proof tiled_stride as Hs.
  destruct (axis_mod_bounds x Hvw Ha) as [Hm0 Hm1].
  assert (Hstride : 0 < stride) by lra.
  apply Qfloor_unique.
  - apply Qle_shift_div_l; [exact Hstride | ]. rewrite tiled_sourcePixel. lra.
  - apply Qlt_shift_div_r; [exact Hstride | ]. rewrite tiled_sourcePixel.
    rewrite inject_Z_plus. change (inject_Z 1) with 1. lra.
Qed.

Lemma tiled_sourceColumn :
  sourceColumn scrollBarWidth windowRect elementRect isScreenshotWithoutScrollBar x y
  == inject_Z (x mod a).
Proof.
  unfold sourceColumn. rewrite tiled_sourceRow, tiled_sourcePixel. ring.
Qed.

(** On both axes the pixel [(x, y)] of the composite shows the point of the
    page where the pixel [(x, y)] of the element lies. *)
Theorem tiled_axes_reconstructed :
  tileIndex scrollBarWidth windowRect elementRect x y = (y / b * k + x / a)%Z
  /\ shownX scrollBarWidth windowRect elementRect isScreenshotWithoutScrollBar x y
     == elementX windowRect elementRect x
  /\ shownY scrollBarWidth windowRect elementRect isScreenshotWithoutScrollBar x y
     == elementY windowRect elementRect y.
Proof.
  split; [ | split].
  - unfold tileIndex. rewrite tiled_pixelRow, tiled_pixelCol, tiled_cols. reflexivity.
  - unfold shownX, elementX. rewrite tiled_pixelCol, tiled_dx, tiled_sourceColumn, Hvw.
    rewrite <- (axis_split x Ha). ring.
  - unfold shownY, elementY. rewrite tiled_pixelRow, tiled_dy, tiled_sourceRow, Hvh.
    rewrite <- (axis_split y Hb). ring.
Qed.

End TiledAxes.

(** The element of two by two tiles: pixel (1000, 700) of the composite comes
    from the last tile and shows the point (1008, 708) of the page. *)
Example tiled_two_by_two :
  tileIndex 15 viewport800x600 element1570x1170 1000 700 = 3%Z
  /\ shownX 15 viewport800x600 element1570x1170 false 1000 700
     == elementX viewport800x600 element1570x1170 1000
  /\ shownY 15 viewport800x600 element1570x1170 false 1000 700
     == elementY viewport800x600 element1570x1170 700
  /\ elementX viewport800x600 element1570x1170 1000 == 1008
  /\ elementY viewport800x600 element1570x1170 700 == 708.
Proof.
  destruct (@tiled_axes_reconstructed 15 viewport800x600 element1570x1170 false
              785 585 2 2) with (x := 1000%Z) (y := 700%Z) as (Hi & Hx & Hy);
    try reflexivity; try lia; try (vm_compute; discriminate).
  split; [rewrite Hi; reflexivity | ].
  split; [exact Hx | ]. split; [exact Hy | ]. split; reflexivity.
Qed.

(** The same test against the full window height shows in the scenario of
    the 800 by 600 viewport: the element of 1600 by 600 "fits vertically",
    its second row of tiles is scrolled to 15 and read from tile row 0 on,
    so row 590 of the composite shows row 20 of the page. *)
Example scenario_800x600_second_row (isScreenshotWithoutScrollBar : bool) :
  isFitVertically viewport800x600 element1600x600 = true
  /\ pixelRow 15 viewport800x600 element1600x600 590 = 1%Z
  /\ dy 15 viewport800x600 element1600x600 1 == 15
  /\ yOffset 15 viewport800x600 element1600x600 = 0%Z
  /\ elementY viewport800x600 element1600x600 590 == 590
  /\ shownY 15 viewport800x600 element1600x600 isScreenshotWithoutScrollBar 0 590 == 20.
Proof.
  destruct isScreenshotWithoutScrollBar; repeat split; vm_compute; reflexivity.
Qed.

(** ** The reconstruction is seamless on every axis it handles *)

Lemma Qceiling_unique (q : Q) (z : Z) :
  inject_Z z - 1 < q -> q <= inject_Z z -> Qceiling q = z.
Proof.
  intros Hlo Hhi.
  destruct (Math_ceil_bounds q) as [H1 H2]. unfold Math_ceil in H1, H2.
  assert (Ha : (z < Qceiling q + 1)%Z).
  { rewrite Zlt_Qlt, inject_Z_plus. change (inject_Z 1) with 1. lra. }
  assert (Hb : (Qceiling q < z + 1)%Z).
  { rewrite Zlt_Qlt, inject_Z_plus. change (inject_Z 1) with 1. lra. }
  lia.
Qed.

Lemma Math_round_inject (q : number) (z : Z) : q == inject_Z z -> Math_round q = z.
Proof.
  intros E. unfold Math_round.
  assert (E1 : q + (1 # 2) == inject_Z z + (1 # 2)) by (rewrite E; reflexivity).
  rewrite (Qfloor_comp _ _ E1). apply (Math_round_Z z).
Qed.

Lemma rem_of_pixel (tile : number) (a x : Z) :
  tile == inject_Z a -> (0 < a)%Z -> (0 <= x)%Z ->
  rem (inject_Z x) tile == inject_Z (x mod a).
Proof.
  intros Htile Ha Hx. apply (@axis_rem tile a (x + 1) x Htile Ha). nia.
Qed.

Section AxisAny.

Variables (tile size origin : number) (a n x : Z) (fit : bool).
Hypothesis Htile : tile == inject_Z a.
Hypothesis Ha : (0 < a)%Z.
Hypothesis Hsize : size == inject_Z n.
Hypothesis Hx : (0 <= x < n)%Z.
Hypothesis Hmode :
  (fit = false /\ tile < origin + size)
  \/ (fit = true /\ exists o, origin == inject_Z o /\ (0 <= o)%Z /\ origin + size <= tile).

Lemma axis_any :
  Z.le 0
    (x mod a
        + (if Math_ceil (size / tile)%Q - Math_floor (inject_Z x / tile)%Q =? 1
           then Math_round
                  (if fit then origin
                   else Math_max 0%Q
                          (inject_Z (Math_ceil (size / tile)) * tile - size)%Q)
           else 0))%Z
  /\ Z.lt
       (x mod a
           + (if Math_ceil (size / tile)%Q - Math_floor (inject_Z x / tile)%Q =? 1
              then Math_round
                     (if fit then origin
                      else Math_max 0%Q
                             (inject_Z (Math_ceil (size / tile)) * tile - size)%Q)
              else 0))%Z
       a
  /\ Math_min (tile * inject_Z (Math_floor (inject_Z x / tile)) + origin)
              (Math_max 0 (origin + size - tile))
     + inject_Z
         (x mod a
             + (if Math_ceil (size / tile)%Q - Math_floor (inject_Z x / tile)%Q =? 1
                then Math_round
                       (if fit then origin
                        else Math_max 0%Q
                               (inject_Z (Math_ceil (size / tile)) * tile - size)%Q)
                else 0))%Z
     == origin + inject_Z x.
Proof.
  set (count := Math_ceil (size / tile)).
  set (off := Math_round (if fit then origin
                          else Math_max 0 (inject_Z count * tile - size))).
  set (c := Math_floor (inject_Z x / tile)).
  set (u := (x mod a + (if (count - c =? 1)%Z then off else 0))%Z).
  set (scroll := Math_min (tile * inject_Z c + origin)
                          (Math_max 0 (origin + size - tile))).
  cut ((0 <= u < a)%Z /\ scroll + inject_Z u == origin + inject_Z x);
    [intros [[H1 H2] H3]; split; [exact H1 | split; [exact H2 | exact H3]] | ].
  assert (Hc : c = (x / a)%Z) by (apply axis_floor; exact Htile).
  pose proof (Z.div_mod x a ltac:(lia)) as Hdm.
  pose proof (Z.mod_pos_bound x a Ha) as Hr.
  assert (Hq0 : (0 <= x / a)%Z) by (apply Z.div_pos; lia).
  assert (Htc : tile * inject_Z c == inject_Z (a * (x / a))).
  { rewrite Hc, Htile, inject_Z_mult. reflexivity. }
  assert (Hxq : inject_Z x == inject_Z (a * (x / a)) + inject_Z (x mod a)).
  { rewrite <- inject_Z_plus, <- Hdm. reflexivity. }
  assert (Hn : 0 < inject_Z n) by (apply inject_Z_pos; lia).
  assert (Hapos : 0 < inject_Z a) by (apply inject_Z_pos; lia).
  destruct Hmode as [[Hfit Hover] | [Hfit (o & Ho & Ho0 & Hin)]].
  - (* the axis is tiled *)
    destruct (@ceil_div_bounds size tile) as [Hk1 Hk2];
      [rewrite Htile; exact Hapos | ]. fold count in Hk1, Hk2.
    rewrite Htile, Hsize, <- inject_Z_mult, <- Zlt_Qlt in Hk1.
    rewrite Htile, Hsize, <- inject_Z_mult, <- Zle_Qle in Hk2.
    assert (Hoff : off = (count * a - n)%Z).
    { subst off. rewrite Hfit. apply Math_round_inject.
      unfold Math_max. rewrite Htile, Hsize, <- inject_Z_mult.
      rewrite Q.max_r.
      - unfold Z.sub. rewrite inject_Z_plus, inject_Z_opp. reflexivity.
      - assert (H : (0 <= count * a - n)%Z) by lia.
        apply inject_Z_nonneg in H. unfold Z.sub in H.
        rewrite inject_Z_plus, inject_Z_opp in H. exact H. }
    assert (Hqk : (x / a <= count - 1)%Z).
    { assert (x / a < count)%Z by (apply Z.div_lt_upper_bound; nia). lia. }
    subst u scroll. rewrite Hoff, Htc, Hc.
    destruct (count - x / a =? 1)%Z eqn:Hlast.
    + apply Z.eqb_eq in Hlast.
      assert (Hu : (x mod a + (count * a - n) = x - n + a)%Z) by nia.
      split; [nia | ].
      rewrite Hu. unfold Math_min, Math_max.
      rewrite (Q.max_r 0 (origin + size - tile)) by lra.
      rewrite Q.min_r.
      * unfold Z.sub. rewrite !inject_Z_plus, inject_Z_opp, Hsize, Htile. ring.
      * rewrite Hsize, Htile.
        assert (H : (n - a <= a * (x / a))%Z) by nia.
        rewrite Zle_Qle in H. unfold Z.sub in H.
        rewrite inject_Z_plus, inject_Z_opp in H. lra.
    + apply Z.eqb_neq in Hlast.
      split; [lia | ].
      unfold Math_min, Math_max. rewrite Q.min_l.
      * rewrite Z.add_0_r, Hxq. ring.
      * apply Qle_trans with (origin + size - tile); [ | apply Q.le_max_r].
        rewrite Hsize, Htile.
        assert (H : (a * (x / a) + a <= n)%Z) by nia.
        rewrite Zle_Qle, inject_Z_plus in H. lra.
  - (* the element lies inside the tile *)
    rewrite Ho, Hsize, Htile, <- inject_Z_plus, <- Zle_Qle in Hin.
    assert (Hcount : count = 1%Z).
    { subst count. unfold Math_ceil. apply Qceiling_unique.
      - change (inject_Z 1) with 1.
        assert (0 < size / tile).
        { apply Qlt_shift_div_l; [rewrite Htile; exact Hapos | ]. rewrite Hsize. lra. }
        lra.
      - apply Qle_shift_div_r; [rewrite Htile; exact Hapos | ].
        rewrite Hsize, Htile. change (inject_Z 1) with 1.
        assert (H : (n <= a)%Z) by lia. rewrite Zle_Qle in H. lra. }
    assert (Hq : (x / a = 0)%Z) by (apply Z.div_small; lia).
    assert (Hm : (x mod a = x)%Z) by (apply Z.mod_small; lia).
    assert (Hoff : off = o).
    { subst off. rewrite Hfit. apply Math_round_inject. exact Ho. }
    subst u scroll. rewrite Hcount, Hc, Hq, Hoff, Hm. simpl Z.eqb. cbv iota.
    split; [lia | ].
    unfold Math_min, Math_max.
    rewrite (Q.max_l 0 (origin + size - tile)).
    + rewrite Q.min_r.
      * rewrite inject_Z_plus, Ho. ring.
      * change (inject_Z 0) with 0. rewrite Ho.
        apply inject_Z_nonneg in Ho0. lra.
    + rewrite Ho, Hsize, Htile. rewrite Zle_Qle, inject_Z_plus in Hin. lra.
Qed.

End AxisAny.

Section Reconstruction.

Variable scrollBarWidth : number.
Variables windowRect elementRect : ElementRect.
Variable isScreenshotWithoutScrollBar : bool.
Variables a b n h : Z.

Local Abbreviation vw := (viewportWidth scrollBarWidth windowRect elementRect).
Local Abbreviation vh := (viewportHeight scrollBarWidth windowRect elementRect).
Local Abbreviation nrect := (normalizedElementRect windowRect elementRect).
Local Abbreviation stride :=
  (tileStride scrollBarWidth windowRect elementRect isScreenshotWithoutScrollBar).

Hypothesis Hbar : 0 <= scrollBarWidth.
Hypothesis Hvw : vw == inject_Z a.
Hypothesis Ha : (0 < a)%Z.
Hypothesis Hwidth : width elementRect == inject_Z n.
Hypothesis Hvh : vh == inject_Z b.
Hypothesis Hb : (0 < b)%Z.
Hypothesis Hheight : height elementRect == inject_Z h.
Hypothesis HaxisX :
  TiledOrInsideTile (isFitHorizontally windowRect elementRect)
                    (norm_left nrect) (norm_right nrect) vw.
Hypothesis HaxisY :
  TiledOrInsideTile (isFitVertically windowRect elementRect)
                    (norm_top nrect) (norm_bottom nrect) vh.

Variables x y : Z.
Hypothesis Hx : (0 <= x < n)%Z.
Hypothesis Hy : (0 <= y < h)%Z.

Lemma stride_covers_tile : vw <= stride.
Proof.
  unfold tileStride, scrollOffset.
  destruct (isFitVertically windowRect elementRect || isScreenshotWithoutScrollBar); lra.
Qed.

Lemma tile_within_window :
  vw <= width windowRect /\ vh <= height windowRect.
Proof.
  unfold viewportWidth, viewportHeight.
  destruct (isFitVertically windowRect elementRect),
           (isFitHorizontally windowRect elementRect); split; lra.
Qed.

Lemma horizontal_axis_mode :
  (isFitHorizontally windowRect elementRect = false
   /\ vw < norm_left nrect + width elementRect)
  \/ (isFitHorizontally windowRect elementRect = true
      /\ exists o, norm_left nrect == inject_Z o /\ (0 <= o)%Z
                   /\ norm_left nrect + width elementRect <= vw).
Proof.
  destruct tile_within_window as [Hw _].
  destruct (isFitHorizontally windowRect elementRect) eqn:Hfit.
  - right. split; [reflexivity | ].
    destruct HaxisX as [H | (o & Ho & Ho0 & Hfar)]; [discriminate | ].
    exists o. split; [exact Ho | ]. split; [exact Ho0 | ].
    unfold normalizedElementRect in Hfar |- *. simpl in Hfar |- *. lra.
  - left. split; [reflexivity | ].
    apply isFitHorizontally_false in Hfit. lra.
Qed.

Lemma vertical_axis_mode :
  (isFitVertically windowRect elementRect = false
   /\ vh < norm_top nrect + height elementRect)
  \/ (isFitVertically windowRect elementRect = true
      /\ exists o, norm_top nrect == inject_Z o /\ (0 <= o)%Z
                   /\ norm_top nrect + height elementRect <= vh).
Proof.
  destruct tile_within_window as [_ Hw].
  destruct (isFitVertically windowRect elementRect) eqn:Hfit.
  - right. split; [reflexivity | ].
    destruct HaxisY as [H | (o & Ho & Ho0 & Hfar)]; [discriminate | ].
    exists o. split; [exact Ho | ]. split; [exact Ho0 | ].
    unfold normalizedElementRect in Hfar |- *. simpl in Hfar |- *. lra.
  - left. split; [reflexivity | ].
    apply isFitVertically_false in Hfit. lra.
Qed.

Lemma column_in_tile :
  exists u : Z,
    (0 <= u < a)%Z
    /\ (u = x mod a + (if isLastCol scrollBarWidth windowRect elementRect x
                       then xOffset scrollBarWidth windowRect elementRect else 0))%Z
    /\ dx scrollBarWidth windowRect elementRect
          (pixelCol scrollBarWidth windowRect elementRect x) + inject_Z u
       == elementX windowRect elementRect x.
Proof.
  destruct (@axis_any vw (width elementRect) (norm_left nrect) a n x
              (isFitHorizontally windowRect elementRect) Hvw Ha Hwidth Hx horizontal_axis_mode)
    as (Hu0 & Hu1 & Hs).
  eexists. split; [split; [exact Hu0 | exact Hu1] | ]. split; [reflexivity | ].
  unfold elementX. rewrite <- Hs.
  unfold dx, pixelCol, isLastCol, xOffset, cols, pixelCol.
  assert (E : norm_right nrect - vw == norm_left nrect + width elementRect - vw)
    by (unfold normalizedElementRect; simpl; ring).
  unfold Math_min, Math_max. rewrite E. reflexivity.
Qed.

Lemma row_in_tile :
  exists v : Z,
    (0 <= v < b)%Z
    /\ (v = y mod b + (if isLastRow scrollBarWidth windowRect elementRect y
                       then yOffset scrollBarWidth windowRect elementRect else 0))%Z
    /\ dy scrollBarWidth windowRect elementRect
          (pixelRow scrollBarWidth windowRect elementRect y) + inject_Z v
       == elementY windowRect elementRect y.
Proof.
  destruct (@axis_any vh (height elementRect) (norm_top nrect) b h y
              (isFitVertically windowRect elementRect) Hvh Hb Hheight Hy vertical_axis_mode)
    as (Hu0 & Hu1 & Hs).
  eexists. split; [split; [exact Hu0 | exact Hu1] | ]. split; [reflexivity | ].
  unfold elementY. rewrite <- Hs.
  unfold dy, pixelRow, isLastRow, yOffset, rows, pixelRow.
  assert (E : norm_bottom nrect - vh == norm_top nrect + height elementRect - vh)
    by (unfold normalizedElementRect; simpl; ring).
  unfold Math_min, Math_max. rewrite E. reflexivity.
Qed.

Lemma sourcePixel_split :
  sourcePixel scrollBarWidth windowRect elementRect isScreenshotWithoutScrollBar x y
  == inject_Z (y mod b + (if isLastRow scrollBarWidth windowRect elementRect y
                          then yOffset scrollBarWidth windowRect elementRect else 0))
     * stride
     + inject_Z (x mod a + (if isLastCol scrollBarWidth windowRect elementRect x
                            then xOffset scrollBarWidth windowRect elementRect else 0)).
Proof.
  unfold sourcePixel, sourceIndex. fold stride.
  rewrite (@rem_of_pixel vw a x Hvw Ha) by lia.
  rewrite (@rem_of_pixel vh b y Hvh Hb) by lia.
  destruct (isLastRow _ _ _ y), (isLastCol _ _ _ x);
    rewrite ?inject_Z_plus, ?Z.add_0_r; field.
Qed.

Lemma sourceRow_in_tile :
  sourceRow scrollBarWidth windowRect elementRect isScreenshotWithoutScrollBar x y
  = (y mod b + (if isLastRow scrollBarWidth windowRect elementRect y
                then yOffset scrollBarWidth windowRect elementRect else 0))%Z.
Proof.
  destruct column_in_tile as (u & [Hu0 Hu1] & Eu & _).
  destruct row_in_tile as (v & _ & Ev & _).
  pose proof stride_covers_tile as Hs.
  assert (Hua : inject_Z u < vw) by (rewrite Hvw, <- Zlt_Qlt; exact Hu1).
  assert (Hu0' : 0 <= inject_Z u) by (apply inject_Z_nonneg; exact Hu0).
  assert (Hstride : 0 < stride) by lra.
  unfold sourceRow, Math_floor. apply Qfloor_unique.
  - apply Qle_shift_div_l; [exact Hstride | ].
    rewrite sourcePixel_split, <- Eu, <- Ev. lra.
  - apply Qlt_shift_div_r; [exact Hstride | ].
    rewrite sourcePixel_split, <- Eu, <- Ev.
    rewrite inject_Z_plus. change (inject_Z 1) with 1. lra.
Qed.


End Reconstruction.


(** ** Where a pixel of the composite comes from *)

Lemma upto_nth (n : Z) (i : nat) :
  (i < Z.to_nat n)%nat -> nth i (upto n) 0%Z = Z.of_nat i.
Proof.
  intros H. unfold upto. change 0%Z with (Z.of_nat 0).
  rewrite map_nth, seq_nth by exact H. reflexivity.
Qed.

Lemma flat_map_nth {A B : Type} (f : A -> list B) (n : nat) (dA : A) (dB : B) :
  (forall a, List.length (f a) = n) ->
  forall (l : list A) (i j : nat),
    (i < List.length l)%nat -> (j < n)%nat ->
    nth (i * n + j) (flat_map f l) dB = nth j (f (nth i l dA)) dB.
Proof.
  intros Hn. induction l as [ | a l IH]; intros i j Hi Hj; simpl in *; [lia | ].
  destruct i as [ | i]; simpl.
  - rewrite app_nth1 by (rewrite Hn; exact Hj). reflexivity.
  - rewrite app_nth2 by (rewrite Hn; lia).
    rewrite Hn. replace (n + i * n + j - n)%nat with (i * n + j)%nat by lia.
    apply IH; lia.
Qed.

(** The raster is filled row by row: the pixel [(x, y)] is the pixel number
    [y * w + x] of the loops. *)
Lemma pixelOrder_nth (w h x y : Z) :
  (0 <= x < w)%Z -> (0 <= y < h)%Z ->
  nth (Z.to_nat (y * w + x)) (pixelOrder w h) (0, 0)%Z = (x, y)
  /\ (Z.to_nat (y * w + x) < List.length (pixelOrder w h))%nat.
Proof.
  intros Hx Hy.
  assert (E : Z.to_nat (y * w + x) = (Z.to_nat y * Z.to_nat w + Z.to_nat x)%nat).
  { rewrite Z2Nat.inj_add, Z2Nat.inj_mul by nia. reflexivity. }
  assert (Hlen : forall y' : Z, List.length (map (fun x' : Z => (x', y')) (upto w)) = Z.to_nat w).
  { intros y'. rewrite length_map. apply upto_length. }
  split.
  - rewrite E. unfold pixelOrder.
    rewrite (flat_map_nth _ 0%Z (0, 0)%Z Hlen) by (rewrite ?upto_length; lia).
    rewrite upto_nth by lia.
    rewrite (nth_indep _ (0, 0)%Z (0%Z, Z.of_nat (Z.to_nat y)))
      by (rewrite Hlen; lia).
    rewrite (map_nth (fun x' : Z => (x', Z.of_nat (Z.to_nat y)))).
    rewrite upto_nth by lia. rewrite !Z2Nat.id by lia. reflexivity.
  - unfold pixelOrder.
    rewrite (flat_map_length_const _ _ Hlen), upto_length. nia.
Qed.

Lemma collect_nth {A B : Type} (f : A -> option (list B)) (n : nat) (dA : A) (dB : B) :
  forall (l : list A) (d : list B),
    collect f l = Some d ->
    (forall a b, In a l -> f a = Some b -> List.length b = n) ->
    forall i k : nat,
      (i < List.length l)%nat -> (k < n)%nat ->
      exists b, f (nth i l dA) = Some b /\ nth (i * n + k) d dB = nth k b dB.
Proof.
  induction l as [ | a l IH]; intros d Hd Hn i k Hi Hk; simpl in *; [lia | ].
  destruct (f a) as [b | ] eqn:Hfa; [ | discriminate].
  destruct (collect f l) as [bs | ] eqn:Hbs; [ | discriminate].
  inversion Hd; subst d.
  assert (Hb : List.length b = n) by (apply (Hn a b); [left; reflexivity | exact Hfa]).
  destruct i as [ | i]; simpl.
  - exists b. split; [exact Hfa | ]. apply app_nth1. rewrite Hb. exact Hk.
  - destruct (IH bs eq_refl (fun a' b' Hin => Hn a' b' (or_intror Hin)) i k)
      as (b' & Hb' & Hnth); [lia | exact Hk | ].
    exists b'. split; [exact Hb' | ].
    rewrite app_nth2 by (rewrite Hb; lia).
    rewrite Hb. replace (n + i * n + k - n)%nat with (i * n + k)%nat by lia.
    exact Hnth.
Qed.

Lemma collect_length {A B : Type} (f : A -> option (list B)) (n : nat) :
  forall (l : list A) (d : list B),
    collect f l = Some d ->
    (forall a b, In a l -> f a = Some b -> List.length b = n) ->
    List.length d = (List.length l * n)%nat.
Proof.
  induction l as [ | a l IH]; intros d Hd Hn; simpl in *.
  - inversion Hd. reflexivity.
  - destruct (f a) as [b | ] eqn:Hfa; [ | discriminate].
    destruct (collect f l) as [bs | ] eqn:Hbs; [ | discriminate].
    inversion Hd; subst d. rewrite length_app.
    rewrite (Hn a b (or_introl eq_refl) Hfa).
    rewrite (IH bs eq_refl (fun a' b' Hin => Hn a' b' (or_intror Hin))). reflexivity.
Qed.

Lemma copyPixel_length (scrollBarWidth : number) (windowRect elementRect : ElementRect)
  (isScreenshotWithoutScrollBar : bool) (images : list PNG) (xy : Z * Z) (b : list Z) :
  copyPixel scrollBarWidth windowRect elementRect isScreenshotWithoutScrollBar images xy
  = Some b ->
  List.length b = 4%nat.
Proof.
  unfold copyPixel. destruct xy as [x y].
  destruct (imageAt images _) as [image | ]; [ | discriminate].
  intros H. inversion H. reflexivity.
Qed.



(** ** The calls of a composite capture, in order *)

Section EngineSteps.

Context {W : Type} {drv : WebDriver W}.

(** One awaited command adds its call to the trace, keeps the memo of the
    scrollbar width and settles. *)
Lemma await_step {A : Type} (c : Call) (op : W -> Reply A * W) (s : State W) :
  trace (snd (await c op s)) = trace s ++ [c]
  /\ scrollBarWidthCache (snd (await c op s)) = scrollBarWidthCache s
  /\ fst (await c op s) <> Pending.
Proof.
  unfold await, settle, record. simpl.
  destruct (op (world s)) as [[a | t] w]; simpl;
    (split; [reflexivity | split; [reflexivity | discriminate]]).
Qed.

Lemma await_ok {A : Type} (c : Call) (op : W -> Reply A * W) (s s' : State W) (a : A) :
  await c op s = (Ok a, s') ->
  trace s' = trace s ++ [c] /\ scrollBarWidthCache s' = scrollBarWidthCache s.
Proof.
  intros H. destruct (await_step c op s) as (Ht & Hc & _).
  rewrite H in Ht, Hc. split; assumption.
Qed.

Lemma executeScript_ok {A : Type} (c : Call) (script : W -> Reply A * W)
  (s s' : State W) (a : A) :
  executeScript c script s = (Ok a, s') ->
  trace s' = trace s ++ [c] /\ scrollBarWidthCache s' = scrollBarWidthCache s.
Proof. unfold executeScript. apply await_ok. Qed.

Lemma hasScrollBar_ok (s s' : State W) (b : bool) :
  hasScrollBar s = (Ok b, s') ->
  trace s' = trace s ++ [CGetCapabilities; CGetCapabilities]
  /\ scrollBarWidthCache s' = scrollBarWidthCache s.
Proof.
  unfold hasScrollBar, getCapabilities, bind, ret. intros H.
  destruct (await CGetCapabilities wd_getCapabilities s) as [[caps | t | ] s1] eqn:H1;
    try discriminate.
  destruct (await CGetCapabilities wd_getCapabilities s1) as [[caps' | t | ] s2] eqn:H2;
    try discriminate.
  inversion H; subst.
  destruct (await_ok _ _ _ H1) as [Ht1 Hc1]. destruct (await_ok _ _ _ H2) as [Ht2 Hc2].
  split; [rewrite Ht2, Ht1, <- app_assoc; reflexivity | congruence].
Qed.

Lemma getScrollBarWidth_ok (s s' : State W) (v : number) :
  getScrollBarWidth s = (Ok v, s') ->
  scrollBarWidthCache s' = Some v
  /\ trace s' = trace s ++ probeCalls (scrollBarWidthCache s)
  /\ (forall v0, scrollBarWidthCache s = Some v0 -> v = v0).
Proof.
  unfold getScrollBarWidth. destruct (scrollBarWidthCache s) as [v0 | ] eqn:Hc.
  - intros H. inversion H; subst. split; [exact Hc | ].
    split; [simpl; rewrite app_nil_r; reflexivity | ].
    intros v1 E. inversion E. reflexivity.
  - unfold bind.
    destruct (executeScript CScriptScrollBarWidth _ s) as [[v1 | t | ] s1] eqn:H1;
      try discriminate.
    intros H. inversion H; subst. simpl.
    destruct (executeScript_ok _ _ _ H1) as [Ht _].
    split; [reflexivity | ]. split; [exact Ht | discriminate].
Qed.

Lemma captureTiles_ok (targets : list (number * number)) :
  forall (s s' : State W) (screens : list PNG),
    captureTiles targets s = (Ok screens, s') ->
    trace s' = trace s ++ tileCalls targets
    /\ scrollBarWidthCache s' = scrollBarWidthCache s.
Proof.
  induction targets as [ | [x y] rest IH]; intros s s' screens H; simpl in H.
  - inversion H; subst. simpl. rewrite app_nil_r. split; reflexivity.
  - unfold bind in H.
    destruct (executeScript (CScriptScrollTo x y) _ s) as [[[] | t | ] s1] eqn:H1;
      try discriminate.
    destruct (await CTakeScreenshot wd_takeScreenshot s1) as [[screen | t | ] s2] eqn:H2;
      try discriminate.
    destruct (captureTiles rest s2) as [[screens' | t | ] s3] eqn:H3; try discriminate.
    inversion H; subst.
    destruct (executeScript_ok _ _ _ H1) as [Ht1 Hc1].
    destruct (await_ok _ _ _ H2) as [Ht2 Hc2].
    destruct (IH _ _ _ H3) as [Ht3 Hc3].
    split; [ | congruence].
    rewrite Ht3, Ht2, Ht1. simpl. rewrite <- !app_assoc. reflexivity.
Qed.

Lemma tileCalls_length (targets : list (number * number)) :
  List.length (tileCalls targets) = (List.length targets * 2)%nat.
Proof.
  unfold tileCalls. apply flat_map_length_const. intros t. reflexivity.
Qed.

End EngineSteps.

(** What a composite capture that returns has done. *)
Lemma takeCompositeScreenshot_returned {W : Type} {drv : WebDriver W}
  (windowRect elementRect : ElementRect) (s s' : State W) (png : PNG) :
  takeCompositeScreenshot windowRect elementRect s = (Ok png, s') ->
  exists scrollBarWidth,
    scrollBarWidthCache s' = Some scrollBarWidth
    /\ (forall v, scrollBarWidthCache s = Some v -> scrollBarWidth = v)
    /\ trace s'
       = trace s ++ [CGetCapabilities; CGetCapabilities]
         ++ probeCalls (scrollBarWidthCache s)
         ++ tileCalls (scrollTargets scrollBarWidth windowRect elementRect)
    /\ png_width png = compositeWidth elementRect
    /\ png_height png = compositeHeight elementRect.
Proof.
  unfold takeCompositeScreenshot, bind. intros H.
  destruct (hasScrollBar s) as [[withScrollBar | t | ] s1] eqn:H1; try discriminate.
  destruct (getScrollBarWidth s1) as [[scrollBarWidth | t | ] s2] eqn:H2; try discriminate.
  destruct (captureTiles _ s2) as [[screens | t | ] s3] eqn:H3; try discriminate.
  destruct (compositeImage _ _ _ _ _) as [image | ] eqn:H4; [ | discriminate].
  inversion H; subst image s3; clear H.
  destruct (hasScrollBar_ok _ H1) as [Ht1 Hc1].
  destruct (getScrollBarWidth_ok _ H2) as (Hc2 & Ht2 & Hsame).
  destruct (captureTiles_ok _ _ H3) as [Ht3 Hc3].
  exists scrollBarWidth.
  split; [congruence | ].
  split; [intros v Hv; apply Hsame; congruence | ].
  split; [rewrite Ht3, Ht2, Ht1, Hc1, <- !app_assoc; reflexivity | ].
  unfold compositeImage in H4. cbv zeta in H4.
  destruct (collect _ _) as [d | ]; [ | discriminate].
  inversion H4. split; reflexivity.
Qed.

(** The calls of a composite capture after the capabilities are read hold
    no screenshot of an element. *)
Lemma composite_calls_without_element_screenshot (cache : option number)
  (targets : list (number * number)) (selector : string) :
  ~ In (CElementScreenshot selector)
       ([CGetCapabilities; CGetCapabilities] ++ probeCalls cache ++ tileCalls targets).
Proof.
  intros Hin. apply in_app_or in Hin. destruct Hin as [Hin | Hin].
  - destruct Hin as [E | [E | []]]; discriminate E.
  - apply in_app_or in Hin. destruct Hin as [Hin | Hin].
    + unfold probeCalls in Hin. destruct cache as [v | ].
      * destruct Hin.
      * destruct Hin as [E | []]; discriminate E.
    + unfold tileCalls in Hin. apply in_flat_map in Hin.
      destruct Hin as ([x y] & _ & Hin).
      destruct Hin as [E | [E | []]]; discriminate E.
Qed.

(** For rects and a scrollbar width that doubles hold exactly, and tile
    sizes that are not zero: a composite capture that returns, with the
    width [scrollBarWidth] in the memo afterwards, has read the capabilities
    twice, measured the scrollbar width unless it was memoised, and then,
    for each tile in row-major order, scrolled to the tile's target and shot
    the viewport: [2 * rows * cols] calls for the tiles, and nothing else.
    The width in the memo is the one that was memoised before, if any; the
    raster returned has the rounded size of the element. *)
Theorem composite_capture_calls {W : Type} {drv : WebDriver W}
  (scrollBarWidth : number) (windowRect elementRect : ElementRect)
  (s s' : State W) (png : PNG) :
  isPixelExact scrollBarWidth = true ->
  isPixelExactRect windowRect = true ->
  isPixelExactRect elementRect = true ->
  ~ viewportWidth scrollBarWidth windowRect elementRect == 0 ->
  ~ viewportHeight scrollBarWidth windowRect elementRect == 0 ->
  takeCompositeScreenshot windowRect elementRect s = (Ok png, s') ->
  scrollBarWidthCache s' = Some scrollBarWidth ->
  (forall v, scrollBarWidthCache s = Some v -> scrollBarWidth = v)
  /\ trace s'
     = trace s ++ [CGetCapabilities; CGetCapabilities]
       ++ probeCalls (scrollBarWidthCache s)
       ++ tileCalls (scrollTargets scrollBarWidth windowRect elementRect)
  /\ List.length (tileCalls (scrollTargets scrollBarWidth windowRect elementRect))
     = (Z.to_nat (rows scrollBarWidth windowRect elementRect)
        * Z.to_nat (cols scrollBarWidth windowRect elementRect) * 2)%nat
  /\ png_width png = compositeWidth elementRect
  /\ png_height png = compositeHeight elementRect.
Proof.
  intros _ _ _ _ _ Hrun Hmemo.
  destruct (takeCompositeScreenshot_returned _ _ _ Hrun)
    as (v & Hc & Hsame & Ht & Hw & Hh).
  assert (E : v = scrollBarWidth) by congruence. subst v.
  split; [exact Hsame | ]. split; [exact Ht | ].
  split; [rewrite tileCalls_length, scrollTargets_length; reflexivity | ].
  split; [exact Hw | exact Hh].
Qed.

(** The element of 60 by 20 in the window of 40 by 40, on the sample page
    with its scrollbar of 15: tiles of 40 by 25, two columns and one row,
    the second tile scrolled to 20. *)
Lemma composite_capture_calls_witness :
  exists png s',
    takeCompositeScreenshot window40x40 element60x20 (start toyPage) = (Ok png, s')
    /\ scrollBarWidthCache s' = Some 15
    /\ viewportWidth 15 window40x40 element60x20 == 40
    /\ viewportHeight 15 window40x40 element60x20 == 25
    /\ trace s'
       = trace (start toyPage) ++ [CGetCapabilities; CGetCapabilities]
         ++ probeCalls None ++ tileCalls (scrollTargets 15 window40x40 element60x20)
    /\ tileCalls (scrollTargets 15 window40x40 element60x20)
       = [CScriptScrollTo 0 0; CTakeScreenshot; CScriptScrollTo 20 0; CTakeScreenshot]
    /\ png_width png = 60%Z /\ png_height png = 20%Z.
Proof.
  pose (r := takeCompositeScreenshot window40x40 element60x20 (start toyPage)).
  pose (png := match fst r with Ok p => p | _ => onePixel end).
  assert (Hrun : takeCompositeScreenshot window40x40 element60x20 (start toyPage)
                 = (Ok png, snd r)) by (vm_compute; reflexivity).
  assert (Hmemo : scrollBarWidthCache (snd r) = Some 15) by (vm_compute; reflexivity).
  assert (Hvw : ~ viewportWidth 15 window40x40 element60x20 == 0)
    by (vm_compute; discriminate).
  assert (Hvh : ~ viewportHeight 15 window40x40 element60x20 == 0)
    by (vm_compute; discriminate).
  destruct (@composite_capture_calls Toy ToyDriver 15 window40x40 element60x20
              (start toyPage) (snd r) png eq_refl eq_refl eq_refl Hvw Hvh Hrun Hmemo)
    as (_ & Ht & _ & Hw & Hh).
  exists png, (snd r). split; [exact Hrun | ]. split; [exact Hmemo | ].
  split; [vm_compute; reflexivity | ]. split; [vm_compute; reflexivity | ].
  split; [exact Ht | ]. split; [vm_compute; reflexivity | ].
  split; [rewrite Hw | rewrite Hh]; vm_compute; reflexivity.
Defined.

(** ** The scrollbar width is measured once *)

Section Memo.

Context {W : Type} {drv : WebDriver W}.

Variable v : number.
Variable P : Call -> Prop.

Lemma KeepsMemo_ret {A : Type} (a : A) : KeepsMemo v P (ret (W := W) a).
Proof.
  intros s Hs. simpl. split; [exact Hs | ].
  exists []. rewrite app_nil_r. auto.
Qed.

Lemma KeepsMemo_throw {A : Type} (t : Thrown) : KeepsMemo v P (@throw W A t).
Proof.
  intros s Hs. simpl. split; [exact Hs | ].
  exists []. rewrite app_nil_r. auto.
Qed.

Lemma KeepsMemo_bind {A B : Type} (m : M W A) (k : A -> M W B) :
  KeepsMemo v P m -> (forall a, KeepsMemo v P (k a)) -> KeepsMemo v P (bind m k).
Proof.
  intros Hm Hk s Hs. unfold bind.
  destruct (Hm s Hs) as (Hc & calls & Ht & Hp).
  destruct (m s) as [[a | t | ] s1]; simpl in *.
  - destruct (Hk a s1 Hc) as (Hc' & calls' & Ht' & Hp').
    split; [exact Hc' | ].
    exists (calls ++ calls'). rewrite Ht', Ht, app_assoc.
    split; [reflexivity | apply Forall_app; auto].
  - split; [exact Hc | ]. exists calls. auto.
  - split; [exact Hc | ]. exists calls. auto.
Qed.

Lemma KeepsMemo_await {A : Type} (c : Call) (op : W -> Reply A * W) :
  P c -> KeepsMemo v P (await c op).
Proof.
  intros Hc s Hs. destruct (await_step c op s) as (Ht & Hm & _).
  split; [rewrite Hm; exact Hs | ]. exists [c]. auto.
Qed.

Lemma KeepsMemo_executeScript {A : Type} (c : Call) (script : W -> Reply A * W) :
  P c -> KeepsMemo v P (executeScript c script).
Proof. intros Hc. unfold executeScript. apply KeepsMemo_await. exact Hc. Qed.

Lemma KeepsMemo_tryFinally {A : Type} (body : M W A) (cleanup : M W unit) :
  KeepsMemo v P body -> KeepsMemo v P cleanup -> KeepsMemo v P (tryFinally body cleanup).
Proof.
  intros Hb Hc s Hs. unfold tryFinally.
  destruct (Hb s Hs) as (Hm & calls & Ht & Hp).
  destruct (body s) as [[a | t | ] s1]; simpl in *;
    try (split; [exact Hm | exists calls; auto]);
    destruct (Hc s1 Hm) as (Hm' & calls' & Ht' & Hp');
    destruct (cleanup s1) as [[u | t' | ] s2]; simpl in *;
    (split; [exact Hm' | ]);
    exists (calls ++ calls'); rewrite Ht', Ht, app_assoc;
    (split; [reflexivity | apply Forall_app; auto]).
Qed.

End Memo.

Section MemoOfCaptures.

Context {W : Type} {drv : WebDriver W}.

Variable v : number.

Local Ltac memo_step :=
  first [ apply KeepsMemo_ret | apply KeepsMemo_throw
        | apply KeepsMemo_await; discriminate
        | apply KeepsMemo_executeScript; discriminate
        | apply KeepsMemo_bind; [ | intros ? ] ].

Lemma getScrollBarWidth_memoised (s : State W) :
  scrollBarWidthCache s = Some v -> getScrollBarWidth s = (Ok v, s).
Proof. intros H. unfold getScrollBarWidth. rewrite H. reflexivity. Qed.

Lemma getScrollBarWidth_keeps : KeepsMemo v notScrollBarProbe getScrollBarWidth.
Proof.
  intros s Hs. rewrite (getScrollBarWidth_memoised s Hs). simpl.
  split; [exact Hs | ]. exists []. rewrite app_nil_r. auto.
Qed.

Lemma captureTiles_keeps (targets : list (number * number)) :
  KeepsMemo v notScrollBarProbe (captureTiles targets).
Proof.
  induction targets as [ | [x y] rest IH]; simpl.
  - apply KeepsMemo_ret.
  - repeat memo_step. exact IH.
Qed.

Lemma takeCompositeScreenshot_keeps (windowRect elementRect : ElementRect) :
  KeepsMemo v notScrollBarProbe (takeCompositeScreenshot windowRect elementRect).
Proof.
  unfold takeCompositeScreenshot, hasScrollBar, getCapabilities.
  apply KeepsMemo_bind; [repeat memo_step | intros withScrollBar].
  apply KeepsMemo_bind; [apply getScrollBarWidth_keeps | intros scrollBarWidth].
  apply KeepsMemo_bind; [apply captureTiles_keeps | intros screens].
  destruct (compositeImage _ _ _ _ _); memo_step.
Qed.

Lemma capture_keeps (captureElement : JsOpt string) :
  KeepsMemo v notScrollBarProbe (capture captureElement).
Proof.
  unfold capture.
  destruct captureElement as [ | | selector]; try memo_step.
  destruct (isEmpty selector); [memo_step | ].
  apply KeepsMemo_bind; [memo_step | intros [[elementRect windowRect] | ]].
  - destruct (isFitIntoViewport elementRect windowRect);
      [memo_step | apply takeCompositeScreenshot_keeps].
  - memo_step.
Qed.

Lemma takeScreenshot_keeps (captureElement : JsOpt string) (ignoreElements : IgnoreElements) :
  KeepsMemo v notScrollBarProbe (takeScreenshot captureElement ignoreElements).
Proof.
  unfold takeScreenshot.
  apply KeepsMemo_bind.
  - unfold insertIgnoreStyles.
    destruct (List.length (ignoreSelectors ignoreElements) =? 0)%nat; repeat memo_step.
  - intros ignoreStyles. apply KeepsMemo_tryFinally; [apply capture_keeps | ].
    destruct ignoreStyles as [h | ]; simpl; memo_step.
Qed.

End MemoOfCaptures.

(** Once a scrollbar width is memoised, [getScrollBarWidth] returns it
    without any call to the browser, and a whole [takeScreenshot], whatever
    its capture path and whatever the browser answers, leaves the memo as it
    is and never sends the measuring script again. *)
Theorem scrollbar_width_measured_once {W : Type} {drv : WebDriver W}
  (captureElement : JsOpt string) (ignoreElements : IgnoreElements)
  (s : State W) (v : number) :
  scrollBarWidthCache s = Some v ->
  getScrollBarWidth s = (Ok v, s)
  /\ scrollBarWidthCache (snd (takeScreenshot captureElement ignoreElements s)) = Some v
  /\ exists calls,
       trace (snd (takeScreenshot captureElement ignoreElements s)) = trace s ++ calls
       /\ ~ In CScriptScrollBarWidth calls.
Proof.
  intros Hs. split; [apply getScrollBarWidth_memoised; exact Hs | ].
  destruct (takeScreenshot_keeps captureElement ignoreElements s Hs)
    as (Hm & calls & Ht & Hp).
  split; [exact Hm | ]. exists calls. split; [exact Ht | ].
  intros Hin. rewrite Forall_forall in Hp. apply (Hp _ Hin). reflexivity.
Qed.

(** On the sample page with a measured width of 15: the capture of the
    element that overflows the viewport keeps the memo. *)
Lemma scrollbar_width_measured_once_witness :
  getScrollBarWidth toyPageMeasured = (Ok 15, toyPageMeasured)
  /\ scrollBarWidthCache
       (snd (takeScreenshot (JValue "#root"%string) (IgnoreString ".date") toyPageMeasured))
     = Some 15.
Proof.
  destruct (@scrollbar_width_measured_once Toy ToyDriver (JValue "#root"%string)
              (IgnoreString ".date") toyPageMeasured 15 eq_refl) as (H1 & H2 & _).
  split; [exact H1 | exact H2].
Defined.

(** ** Ignore styles that cannot be inserted *)

(** When the insertion of the ignore styles fails, [takeScreenshot] fails
    with the same error at once: there were selectors to ignore, the
    insertion script is the only call, no capture is attempted and no
    removal is sent. *)
Theorem takeScreenshot_insert_rejected {W : Type} {drv : WebDriver W}
  (captureElement : JsOpt string) (ignoreElements : IgnoreElements)
  (s s1 : State W) (t : Thrown) :
  insertIgnoreStyles ignoreElements s = (Throw t, s1) ->
  takeScreenshot captureElement ignoreElements s = (Throw t, s1)
  /\ ignoreSelectors ignoreElements <> []
  /\ trace s1 = trace s ++ [CScriptInsertIgnoreStyles (ignoreSelectors ignoreElements)].
Proof.
  intros H.
  split; [unfold takeScreenshot, bind; rewrite H; reflexivity | ].
  unfold insertIgnoreStyles in H.
  destruct (ignoreSelectors ignoreElements) as [ | sel sels] eqn:Hsel;
    [discriminate | ].
  split; [discriminate | ].
  simpl in H. unfold bind in H.
  pose proof (await_step (CScriptInsertIgnoreStyles (sel :: sels))
                (fun w => match wd_deliverScript w with
                          | (Resolved _, w') =>
                              match window_CREEVEY_INSERT_IGNORE_STYLES w' with
                              | Some hook => hook (sel :: sels) w'
                              | None =>
                                  (Rejected (notAFunction
                                     "window.__CREEVEY_INSERT_IGNORE_STYLES__"), w')
                              end
                          | (Rejected t', w') => (Rejected t', w')
                          end) s) as (Ht & _).
  unfold executeScript in H.
  destruct (await _ _ s) as [[h | t' | ] s1'] eqn:Hrun; try discriminate.
  inversion H; subst. exact Ht.
Qed.

(** On the page without the addon, a story with one ignore selector. *)
Lemma takeScreenshot_insert_rejected_witness :
  takeScreenshot (JValue "#root"%string) (IgnoreString ".date") (start toyPageWithoutAddon)
  = (Throw (notAFunction "window.__CREEVEY_INSERT_IGNORE_STYLES__"),
     mkState toyPageWithoutAddon [CScriptInsertIgnoreStyles [".date"%string]] None).
Proof.
  refine (proj1 (@takeScreenshot_insert_rejected Toy ToyDriver (JValue "#root"%string)
                   (IgnoreString ".date") (start toyPageWithoutAddon) _ _ _)).
  vm_compute. reflexivity.
Defined.

(** ** The composite path of [takeScreenshot] *)

(** For measured rects that doubles hold exactly.  When the measured
    element does not fit into the viewport, the capture is the composite
    screenshot for the rects as measured, and no screenshot of the element
    is asked for: a capture that returns, with a scrollbar width in the memo
    that doubles hold exactly and tile sizes that are not zero, has sent the
    measuring script, read the capabilities twice, measured the scrollbar
    width unless it was memoised, and scrolled and shot tile after tile, and
    the raster it returns has the rounded size of the element.  With the
    window scrolled to its origin, the composite capture finds that the
    element overflows on at least one axis. *)
Theorem capture_composite_path {W : Type} {drv : WebDriver W}
  (selector : string) (s : State W) (w : W) (elementRect : ElementRect) :
  isEmpty selector = false ->
  wd_deliverScript (world s) = (Resolved tt, w) ->
  document_querySelector selector (window_scrollTo 0 0 w) = Some elementRect ->
  let page := window_scrollTo 0 0 w in
  let windowRect :=
    {| top := inject_Z (Math_round (orNumber (window_scrollY page) (window_pageYOffset page)));
       left := inject_Z (Math_round (orNumber (window_scrollX page) (window_pageXOffset page)));
       width := window_innerWidth page;
       height := window_innerHeight page |} in
  isPixelExactRect elementRect = true ->
  isPixelExactRect windowRect = true ->
  isFitIntoViewport elementRect windowRect = false ->
  capture (JValue selector) s
  = takeCompositeScreenshot windowRect elementRect
      (mkState page (trace s ++ [CScriptMeasure selector]) (scrollBarWidthCache s))
  /\ (forall (png : PNG) (s' : State W) (scrollBarWidth : number),
        capture (JValue selector) s = (Ok png, s') ->
        scrollBarWidthCache s' = Some scrollBarWidth ->
        isPixelExact scrollBarWidth = true ->
        ~ viewportWidth scrollBarWidth windowRect elementRect == 0 ->
        ~ viewportHeight scrollBarWidth windowRect elementRect == 0 ->
        let calls :=
          [CGetCapabilities; CGetCapabilities]
          ++ probeCalls (scrollBarWidthCache s)
          ++ tileCalls (scrollTargets scrollBarWidth windowRect elementRect) in
        trace s' = trace s ++ CScriptMeasure selector :: calls
        /\ ~ In (CElementScreenshot selector) calls
        /\ png_width png = compositeWidth elementRect
        /\ png_height png = compositeHeight elementRect)
  /\ (top windowRect == 0 -> left windowRect == 0 ->
      isFitHorizontally windowRect elementRect = false
      \/ isFitVertically windowRect elementRect = false).
Proof.
  intros He Hd Hq page windowRect _ _ Hfit.
  assert (Hpath : capture (JValue selector) s
                  = takeCompositeScreenshot windowRect elementRect
                      (mkState page (trace s ++ [CScriptMeasure selector])
                               (scrollBarWidthCache s))).
  { unfold capture. rewrite He. unfold bind.
    rewrite (executeScript_delivered _ _ _ Hd).
    unfold measureScript. rewrite Hq. unfold settle, record. simpl.
    fold page. fold windowRect. rewrite Hfit. reflexivity. }
  split; [exact Hpath | ]. split.
  - intros png s' scrollBarWidth Hrun Hmemo _ _ _ calls.
    rewrite Hpath in Hrun.
    destruct (takeCompositeScreenshot_returned _ _ _ Hrun)
      as (v & Hc & _ & Ht & Hw & Hh).
    assert (E : v = scrollBarWidth) by congruence. subst v.
    simpl in Ht.
    split; [rewrite Ht, <- app_assoc; reflexivity | ].
    split; [apply composite_calls_without_element_screenshot | ].
    split; [exact Hw | exact Hh].
  - intros Htop Hleft. clearbody windowRect.
    unfold isFitIntoViewport in Hfit. apply andb_false_iff in Hfit.
    destruct Hfit as [Hfit | Hfit]; [left | right];
      unfold leb in Hfit.
    + apply isFitHorizontally_false.
      assert (Hlt : ~ width elementRect + left elementRect <= width windowRect).
      { intros Hle. apply Qle_bool_iff in Hle. congruence. }
      apply Qnot_le_lt in Hlt. unfold normalizedElementRect. simpl norm_left. lra.
    + apply isFitVertically_false.
      assert (Hlt : ~ height elementRect + top elementRect <= height windowRect).
      { intros Hle. apply Qle_bool_iff in Hle. congruence. }
      apply Qnot_le_lt in Hlt. unfold normalizedElementRect. simpl norm_top. lra.
Qed.

(** On the sample page with the element [.edge], ten pixels wide from 795
    on, which crosses the right edge of the viewport of 800 by 600: the
    capture returns a raster of 10 by 1 after the measuring script, two
    reads of the capabilities, the measure of the scrollbar and one tile,
    scrolled to 5. *)
Lemma capture_composite_path_witness :
  exists png s',
    capture (JValue ".edge"%string) (start toyEdgePage) = (Ok png, s')
    /\ scrollBarWidthCache s' = Some 15
    /\ trace s'
       = [CScriptMeasure ".edge"; CGetCapabilities; CGetCapabilities;
          CScriptScrollBarWidth; CScriptScrollTo 5 0; CTakeScreenshot]
    /\ png_width png = 10%Z /\ png_height png = 1%Z
    /\ (isFitHorizontally viewport800x600 elementAcrossEdge = false
        \/ isFitVertically viewport800x600 elementAcrossEdge = false).
Proof.
  pose (r := capture (JValue ".edge"%string) (start toyEdgePage)).
  pose (png := match fst r with Ok p => p | _ => onePixel end).
  assert (Hrun : capture (JValue ".edge"%string) (start toyEdgePage) = (Ok png, snd r))
    by (vm_compute; reflexivity).
  assert (Hmemo : scrollBarWidthCache (snd r) = Some 15) by (vm_compute; reflexivity).
  destruct (@capture_composite_path Toy ToyDriver ".edge"%string (start toyEdgePage)
              toyEdgePage elementAcrossEdge eq_refl eq_refl eq_refl eq_refl eq_refl eq_refl)
    as (_ & Hcalls & Hfit).
  assert (Hvw : ~ viewportWidth 15 viewport800x600 elementAcrossEdge == 0)
    by (vm_compute; discriminate).
  assert (Hvh : ~ viewportHeight 15 viewport800x600 elementAcrossEdge == 0)
    by (vm_compute; discriminate).
  destruct (Hcalls png (snd r) 15 Hrun Hmemo eq_refl Hvw Hvh) as (Ht & _ & Hw & Hh).
  exists png, (snd r). split; [exact Hrun | ]. split; [exact Hmemo | ].
  split; [rewrite Ht; vm_compute; reflexivity | ].
  split; [rewrite Hw; vm_compute; reflexivity | ].
  split; [rewrite Hh; vm_compute; reflexivity | ].
  apply Hfit; vm_compute; reflexivity.
Defined.

(** ** The major version of the browser *)

(** The first element of [v.split('.')] is [m], a text without a dot,
    exactly when [v] is [m] or begins with [m] and a dot. *)
Lemma beforeDot_major (m : string) :
  beforeDot m = m ->
  forall v : string,
    beforeDot v = m <-> v = m \/ startsWith (m ++ ".") v = true.
Proof.
  induction m as [ | c m IH]; intros Hm v.
  - destruct v as [ | d v]; cbn [beforeDot startsWith append].
    + split; [left; reflexivity | reflexivity].
    + destruct (Ascii.eqb_spec d "."%char) as [-> | Hd]; cbn [beforeDot startsWith append].
      * split; [right; reflexivity | reflexivity].
      * split; [discriminate | ].
        intros [H | H]; [discriminate | ].
        apply andb_prop in H. destruct H as [H _].
        apply Ascii.eqb_eq in H. congruence.
  - cbn [beforeDot] in Hm. destruct (Ascii.eqb_spec c "."%char) as [-> | Hc]; [discriminate | ].
    inversion Hm as [Hm']. rewrite Hm'. specialize (IH Hm').
    destruct v as [ | d v]; cbn [beforeDot startsWith append].
    + split; [discriminate | intros [H | H]; discriminate].
    + destruct (Ascii.eqb_spec d "."%char) as [-> | Hd].
      * split; [discriminate | ].
        intros [H | H]; [inversion H; congruence | ].
        apply andb_prop in H. destruct H as [H _].
        apply Ascii.eqb_eq in H. congruence.
      * split.
        -- intros H. injection H as Hdc Hbv. subst d. apply IH in Hbv.
           destruct Hbv as [Hv | Hv]; [left; rewrite Hv; reflexivity | right].
           rewrite Ascii.eqb_refl. exact Hv.
        -- intros [H | H].
           ++ injection H as Hdc Hvm. subst d v. rewrite Hm'. reflexivity.
           ++ apply andb_prop in H. destruct H as [Hcd H].
              apply Ascii.eqb_eq in Hcd. subst d. f_equal. apply IH. right. exact H.
Qed.

(** [hasScrollBar] reads the capabilities twice and nothing else; it answers
    [false] for Safari, and for firefox when the version read second is 61
    or begins with [61.]: only the major version counts. *)
Theorem hasScrollBar_by_major_version {W : Type} {drv : WebDriver W}
  (s : State W) (caps caps' : Capabilities) (w1 w2 : W) :
  wd_getCapabilities (world s) = (Resolved caps, w1) ->
  wd_getCapabilities w1 = (Resolved caps', w2) ->
  exists withScrollBar,
    hasScrollBar s
    = (Ok withScrollBar,
       mkState w2 (trace s ++ [CGetCapabilities; CGetCapabilities]) (scrollBarWidthCache s))
    /\ (withScrollBar = false <->
        caps_browserName caps = "Safari"%string
        \/ (caps_browserName caps = "firefox"%string
            /\ exists v, caps_browserVersion caps' = Some v
                         /\ (v = "61"%string \/ startsWith "61."%string v = true))).
Proof.
  intros H1 H2. eexists. split.
  - unfold hasScrollBar, getCapabilities, bind, await, settle, record. simpl.
    rewrite H1. simpl. rewrite H2. simpl. rewrite <- app_assoc. reflexivity.
  - rewrite andb_false_iff, !negb_false_iff, andb_true_iff, !String.eqb_eq.
    split; (intros [H | [Hf Hv]]; [left; exact H | right; split; [exact Hf | ]]).
    + destruct (caps_browserVersion caps') as [v | ]; simpl in Hv; [ | discriminate].
      exists v. split; [reflexivity | ].
      apply String.eqb_eq in Hv. apply (@beforeDot_major "61"%string eq_refl). exact Hv.
    + destruct Hv as (v & -> & Hv). simpl. apply String.eqb_eq.
      apply (@beforeDot_major "61"%string eq_refl). exact Hv.
Qed.

(** The sample page in firefox 61.0.2: its screenshots have no scrollbar. *)
Lemma hasScrollBar_by_major_version_witness :
  hasScrollBar (start toyFirefox61Page)
  = (Ok false, mkState toyFirefox61Page [CGetCapabilities; CGetCapabilities] None).
Proof.
  destruct (@hasScrollBar_by_major_version Toy ToyDriver (start toyFirefox61Page)
              firefox61 firefox61 toyFirefox61Page toyFirefox61Page eq_refl eq_refl)
    as (b & Hrun & Hb).
  assert (E : b = false).
  { apply Hb. right. split; [reflexivity | ].
    exists "61.0.2"%string. split; [reflexivity | right; reflexivity]. }
  rewrite Hrun, E. reflexivity.
Defined.

(** ** The pointer is put back once *)

Section MouseReset.

Context {W : Type} {drv : WebDriver W}.

Lemma body_offset_near_origin (size origin : number) :
  0 <= (inject_Z (Math_ceil (-1 * size / 2)) - origin) + origin + size / 2
  /\ (inject_Z (Math_ceil (-1 * size / 2)) - origin) + origin + size / 2 < 1.
Proof.
  destruct (Math_ceil_bounds (-1 * size / 2)) as [Hlo Hhi].
  set (c := inject_Z (Math_ceil (-1 * size / 2))) in *.
  assert (E : -1 * size / 2 == - (size / 2)) by field.
  split; lra.
Qed.

(** The last step of [resetMousePosition], for a browser name and a major
    version. *)
Lemma pointer_move (browserName : string) (browserVersion : option string)
  (s s' : State W) :
  (if (browserName =? "chrome")%string && optEqb browserVersion "70" then
     bodyRect <- executeScript CScriptBodyRect (fun w => (Resolved (document_body_rect w), w)) ;;
     let x := inject_Z (Math_ceil (-1 * width bodyRect / 2)) - left bodyRect in
     let y := inject_Z (Math_ceil (-1 * height bodyRect / 2)) - top bodyRect in
     await (CMoveMouse OriginBody x y) (wd_moveMouse OriginBody x y)
   else if (browserName =? "firefox")%string && optEqb browserVersion "61" then
     await (CMoveMouse OriginViewport 0 1) (wd_moveMouse OriginViewport 0 1)
   else
     await (CMoveMouse OriginViewport 0 0) (wd_moveMouse OriginViewport 0 0)) s
  = (Ok tt, s') ->
  exists body origin x y,
    trace s' = trace s ++ body ++ [CMoveMouse origin x y]
    /\ ((origin = OriginViewport /\ body = [] /\ x = 0 /\ (y = 0 \/ y = 1))
        \/ (origin = OriginBody /\ body = [CScriptBodyRect]
            /\ exists w,
                 wd_deliverScript (world s) = (Resolved tt, w)
                 /\ x = inject_Z (Math_ceil (-1 * width (document_body_rect w) / 2))
                        - left (document_body_rect w)
                 /\ y = inject_Z (Math_ceil (-1 * height (document_body_rect w) / 2))
                        - top (document_body_rect w)
                 /\ 0 <= x + left (document_body_rect w) + width (document_body_rect w) / 2
                 /\ x + left (document_body_rect w) + width (document_body_rect w) / 2 < 1
                 /\ 0 <= y + top (document_body_rect w) + height (document_body_rect w) / 2
                 /\ y + top (document_body_rect w) + height (document_body_rect w) / 2 < 1)).
Proof.
  destruct ((browserName =? "chrome")%string && optEqb browserVersion "70") eqn:Hchrome.
  - unfold bind. intros H.
    destruct (executeScript CScriptBodyRect _ s) as [[bodyRect | t | ] s1] eqn:H1;
      try discriminate.
    cbv zeta in H.
    destruct (executeScript_ok _ _ _ H1) as [Ht1 _].
    destruct (await_ok _ _ _ H) as [Ht2 _].
    assert (Hw : exists w, wd_deliverScript (world s) = (Resolved tt, w)
                           /\ bodyRect = document_body_rect w).
    { unfold executeScript, await, settle, record in H1. simpl in H1.
      destruct (wd_deliverScript (world s)) as [[[] | t] w]; simpl in H1;
        [ | discriminate].
      exists w. split; [reflexivity | ]. inversion H1. reflexivity. }
    destruct Hw as (w & Hd & Hrect). subst bodyRect.
    eexists [CScriptBodyRect], OriginBody, _, _.
    split; [rewrite Ht2, Ht1, <- app_assoc; reflexivity | ].
    right. split; [reflexivity | ]. split; [reflexivity | ].
    exists w. split; [exact Hd | ]. split; [reflexivity | ]. split; [reflexivity | ].
    destruct (body_offset_near_origin (width (document_body_rect w))
                (left (document_body_rect w))) as [Hx0 Hx1].
    destruct (body_offset_near_origin (height (document_body_rect w))
                (top (document_body_rect w))) as [Hy0 Hy1].
    split; [exact Hx0 | ]. split; [exact Hx1 | ]. split; [exact Hy0 | exact Hy1].
  - destruct ((browserName =? "firefox")%string && optEqb browserVersion "61");
      intros H; destruct (await_ok _ _ _ H) as [Ht _].
    + exists [], OriginViewport, 0, 1. split; [exact Ht | ]. left.
      split; [reflexivity | ]. split; [reflexivity | ]. split; [reflexivity | ].
      right; reflexivity.
    + exists [], OriginViewport, 0, 0. split; [exact Ht | ]. left.
      split; [reflexivity | ]. split; [reflexivity | ]. split; [reflexivity | ].
      left; reflexivity.
Qed.

End MouseReset.

(** A [resetMousePosition] that returns has read the capabilities twice, or
    three times when the browser reports no [browserVersion], and has ended
    with one pointer move.  The move is to the point (0, 0) of the viewport,
    or (0, 1); or else it is relative to the body, after the script that
    measures the rect of the body, with the offsets [ceil(-width / 2) - left]
    and [ceil(-height / 2) - top]: counted from the centre of the body, they
    end less than a pixel from the origin of the viewport. *)
Theorem resetMousePosition_moves_once {W : Type} {drv : WebDriver W} (s s' : State W) :
  resetMousePosition s = (Ok tt, s') ->
  exists (reads : nat) (before : State W) body origin x y,
    (reads = 2%nat \/ reads = 3%nat)
    /\ trace before = trace s ++ repeat CGetCapabilities reads
    /\ trace s' = trace before ++ body ++ [CMoveMouse origin x y]
    /\ ((origin = OriginViewport /\ body = [] /\ x = 0 /\ (y = 0 \/ y = 1))
        \/ (origin = OriginBody /\ body = [CScriptBodyRect]
            /\ exists w,
                 wd_deliverScript (world before) = (Resolved tt, w)
                 /\ x = inject_Z (Math_ceil (-1 * width (document_body_rect w) / 2))
                        - left (document_body_rect w)
                 /\ y = inject_Z (Math_ceil (-1 * height (document_body_rect w) / 2))
                        - top (document_body_rect w)
                 /\ 0 <= x + left (document_body_rect w) + width (document_body_rect w) / 2
                 /\ x + left (document_body_rect w) + width (document_body_rect w) / 2 < 1
                 /\ 0 <= y + top (document_body_rect w) + height (document_body_rect w) / 2
                 /\ y + top (document_body_rect w) + height (document_body_rect w) / 2 < 1)).
Proof.
  unfold resetMousePosition, getCapabilities. unfold bind at 1. intros H.
  destruct (await CGetCapabilities wd_getCapabilities s) as [[caps | t | ] s1] eqn:H1;
    try discriminate.
  unfold bind at 1 in H.
  destruct (await CGetCapabilities wd_getCapabilities s1) as [[caps1 | t | ] s2] eqn:H2;
    try discriminate.
  destruct (await_ok _ _ _ H1) as [Ht1 _]. destruct (await_ok _ _ _ H2) as [Ht2 _].
  unfold bind at 1 in H.
  destruct (caps_browserVersion caps1) as [version | ].
  - simpl in H.
    destruct (@pointer_move W drv (caps_browserName caps) (Some (beforeDot version))
                s2 s' H) as (body & origin & x & y & Ht & Hmove).
    exists 2%nat, s2, body, origin, x, y.
    split; [left; reflexivity | ].
    split; [rewrite Ht2, Ht1; simpl; rewrite <- !app_assoc; reflexivity | ].
    split; [exact Ht | exact Hmove].
  - unfold bind at 1 in H.
    destruct (await CGetCapabilities wd_getCapabilities s2) as [[caps2 | t | ] s3] eqn:H3;
      try discriminate.
    destruct (await_ok _ _ _ H3) as [Ht3 _]. simpl in H.
    destruct (@pointer_move W drv (caps_browserName caps)
                (option_map beforeDot (caps_version caps2)) s3 s' H)
      as (body & origin & x & y & Ht & Hmove).
    exists 3%nat, s3, body, origin, x, y.
    split; [right; reflexivity | ].
    split; [rewrite Ht3, Ht2, Ht1; simpl; rewrite <- !app_assoc; reflexivity | ].
    split; [exact Ht | exact Hmove].
Qed.

(** The sample page in chrome 70, which reports its version under
    [version]: three reads, the measure of the body, and one move. *)
Lemma resetMousePosition_moves_once_witness :
  exists (reads : nat) (before : State Toy) body origin x y,
    (reads = 2%nat \/ reads = 3%nat)
    /\ trace before = trace (start toyChrome70Page) ++ repeat CGetCapabilities reads
    /\ trace (snd (resetMousePosition (start toyChrome70Page)))
       = trace before ++ body ++ [CMoveMouse origin x y]
    /\ ((origin = OriginViewport /\ body = [] /\ x = 0 /\ (y = 0 \/ y = 1))
        \/ (origin = OriginBody /\ body = [CScriptBodyRect]
            /\ exists w,
                 wd_deliverScript (world before) = (Resolved tt, w)
                 /\ x = inject_Z (Math_ceil (-1 * width (document_body_rect w) / 2))
                        - left (document_body_rect w)
                 /\ y = inject_Z (Math_ceil (-1 * height (document_body_rect w) / 2))
                        - top (document_body_rect w)
                 /\ 0 <= x + left (document_body_rect w) + width (document_body_rect w) / 2
                 /\ x + left (document_body_rect w) + width (document_body_rect w) / 2 < 1
                 /\ 0 <= y + top (document_body_rect w) + height (document_body_rect w) / 2
                 /\ y + top (document_body_rect w) + height (document_body_rect w) / 2 < 1)).
Proof.
  apply (@resetMousePosition_moves_once Toy ToyDriver (start toyChrome70Page)).
  vm_compute. reflexivity.
Defined.

(** The run on that page: a move by (-400, -300) from the centre of the
    body of 800 by 600. *)
Example resetMousePosition_chrome70 :
  trace (snd (resetMousePosition (start toyChrome70Page)))
  = [CGetCapabilities; CGetCapabilities; CGetCapabilities; CScriptBodyRect;
     CMoveMouse OriginBody (inject_Z (-400) - 0) (inject_Z (-300) - 0)].
Proof. vm_compute. reflexivity. Qed.

(** ** What a story switch has done when it returns *)

Section SwitchFacts.

Context {W : Type} {drv : WebDriver W}.

Lemma resetMousePosition_calls :
  Calls (fun c => isMouseResetCall c = true) (resetMousePosition (W := W)).
Proof.
  unfold resetMousePosition, getCapabilities.
  apply Calls_bind; [apply Calls_await; reflexivity | intros caps].
  apply Calls_bind; [apply Calls_await; reflexivity | intros caps1].
  apply Calls_bind.
  - destruct (caps_browserVersion caps1) as [version | ]; [apply Calls_ret | ].
    apply Calls_bind; [apply Calls_await; reflexivity | intros caps2].
    apply Calls_ret.
  - intros browserVersion.
    destruct (_ && _).
    + apply Calls_bind; [apply Calls_executeScript; reflexivity | intros bodyRect].
      apply Calls_await. reflexivity.
    + destruct (_ && _); apply Calls_await; reflexivity.
Qed.

Lemma selectStory_ok (story : StoryId) (waitForReady : bool) (s s' : State W) :
  selectStory story waitForReady s = (Ok tt, s') ->
  trace s' = trace s ++ [CScriptSelectStory story waitForReady].
Proof.
  unfold selectStory, bind. intros H.
  destruct (executeScript (CScriptSelectStory story waitForReady) _ s)
    as [[errorMessage | t | ] s1] eqn:H1; try discriminate.
  destruct (executeScript_ok _ _ _ H1) as [Ht _].
  destruct errorMessage as [msg | ]; [destruct (isEmpty msg); [ | discriminate] | ];
    inversion H; subst; exact Ht.
Qed.

Lemma resolveCaptureElement_ok (s s' : State W) (r : option string) :
  resolveCaptureElement s = (Ok r, s') ->
  trace s' = trace s ++ [CScriptChildCount]
  /\ captureProperty (ofResolved r) = r.
Proof.
  intros H. split.
  - unfold resolveCaptureElement, bind in H.
    destruct (executeScript CScriptChildCount _ s) as [[n | t | ] s1] eqn:H1;
      try discriminate.
    destruct (executeScript_ok _ _ _ H1) as [Ht _].
    destruct (n =? 0)%nat; [ | destruct (n =? 1)%nat]; inversion H; subst; exact Ht.
  - destruct r as [selector | ]; [ | reflexivity].
    simpl. rewrite (resolveCaptureElement_selector _ H). reflexivity.
Qed.

End SwitchFacts.

(** A [switchStory] that returns had a current test with a story.  It has
    put the pointer back, then selected the story with its [waitForReady],
    and then counted the children of the root container only if the story
    pins no capture element: a pinned [null] or selector is taken as it is.
    The test scope it leaves is the titles from the outermost suite down to
    the test, followed by the browser name; the [captureElement] property
    is defined exactly for a truthy capture target, and [takeScreenshot]
    holds that target and the story's [ignoreElements]. *)
Theorem switchStory_returns {W : Type} {drv : WebDriver W}
  (this this' : Context) (s s' : State W) :
  switchStory this s = (Ok this', s') ->
  exists test input captureElement before after,
    ctx_currentTest this = Some test
    /\ test_story test = Some input
    /\ ctx_browserName this' = ctx_browserName this
    /\ ctx_currentTest this' = ctx_currentTest this
    /\ ctx_testScope this'
       = rev (titlesWhileTruthy (test_titles test)) ++ [ctx_browserName this]
    /\ ctx_takeScreenshot this'
       = Some (captureElement, param_ignoreElements (creeveyParamsOf input))
    /\ ctx_captureElement this' = captureProperty captureElement
    /\ trace s'
       = trace s ++ before
         ++ CScriptSelectStory (input_id input) (waitForReadyOf input) :: after
    /\ Forall (fun c => isMouseResetCall c = true) before
    /\ ((param_captureElement (creeveyParamsOf input) = JUndefined
         /\ after = [CScriptChildCount])
        \/ (param_captureElement (creeveyParamsOf input) = captureElement
            /\ captureElement <> JUndefined /\ after = [])).
Proof.
  unfold switchStory. intros H.
  destruct (ctx_currentTest this) as [test | ] eqn:Htest; [ | discriminate].
  destruct (test_story test) as [input | ] eqn:Hstory; [ | discriminate].
  cbv zeta in H. unfold bind at 1 in H.
  destruct (resetMousePosition_calls s) as (_ & before & Ht1 & Hbefore).
  destruct (resetMousePosition s) as [[[] | t | ] s1]; try discriminate.
  simpl in Ht1. unfold bind at 1 in H.
  destruct (selectStory (input_id input) (waitForReadyOf input) s1)
    as [[[] | t | ] s2] eqn:H2; try discriminate.
  pose proof (selectStory_ok _ _ _ H2) as Ht2.
  unfold bind at 1 in H.
  destruct (param_captureElement (creeveyParamsOf input)) as [ | | selector] eqn:Hpin.
  - unfold bind at 1 in H.
    destruct (resolveCaptureElement s2) as [[r | t | ] s3] eqn:H3; try discriminate.
    destruct (resolveCaptureElement_ok _ H3) as [Ht3 Hprop].
    simpl in H. inversion H; subst this' s'; clear H. simpl.
    exists test, input, (ofResolved r), before, [CScriptChildCount].
    do 7 (split; [first [reflexivity | assumption] | ]).
    split; [rewrite Ht3, Ht2, Ht1, <- !app_assoc; reflexivity | ].
    split; [exact Hbefore | ]. left. split; [exact Hpin | reflexivity].
  - simpl in H. inversion H; subst this' s'; clear H. simpl.
    exists test, input, JNull, before, [].
    do 7 (split; [first [reflexivity | assumption] | ]).
    split; [rewrite Ht2, Ht1, <- !app_assoc; reflexivity | ].
    split; [exact Hbefore | ]. right.
    split; [exact Hpin | ]. split; [discriminate | reflexivity].
  - simpl in H. inversion H; subst this' s'; clear H. simpl.
    exists test, input, (JValue selector), before, [].
    do 7 (split; [first [reflexivity | assumption] | ]).
    split; [rewrite Ht2, Ht1, <- !app_assoc; reflexivity | ].
    split; [exact Hbefore | ]. right.
    split; [exact Hpin | ]. split; [discriminate | reflexivity].
Qed.

(** The story that pins [null], on the sample page: no child is counted,
    and the capture will be the screenshot of the viewport. *)
Lemma switchStory_returns_witness :
  exists this' s',
    switchStory viewportContext (start toyPage) = (Ok this', s')
    /\ ctx_testScope this' = ["Page"; "Full"; "chrome"]%string
    /\ ctx_takeScreenshot this' = Some (JNull, IgnoreString ".date")
    /\ ctx_captureElement this' = None
    /\ ~ In CScriptChildCount (trace s').
Proof.
  pose (r := switchStory viewportContext (start toyPage)).
  pose (this' := match fst r with Ok c => c | _ => viewportContext end).
  assert (Hrun : switchStory viewportContext (start toyPage) = (Ok this', snd r))
    by (vm_compute; reflexivity).
  destruct (switchStory_returns _ _ Hrun)
    as (test & input & captureElement & before & after
        & Htest & Hstory & _ & _ & Hscope & Hshot & Hprop & _).
  injection Htest as <-. injection Hstory as <-.
  exists this', (snd r). split; [exact Hrun | ].
  split; [exact Hscope | ].
  assert (Hc : captureElement = JNull).
  { assert (E : ctx_takeScreenshot this' = Some (JNull, IgnoreString ".date"))
      by (vm_compute; reflexivity).
    rewrite E in Hshot. injection Hshot as <-. reflexivity. }
  subst captureElement.
  split; [exact Hshot | ]. split; [exact Hprop | ].
  vm_compute. intros Hin. repeat (destruct Hin as [Hin | Hin]; [discriminate | ]).
  exact Hin.
Defined.

(** ** The iframe path *)

Lemma stripTrailingSlash_app (url : string) : stripTrailingSlash (url ++ "/") = url.
Proof.
  induction url as [ | c url IH]; [reflexivity | ].
  destruct url as [ | d url]; [reflexivity | ].
  cbn [append stripTrailingSlash] in IH |- *. rewrite IH. reflexivity.
Qed.

Lemma stripTrailingSlash_id (url : string) :
  endsWithSlash url = false -> stripTrailingSlash url = url.
Proof.
  induction url as [ | c url IH]; [reflexivity | ].
  destruct url as [ | d url].
  - cbn [endsWithSlash stripTrailingSlash]. intros H. rewrite H. reflexivity.
  - intros H. cbn [endsWithSlash] in H. specialize (IH H).
    cbn [stripTrailingSlash] in IH |- *. rewrite IH. reflexivity.
Qed.

(** [appendIframePath] drops one trailing slash, and only one: an address
    written with a slash at its end and the same address written without
    give the same page. *)
Theorem appendIframePath_trailing_slash (url : string) :
  appendIframePath (url ++ "/") = (url ++ "/iframe.html")%string
  /\ (endsWithSlash url = true
      \/ appendIframePath url = (url ++ "/iframe.html")%string).
Proof.
  unfold appendIframePath. split.
  - rewrite stripTrailingSlash_app. reflexivity.
  - destruct (endsWithSlash url) eqn:E; [left; reflexivity | right].
    rewrite (stripTrailingSlash_id _ E). reflexivity.
Qed.

(** ** The resolution loop stops at the first answer *)

Section ResolutionLoop.

Context {W : Type} {drv : WebDriver W}.

Variable replaceLocalhost : string -> string -> string.

Lemma tryAddresses_first_answer (check : string -> M W bool) (storybookUrl : string)
  (ip : string) (post : list string) (s1 s' : State W) (r : Outcome bool) :
  check (replaceLocalhost storybookUrl ip) s1 = (r, s') ->
  r <> Ok false ->
  forall (pre : list string) (s : State W),
    Refused check (map (replaceLocalhost storybookUrl) pre) s s1 ->
    tryAddresses replaceLocalhost storybookUrl check (pre ++ ip :: post) s
    = (resolutionOf (replaceLocalhost storybookUrl ip) r, s').
Proof.
  intros Hcheck Hr. induction pre as [ | ip0 pre IH]; intros s Href; simpl.
  - inversion Href; subst. unfold bind. rewrite Hcheck.
    destruct r as [[ | ] | t | ]; [reflexivity | contradiction | reflexivity | reflexivity].
  - inversion Href as [ | url urls s0 s2 s3 Hc0 Hrest]; subst.
    unfold bind. rewrite Hc0. apply IH. exact Hrest.
Qed.

Lemma tryAddresses_throws (check : string -> M W bool) (storybookUrl : string) :
  (forall url s t, fst (check url s) <> Throw t) ->
  forall (ips : list string) (s s' : State W) (t : Thrown),
    tryAddresses replaceLocalhost storybookUrl check ips s = (Throw t, s') ->
    t = ThrownError RESOLVE_URL_ERROR
    /\ Refused check (map (replaceLocalhost storybookUrl) ips) s s'.
Proof.
  intros Hcheck. induction ips as [ | ip ips IH]; intros s s' t H; simpl in H.
  - inversion H; subst. split; [reflexivity | constructor].
  - unfold bind in H.
    destruct (check (replaceLocalhost storybookUrl ip) s) as [[[ | ] | t' | ] s1] eqn:Hc;
      try discriminate.
    + destruct (IH _ _ _ H) as [Ht Href].
      split; [exact Ht | ]. econstructor; [exact Hc | exact Href].
    + exfalso. apply (Hcheck (replaceLocalhost storybookUrl ip) s t').
      rewrite Hc. reflexivity.
Qed.

Lemma getUrlChecker_no_throw (fuel : nat) (url : string) (s : State W) (t : Thrown) :
  fst (getUrlChecker fuel url s) <> Throw t.
Proof.
  unfold getUrlChecker, tryCatch.
  match goal with
  | |- fst (match ?m with _ => _ end) <> _ => destruct m as [[b | t' | ] s1]
  end; simpl; discriminate.
Qed.

End ResolutionLoop.

(** Whatever the checker does, [resolveStorybookUrl] checks the candidates
    in order and stops at the first check that does not answer [false]: it
    returns that candidate when the check answers [true], throws what the
    check throws, and stays pending with a check that is pending.  The
    candidates after it are never checked. *)
Theorem resolution_stops_at_first_answer {W : Type} {drv : WebDriver W}
  (replaceLocalhost : string -> string -> string)
  (networkInterfaces : list (option (list NetworkInterfaceInfo)))
  (check : string -> M W bool) (storybookUrl : string)
  (pre : list string) (ip : string) (post : list string)
  (s s1 s' : State W) (r : Outcome bool) :
  DOCKER_INTERNAL :: ipv4Addresses networkInterfaces = pre ++ ip :: post ->
  Refused check (map (replaceLocalhost storybookUrl) pre) s s1 ->
  check (replaceLocalhost storybookUrl ip) s1 = (r, s') ->
  r <> Ok false ->
  resolveStorybookUrl replaceLocalhost networkInterfaces storybookUrl check s
  = (resolutionOf (replaceLocalhost storybookUrl ip) r, s').
Proof.
  intros Hsplit Href Hcheck Hr. unfold resolveStorybookUrl, addresses.
  rewrite Hsplit. eapply tryAddresses_first_answer; eassumption.
Qed.

(** With the interfaces 172.17.0.1 and 192.168.1.5 and a checker that fails
    on the second candidate: the error comes out, and 192.168.1.5 is never
    tried. *)
Lemma resolution_stops_at_first_answer_witness :
  resolveStorybookUrl sampleReplaceLocalhost sampleInterfaces "http://localhost:6006"
    (fun url => if includes "172" url then throwError "no route to host" else ret false)
    (start toyBlank)
  = (Throw (ThrownError (newError "no route to host")), start toyBlank).
Proof.
  refine (@resolution_stops_at_first_answer Toy ToyDriver sampleReplaceLocalhost
            sampleInterfaces
            (fun url => if includes "172" url then throwError "no route to host"
                        else ret false)
            "http://localhost:6006" [DOCKER_INTERNAL] "172.17.0.1" ["192.168.1.5"%string]
            (start toyBlank) (start toyBlank) (start toyBlank)
            (Throw (ThrownError (newError "no route to host"))) _ _ _ _).
  - reflexivity.
  - econstructor; [vm_compute; reflexivity | constructor].
  - vm_compute. reflexivity.
  - discriminate.
Defined.

(** With the checker of [getUrlChecker], which turns every error of a check
    into the answer [false], the resolution throws nothing but
    [ResolveUrlError], and only after every candidate was checked and
    refused. *)
Theorem resolution_fails_with_ResolveUrlError_only {W : Type} {drv : WebDriver W}
  (replaceLocalhost : string -> string -> string)
  (networkInterfaces : list (option (list NetworkInterfaceInfo)))
  (fuel : nat) (storybookUrl : string) (s s' : State W) (t : Thrown) :
  resolveStorybookUrl replaceLocalhost networkInterfaces storybookUrl
    (getUrlChecker fuel) s = (Throw t, s') ->
  t = ThrownError RESOLVE_URL_ERROR
  /\ isResolveUrlError t = true
  /\ Refused (getUrlChecker fuel)
       (map (replaceLocalhost storybookUrl)
            (DOCKER_INTERNAL :: ipv4Addresses networkInterfaces)) s s'.
Proof.
  intros H. unfold resolveStorybookUrl, addresses in H.
  destruct (tryAddresses_throws replaceLocalhost (getUrlChecker fuel) storybookUrl
              (getUrlChecker_no_throw fuel) _ _ H) as [Ht Href].
  subst t. split; [reflexivity | ]. split; [reflexivity | exact Href].
Qed.

(** A browser that reaches no storybook, with the two interfaces: all three
    candidates are refused. *)
Lemma resolution_fails_with_ResolveUrlError_only_witness :
  exists s',
    resolveStorybookUrl sampleReplaceLocalhost sampleInterfaces
      (appendIframePath "http://localhost:6006") (getUrlChecker 3) (start toyNowhere)
    = (Throw (ThrownError RESOLVE_URL_ERROR), s')
    /\ Refused (getUrlChecker 3)
         (map (sampleReplaceLocalhost (appendIframePath "http://localhost:6006"))
              (DOCKER_INTERNAL :: ipv4Addresses sampleInterfaces))
         (start toyNowhere) s'.
Proof.
  pose (r := resolveStorybookUrl sampleReplaceLocalhost sampleInterfaces
               (appendIframePath "http://localhost:6006") (getUrlChecker 3)
               (start toyNowhere)).
  assert (Hrun : resolveStorybookUrl sampleReplaceLocalhost sampleInterfaces
                   (appendIframePath "http://localhost:6006") (getUrlChecker 3)
                   (start toyNowhere)
                 = (Throw (ThrownError RESOLVE_URL_ERROR), snd r))
    by (vm_compute; reflexivity).
  destruct (resolution_fails_with_ResolveUrlError_only _ _ _ _ _ Hrun) as (_ & _ & Href).
  exists (snd r). split; [exact Hrun | exact Href].
Defined.

(** ** A polling loop that cannot end *)

(** While every read of the page source is rejected, the loop of
    [openUrlAndWaitForPageSource] keeps the source it started with; when its
    predicate holds of that source, as both predicates of [getUrlChecker] do
    of the empty source, the loop reads again and again and never ends. *)
Theorem polling_never_ends_on_rejected_reads {W : Type} {drv : WebDriver W}
  (Dead : W -> Prop) (predicate : string -> bool) (source : string) :
  (forall w, Dead w -> exists t w', wd_getPageSource w = (Rejected t, w') /\ Dead w') ->
  predicate source = true ->
  forall (fuel : nat) (s : State W),
    Dead (world s) ->
    fst (pollPageSource fuel predicate source s) = Pending
    /\ trace (snd (pollPageSource fuel predicate source s))
       = trace s ++ repeat CGetPageSource fuel
    /\ blankPending EmptyString = true
    /\ pagePending EmptyString = true.
Proof.
  intros Hdead Hp fuel.
  induction fuel as [ | fuel IH]; intros s Hs.
  - simpl. rewrite app_nil_r. repeat split; reflexivity.
  - destruct (Hdead _ Hs) as (t & w' & Hread & Hw').
    assert (Hstep : pollPageSource (S fuel) predicate source s
                    = pollPageSource fuel predicate source
                        (mkState w' (trace s ++ [CGetPageSource]) (scrollBarWidthCache s))).
    { simpl. unfold bind, tryCatch, await, settle, record. simpl.
      rewrite Hread. simpl. rewrite Hp. reflexivity. }
    rewrite Hstep.
    destruct (IH (mkState w' (trace s ++ [CGetPageSource]) (scrollBarWidthCache s)) Hw')
      as (Hpend & Ht & Hb & Hpg).
    split; [exact Hpend | ]. split; [ | split; [exact Hb | exact Hpg]].
    rewrite Ht. simpl. rewrite <- app_assoc. reflexivity.
Qed.

(** A session that is gone: after ten turns the loop is still reading. *)
Lemma polling_never_ends_on_rejected_reads_witness :
  fst (pollPageSource 10 pagePending EmptyString (start toyGone)) = Pending
  /\ trace (snd (pollPageSource 10 pagePending EmptyString (start toyGone)))
     = repeat CGetPageSource 10.
Proof.
  assert (Hdead : forall t : Toy, sessionGone t ->
            exists e t', wd_getPageSource t = (Rejected e, t') /\ sessionGone t').
  { intros t Ht. exists disconnected, t. split; [ | exact Ht].
    simpl. unfold toyReply. rewrite Ht. reflexivity. }
  destruct (@polling_never_ends_on_rejected_reads Toy ToyDriver sessionGone pagePending
              EmptyString Hdead eq_refl 10%nat (start toyGone) eq_refl)
    as (Hpend & Ht & _).
  split; [exact Hpend | exact Ht].
Defined.

(** ** What the polling loops of a check wait for *)

Lemma startsWith_spec (p s : string) :
  startsWith p s = true <-> exists r, s = (p ++ r)%string.
Proof.
  revert s. induction p as [ | c p IH]; intros s.
  - split; [intros _; exists s; reflexivity | destruct s; reflexivity].
  - destruct s as [ | d s]; cbn [startsWith append].
    + split; [discriminate | intros (r & H); discriminate].
    + rewrite andb_true_iff, Ascii.eqb_eq, IH. split.
      * intros (-> & r & ->). exists r. reflexivity.
      * intros (r & H). injection H as -> ->. split; [reflexivity | exists r; reflexivity].
Qed.

Lemma stripPrefix_spec (p s r : string) :
  stripPrefix p s = Some r <-> s = (p ++ r)%string.
Proof.
  revert s. induction p as [ | c p IH]; intros s.
  - cbn [stripPrefix append]. destruct s; split; intros H; congruence.
  - destruct s as [ | d s]; cbn [stripPrefix append].
    + split; discriminate.
    + destruct (Ascii.eqb_spec c d) as [-> | Hcd].
      * rewrite IH. split; [intros ->; reflexivity | intros H; injection H as ->; reflexivity].
      * split; [discriminate | intros H; injection H as -> _; contradiction].
Qed.

Lemma includes_spec (p s : string) :
  includes p s = true <-> exists a b, s = (a ++ p ++ b)%string.
Proof.
  induction s as [ | c s IH].
  - cbn [includes]. rewrite orb_false_r, startsWith_spec. split.
    + intros (r & H). exists EmptyString, r. exact H.
    + intros (a & b & H). destruct a as [ | x a]; [exists b; exact H | discriminate].
  - cbn [includes]. rewrite orb_true_iff, startsWith_spec, IH. split.
    + intros [(r & H) | (a & b & H)].
      * exists EmptyString, r. exact H.
      * exists (String c a), b. rewrite H. reflexivity.
    + intros (a & b & H). destruct a as [ | x a].
      * left. exists b. exact H.
      * right. injection H as -> ->. exists a, b. reflexivity.
Qed.

Lemma bodyTail_spec (s : string) :
  bodyTail s = true <->
  exists attrs content post,
    s = (attrs ++ ">" ++ content ++ "</body>" ++ post)%string
    /\ includes ">" attrs = false /\ content <> EmptyString.
Proof.
  induction s as [ | c s IH].
  - cbn [bodyTail]. split; [discriminate | ].
    intros (attrs & content & post & H & _). destruct attrs; discriminate.
  - cbn [bodyTail]. destruct (Ascii.eqb_spec c ">"%char) as [-> | Hc].
    + split.
      * destruct s as [ | x s]; [discriminate | ]. intros H.
        apply includes_spec in H. destruct H as (a & b & ->).
        exists EmptyString, (String x a), b.
        split; [reflexivity | ]. split; [reflexivity | discriminate].
      * intros (attrs & content & post & H & Hattrs & Hcontent).
        destruct attrs as [ | y attrs].
        -- destruct content as [ | x content]; [contradiction | ].
           cbn [append] in H. injection H as ->.
           apply includes_spec. exists content, post. reflexivity.
        -- cbn [append] in H. injection H as <- _.
           cbn [includes startsWith] in Hattrs. rewrite Ascii.eqb_refl in Hattrs.
           destruct attrs; discriminate.
    + rewrite IH. split.
      * intros (attrs & content & post & -> & Hattrs & Hcontent).
        exists (String c attrs), content, post.
        split; [reflexivity | ]. split; [ | exact Hcontent].
        cbn [includes startsWith].
        rewrite (proj2 (Ascii.eqb_neq ">"%char c)) by congruence.
        exact Hattrs.
      * intros (attrs & content & post & H & Hattrs & Hcontent).
        destruct attrs as [ | y attrs].
        -- cbn [append] in H. injection H as -> _. contradiction.
        -- cbn [append] in H. injection H as <- ->.
           exists attrs, content, post. split; [reflexivity | ].
           split; [ | exact Hcontent].
           cbn [includes startsWith] in Hattrs.
           apply orb_false_elim in Hattrs. apply (proj2 Hattrs).
Qed.

Lemma bodyRegexp_spec (source : string) :
  bodyRegexp source = true <->
  exists pre attrs content post,
    source = (pre ++ "<body" ++ attrs ++ ">" ++ content ++ "</body>" ++ post)%string
    /\ includes ">" attrs = false /\ content <> EmptyString.
Proof.
  assert (Hhere : forall s : string,
            match stripPrefix "<body" s with
            | Some rest => bodyTail rest
            | None => false
            end = true <->
            exists attrs content post,
              s = ("<body" ++ attrs ++ ">" ++ content ++ "</body>" ++ post)%string
              /\ includes ">" attrs = false /\ content <> EmptyString).
  { intros s. destruct (stripPrefix "<body" s) as [rest | ] eqn:E.
    - apply stripPrefix_spec in E. subst s. rewrite bodyTail_spec. split.
      + intros (attrs & content & post & -> & H). exists attrs, content, post.
        split; [reflexivity | exact H].
      + intros (attrs & content & post & H & Hrest). exists attrs, content, post.
        split; [ | exact Hrest].
        cbn [append] in H. injection H as ->. reflexivity.
    - split; [discriminate | ].
      intros (attrs & content & post & H & _).
      assert (E' : stripPrefix "<body" s
                   = Some (attrs ++ ">" ++ content ++ "</body>" ++ post)%string)
        by (apply stripPrefix_spec; exact H).
      congruence. }
  induction source as [ | c source IH].
  - cbn [bodyRegexp stripPrefix]. split; [discriminate | ].
    intros (pre & attrs & content & post & H & _). destruct pre; discriminate.
  - change (bodyRegexp (String c source))
      with (match stripPrefix "<body" (String c source) with
            | Some rest => bodyTail rest
            | None => false
            end || bodyRegexp source).
    rewrite orb_true_iff, Hhere, IH. split.
    + intros [(attrs & content & post & H & Hrest)
             | (pre & attrs & content & post & H & Hrest)].
      * exists EmptyString, attrs, content, post. split; [exact H | exact Hrest].
      * exists (String c pre), attrs, content, post.
        split; [rewrite H; reflexivity | exact Hrest].
    + intros (pre & attrs & content & post & H & Hrest).
      destruct pre as [ | x pre].
      * left. exists attrs, content, post. split; [exact H | exact Hrest].
      * right. cbn [append] in H. injection H as _ ->.
        exists pre, attrs, content, post. split; [reflexivity | exact Hrest].
Qed.

(** The first polling loop of a check ends on a page source that holds the
    text [<body></body>].  The second ends on a source that holds a [body]
    element with something in it: [<body], a rest of the tag without [>],
    [>], at least one character, and [</body>] somewhere after it.  The
    source of the blank page does not end the second loop. *)
Theorem polling_ends_on_body (source : string) :
  (blankPending source = false <->
   exists a b, source = (a ++ "<body></body>" ++ b)%string)
  /\ (pagePending source = false <->
      exists pre attrs content post,
        source = (pre ++ "<body" ++ attrs ++ ">" ++ content ++ "</body>" ++ post)%string
        /\ includes ">" attrs = false /\ content <> EmptyString)
  /\ pagePending "<html><head></head><body></body></html>" = true.
Proof.
  split; [ | split; [ | reflexivity]].
  - unfold blankPending. rewrite negb_false_iff. apply includes_spec.
  - unfold pagePending. rewrite orb_false_iff, negb_false_iff, <- bodyRegexp_spec.
    split; [intros [_ H]; exact H | intros H; split; [ | exact H]].
    destruct source; [discriminate | reflexivity].
Qed.

(** ** The TeamCity reporter escapes in one pass *)

Lemma replaceAll_app (c : N) (replacement s t : CodeUnits) :
  replaceAll c replacement (s ++ t)
  = replaceAll c replacement s ++ replaceAll c replacement t.
Proof. unfold replaceAll. apply flat_map_app. Qed.

Lemma replaceAll_unit (c : N) (replacement : CodeUnits) (d : N) :
  replaceAll c replacement [d] = if (d =? c)%N then replacement else [d].
Proof. unfold replaceAll. cbn [flat_map]. apply app_nil_r. Qed.

Lemma escapePasses_app (s t : CodeUnits) :
  escapePasses (s ++ t) = escapePasses s ++ escapePasses t.
Proof. unfold escapePasses. rewrite !replaceAll_app. reflexivity. Qed.

Local Ltac special_unit c k :=
  destruct (N.eqb_spec c k) as [-> | ?]; [vm_compute; reflexivity | ].

(** No replacement touches what an earlier one has written: on one code
    unit the nine passes give its escape. *)
Lemma escapePasses_unit (c : N) : escapePasses [c] = escapeUnit c.
Proof.
  special_unit c 124%N. special_unit c 10%N. special_unit c 13%N.
  special_unit c 91%N. special_unit c 93%N. special_unit c 133%N.
  special_unit c 8232%N. special_unit c 8233%N. special_unit c 39%N.
  unfold escapePasses, escapeUnit.
  repeat (rewrite replaceAll_unit;
          match goal with
          | |- context [(c =? ?k)%N] =>
              rewrite (proj2 (N.eqb_neq c k)) by assumption
          end).
  reflexivity.
Qed.

Lemma escapePasses_one_pass (s : CodeUnits) : escapePasses s = flat_map escapeUnit s.
Proof.
  induction s as [ | c s IH]; [reflexivity | ].
  change (c :: s) with ([c] ++ s).
  rewrite escapePasses_app, escapePasses_unit, IH. reflexivity.
Qed.

Lemma wellEscaped_unit (c : N) (s : CodeUnits) :
  wellEscaped s = true -> wellEscaped (escapeUnit c ++ s) = true.
Proof.
  intros Hs.
  destruct (N.eqb_spec c 124) as [-> | ?]; [exact Hs | ].
  destruct (N.eqb_spec c 10) as [-> | ?]; [exact Hs | ].
  destruct (N.eqb_spec c 13) as [-> | ?]; [exact Hs | ].
  destruct (N.eqb_spec c 91) as [-> | ?]; [exact Hs | ].
  destruct (N.eqb_spec c 93) as [-> | ?]; [exact Hs | ].
  destruct (N.eqb_spec c 133) as [-> | ?]; [exact Hs | ].
  destruct (N.eqb_spec c 8232) as [-> | ?]; [exact Hs | ].
  destruct (N.eqb_spec c 8233) as [-> | ?]; [exact Hs | ].
  destruct (N.eqb_spec c 39) as [-> | ?]; [exact Hs | ].
  unfold escapeUnit.
  repeat match goal with
         | |- context [(c =? ?k)%N] =>
             rewrite (proj2 (N.eqb_neq c k)) by assumption
         end.
  cbn [app wellEscaped]. unfold needsEscape.
  repeat match goal with
         | |- context [(c =? ?k)%N] =>
             rewrite (proj2 (N.eqb_neq c k)) by assumption
         end.
  exact Hs.
Qed.

Lemma removeColors_plain (s : CodeUnits) :
  removeColors false (filter (fun c => negb (c =? 27)%N) s)
  = filter (fun c => negb (c =? 27)%N) s.
Proof.
  induction s as [ | c s IH]; [reflexivity | ].
  cbn [filter]. destruct (c =? 27)%N eqn:E; cbn [negb]; [exact IH | ].
  cbn [removeColors]. rewrite E. cbn [andb]. rewrite IH. reflexivity.
Qed.

(** [escape] amounts to one pass over the text without its colour codes,
    each code unit giving its escape; what it returns is well escaped: a
    bar, a line break, a bracket or a quote stands in it only as part of
    an escape.  A text without escape characters loses nothing. *)
Theorem escape_in_one_pass (str : CodeUnits) :
  escape str = flat_map escapeUnit (removeColors false str)
  /\ wellEscaped (escape str) = true
  /\ removeColors false (filter (fun c => negb (c =? 27)%N) str)
     = filter (fun c => negb (c =? 27)%N) str.
Proof.
  assert (E : escape str = flat_map escapeUnit (removeColors false str)).
  { destruct str as [ | c str]; [reflexivity | ].
    unfold escape. apply escapePasses_one_pass. }
  split; [exact E | ]. split; [ | apply removeColors_plain].
  rewrite E. clear E. induction (removeColors false str) as [ | c s IH]; [reflexivity | ].
  cbn [flat_map]. apply wellEscaped_unit. exact IH.
Qed.

(** ** Colour codes vanish *)

Lemma removeColors_inside (code rest : CodeUnits) :
  Forall (fun c => c <> 109%N) code ->
  removeColors true (code ++ 109%N :: rest) = removeColors false rest.
Proof.
  induction 1 as [ | c code Hc _ IH]; cbn [app removeColors].
  - reflexivity.
  - rewrite (proj2 (N.eqb_neq c 109) Hc). exact IH.
Qed.

Lemma lazyUntilM_reaches (code rest : CodeUnits) :
  Forall (fun c => matchesDot c = true) code ->
  lazyUntilM (code ++ 109%N :: rest) = true.
Proof.
  induction 1 as [ | c code Hc _ IH]; cbn [app lazyUntilM].
  - reflexivity.
  - rewrite Hc, IH. apply orb_true_r.
Qed.

(** An escape character followed, on the same line, by a run without [m]
    and then an [m], which is what a colour code of a terminal looks like,
    leaves no trace in the escaped text. *)
Theorem escape_drops_colour_code (code rest : CodeUnits) :
  Forall (fun c => c <> 109%N) code ->
  Forall (fun c => matchesDot c = true) code ->
  escape (27%N :: code ++ 109%N :: rest) = escape rest.
Proof.
  intros Hm Hdot.
  assert (E : removeColors false (27%N :: code ++ 109%N :: rest)
              = removeColors false rest).
  { cbn [removeColors]. rewrite N.eqb_refl, (lazyUntilM_reaches rest Hdot).
    cbn [andb]. apply removeColors_inside. exact Hm. }
  unfold escape. rewrite E. destruct rest as [ | c rest]; reflexivity.
Qed.

(** The red [expected [1]] of a failed assertion: the colour goes, the
    brackets are escaped. *)
Lemma escape_drops_colour_code_witness :
  escape (27%N :: unitsOf "[31" ++ 109%N :: unitsOf "expected [1]")
  = unitsOf "expected |[1|]".
Proof.
  rewrite (@escape_drops_colour_code (unitsOf "[31") (unitsOf "expected [1]")).
  - vm_compute. reflexivity.
  - repeat constructor; discriminate.
  - repeat constructor.
Defined.

(** ** Escaping loses nothing *)

Lemma unescape_unit (c : N) (s : CodeUnits) :
  unescape (escapeUnit c ++ s) = c :: unescape s.
Proof.
  destruct (N.eqb_spec c 124) as [-> | ?]; [reflexivity | ].
  destruct (N.eqb_spec c 10) as [-> | ?]; [reflexivity | ].
  destruct (N.eqb_spec c 13) as [-> | ?]; [reflexivity | ].
  destruct (N.eqb_spec c 91) as [-> | ?]; [reflexivity | ].
  destruct (N.eqb_spec c 93) as [-> | ?]; [reflexivity | ].
  destruct (N.eqb_spec c 133) as [-> | ?]; [reflexivity | ].
  destruct (N.eqb_spec c 8232) as [-> | ?]; [reflexivity | ].
  destruct (N.eqb_spec c 8233) as [-> | ?]; [reflexivity | ].
  destruct (N.eqb_spec c 39) as [-> | ?]; [reflexivity | ].
  unfold escapeUnit.
  repeat match goal with
         | |- context [(c =? ?k)%N] =>
             rewrite (proj2 (N.eqb_neq c k)) by assumption
         end.
  cbn [app unescape]. rewrite (proj2 (N.eqb_neq c 124)) by assumption. reflexivity.
Qed.

Lemma unescape_one_pass (s : CodeUnits) : unescape (flat_map escapeUnit s) = s.
Proof.
  induction s as [ | c s IH]; [reflexivity | ].
  cbn [flat_map]. rewrite unescape_unit, IH. reflexivity.
Qed.

Lemma removeColors_without_escape (s : CodeUnits) :
  ~ In 27%N s -> removeColors false s = s.
Proof.
  induction s as [ | c s IH]; intros H; [reflexivity | ].
  cbn [removeColors].
  rewrite (proj2 (N.eqb_neq c 27)) by (intros ->; apply H; left; reflexivity).
  cbn [andb]. rewrite IH; [reflexivity | ].
  intros Hin. apply H. right. exact Hin.
Qed.

Lemma escape_without_escape (s : CodeUnits) :
  ~ In 27%N s -> escape s = flat_map escapeUnit s.
Proof.
  intros H. destruct s as [ | c s]; [reflexivity | ].
  unfold escape. rewrite escapePasses_one_pass, (@removeColors_without_escape _ H).
  reflexivity.
Qed.

(** On a text without escape characters, [escape] loses nothing: reading
    the escapes back gives the text again, so two such texts with the same
    escaped form are the same text. *)
Theorem escape_round_trip (s : CodeUnits) :
  ~ In 27%N s ->
  unescape (escape s) = s
  /\ forall t : CodeUnits, ~ In 27%N t -> escape s = escape t -> s = t.
Proof.
  intros Hs.
  assert (Hround : forall u : CodeUnits, ~ In 27%N u -> unescape (escape u) = u).
  { intros u Hu. rewrite (@escape_without_escape _ Hu). apply unescape_one_pass. }
  split; [apply Hround; exact Hs | ].
  intros t Ht E. rewrite <- (Hround s Hs), <- (Hround t Ht), E. reflexivity.
Qed.

(** A title with a bar, brackets, quotes and a line break. *)
Lemma escape_round_trip_witness :
  unescape (escape (unitsOf "a|b ['c']" ++ [10%N])) = unitsOf "a|b ['c']" ++ [10%N].
Proof.
  refine (proj1 (@escape_round_trip (unitsOf "a|b ['c']" ++ [10%N]) _)).
  vm_compute. intros H.
  repeat (destruct H as [H | H]; [discriminate | ]). exact H.
Defined.

(** ** The exit code of a run *)

Section ExitCodeFacts.

Variable TestData : Type.
Variable skip : TestData -> bool.
Variable status : TestData -> option string.

Lemma filterDefined_In (tests : list (option TestData)) (t : TestData) :
  In t (filterDefined tests) <-> In (Some t) tests.
Proof.
  induction tests as [ | [t' | ] tests IH]; simpl.
  - reflexivity.
  - rewrite IH. split; (intros [H | H]; [left | right; exact H]); congruence.
  - rewrite IH. split; [intros H; right; exact H | intros [H | H]; [discriminate | exact H]].
Qed.

Lemma nothingToRun_spec (tests : list (option TestData)) :
  nothingToRun skip tests = true <-> forall t, In (Some t) tests -> skip t = true.
Proof.
  unfold nothingToRun. rewrite Nat.eqb_eq, length_zero_iff_nil. split.
  - intros Hnil t Hin. destruct (skip t) eqn:E; [reflexivity | ].
    assert (H : In (Some t)
                  (filter (fun test => match test with
                                       | Some t0 => negb (skip t0)
                                       | None => false
                                       end) tests)).
    { apply filter_In. split; [exact Hin | rewrite E; reflexivity]. }
    rewrite Hnil in H. destruct H.
  - intros Hall.
    destruct (filter _ tests) as [ | test rest] eqn:E; [reflexivity | ].
    assert (H : In test (test :: rest)) by (left; reflexivity).
    rewrite <- E in H. apply filter_In in H. destruct H as [Hin Hrun].
    destruct test as [t | ]; [ | discriminate].
    rewrite (Hall t Hin) in Hrun. discriminate.
Qed.

Lemma isSuccess_spec (tests : list (option TestData)) :
  isSuccess skip status tests = true <->
  forall t, In (Some t) tests -> skip t = false -> status t = Some "success"%string.
Proof.
  unfold isSuccess. rewrite forallb_forall. split.
  - intros H t Hin Hskip.
    assert (Hrun : In t (filter (fun test => negb (skip test)) (filterDefined tests))).
    { apply filter_In. split; [apply filterDefined_In; exact Hin | ].
      rewrite Hskip. reflexivity. }
    specialize (H t Hrun). unfold optEqb in H.
    destruct (status t) as [v | ]; [ | discriminate].
    apply String.eqb_eq in H. rewrite H. reflexivity.
  - intros H t Hin. apply filter_In in Hin. destruct Hin as [Hin Hskip].
    apply filterDefined_In in Hin. apply negb_true_iff in Hskip.
    rewrite (H t Hin Hskip). apply String.eqb_refl.
Qed.

End ExitCodeFacts.

(** The exit code of a run is 0 or -1.  It is 0 exactly when every test
    that is defined and not skipped ended with the status ['success']: a
    test that failed, or never got a status, makes it -1, and the tests
    that are undefined or skipped do not count.  The earlier test, that
    nothing is left to run, holds exactly when every defined test is
    skipped, and a run that it stops would have had the exit code 0. *)
Theorem exit_code_of_run (TestData : Type) (skip : TestData -> bool)
  (status : TestData -> option string) (tests : list (option TestData)) :
  (exitCode skip status tests = 0%Z \/ exitCode skip status tests = (-1)%Z)
  /\ (exitCode skip status tests = 0%Z <->
      forall t, In (Some t) tests -> skip t = false -> status t = Some "success"%string)
  /\ (nothingToRun skip tests = true <-> forall t, In (Some t) tests -> skip t = true)
  /\ (nothingToRun skip tests = true -> exitCode skip status tests = 0%Z).
Proof.
  assert (Hcode : exitCode skip status tests = 0%Z <-> isSuccess skip status tests = true).
  { unfold exitCode. destruct (isSuccess skip status tests); split;
      first [reflexivity | discriminate]. }
  split; [unfold exitCode; destruct (isSuccess skip status tests); auto | ].
  split; [rewrite Hcode; apply isSuccess_spec | ].
  split; [apply nothingToRun_spec | ].
  intros Hnothing. apply Hcode. apply isSuccess_spec.
  intros t Hin Hskip.
  rewrite (proj1 (nothingToRun_spec skip tests) Hnothing t Hin) in Hskip. discriminate.
Qed.

(** ** Listing a directory *)

Lemma Dirent_nested_ind (P : Dirent -> Prop) :
  (forall name, P (FileEntry name)) ->
  (forall name entries, Forall P entries -> P (DirectoryEntry name entries)) ->
  forall dirent, P dirent.
Proof.
  intros Hfile Hdir. fix IH 1. intros [name | name entries].
  - apply Hfile.
  - apply Hdir. induction entries as [ | dirent entries IHentries].
    + constructor.
    + constructor; [apply IH | exact IHentries].
Qed.

Lemma append_assoc (a b c : string) : ((a ++ b) ++ c)%string = (a ++ (b ++ c))%string.
Proof.
  induction a as [ | x a IH]; [reflexivity | ].
  cbn [append]. rewrite IH. reflexivity.
Qed.

Lemma startsWith_app (p q : string) : startsWith p (p ++ q) = true.
Proof.
  induction p as [ | c p IH]; [reflexivity | ].
  cbn [append startsWith]. rewrite Ascii.eqb_refl. exact IH.
Qed.

Lemma startsWith_shorter (p q s : string) :
  startsWith (p ++ q) s = true -> startsWith p s = true.
Proof.
  revert s. induction p as [ | c p IH]; intros s H; [destruct s; reflexivity | ].
  destruct s as [ | d s]; cbn [append startsWith] in H |- *; [discriminate | ].
  apply andb_prop in H. destruct H as [Hc H]. rewrite Hc. apply (IH _ H).
Qed.

Lemma readDirent_lists_files (dirent : Dirent) :
  forall dirPath : string,
    Forall (fun path => startsWith (dirPath ++ "/") path = true) (readDirent dirPath dirent)
    /\ List.length (readDirent dirPath dirent) = countFiles dirent.
Proof.
  induction dirent as [name | name entries IH] using Dirent_nested_ind; intros dirPath.
  - cbn [readDirent countFiles]. split; [ | reflexivity].
    constructor; [ | constructor].
    rewrite <- (append_assoc dirPath "/" name).
    apply startsWith_app.
  - cbn [readDirent countFiles].
    induction IH as [ | dirent entries Hd _ IHentries]; [split; [constructor | reflexivity] | ].
    destruct IHentries as [Hpaths Hlen].
    destruct (Hd (dirPath ++ "/" ++ name)%string) as [Hpaths1 Hlen1].
    cbn [flat_map map list_sum]. split.
    + apply Forall_app. split; [ | exact Hpaths].
      eapply Forall_impl; [ | exact Hpaths1].
      intros path Hpath. cbv beta in Hpath |- *.
      assert (E : ((dirPath ++ "/" ++ name) ++ "/")%string
                  = ((dirPath ++ "/") ++ name ++ "/")%string)
        by (rewrite !append_assoc; reflexivity).
      rewrite E in Hpath. exact (startsWith_shorter _ _ _ Hpath).
    + rewrite length_app, Hlen1, Hlen. reflexivity.
Qed.

(** [readDirRecursive] returns one path for each file in or below the
    directory, however deep, and none for a directory; every path begins
    with the path of the directory and a slash. *)
Theorem readDirRecursive_lists_files (dirPath : string) (entries : list Dirent) :
  Forall (fun path => startsWith (dirPath ++ "/") path = true)
         (readDirRecursive dirPath entries)
  /\ List.length (readDirRecursive dirPath entries) = list_sum (map countFiles entries).
Proof.
  split.
  - unfold readDirRecursive. induction entries as [ | dirent entries IH]; [constructor | ].
    cbn [flat_map]. apply Forall_app. split; [ | exact IH].
    apply readDirent_lists_files.
  - unfold readDirRecursive. induction entries as [ | dirent entries IH]; [reflexivity | ].
    cbn [flat_map map list_sum]. rewrite length_app, IH.
    rewrite (proj2 (readDirent_lists_files dirent dirPath)). reflexivity.
Qed.

(** The sample directory: the empty directory [Disabled] gives no path. *)
Example readDirRecursive_sample (dirPath : string) :
  readDirRecursive dirPath sampleImages
  = map (append dirPath)
        ["/Button/Primary/chrome.png"; "/Button/Primary/firefox.png"; "/notes.txt"]%string.
Proof.
  unfold readDirRecursive, sampleImages. cbn [flat_map readDirent app map].
  rewrite !append_assoc. reflexivity.
Qed.
